(** * godivert: packets, header views and the buffer pool

    A shallow embedding of the Go package [godivert] (bufferPool.go,
    packet.go, windivert.go, const.go) and of [header/tcp.go].

    Go slices alias their backing arrays: [Packet.Raw], the header views'
    [Raw] fields and the pooled buffer of a received packet all point into
    one array.  The model keeps a store of backing arrays and represents a
    slice as the Go runtime does, by (array, offset, length, capacity).
    A run-time panic (index or slice bound out of range, nil dereference)
    is the [None] of the option monad. *)

From stdpp Require Import base option list strings.
From Stdlib Require Import ZArith Lia.

Open Scope Z_scope.

(** ** Machine integers *)

Definition uint8 (x : Z) : Z := x mod 256.
Definition uint16 (x : Z) : Z := x mod 65536.

(** ** Slices over a store of backing arrays *)

Module Mem.

(** A backing array never changes its length once allocated. *)
Abbreviation heap := (list (list Z)).

Record slice := Slice { ptr : nat; off : Z; len : Z; cap : Z }.

#[global] Instance slice_eq_dec : EqDecision slice.
Proof. solve_decision. Defined.

(** The nil slice: length and capacity 0, so no byte of it is reachable. *)
Definition nil : slice := Slice 0 0 0 0.

Definition array (h : heap) (s : slice) : list Z := default [] (h !! ptr s).

(** The [len s] bytes a slice denotes. *)
Definition bytes (h : heap) (s : slice) : list Z :=
  take (Z.to_nat (len s)) (drop (Z.to_nat (off s)) (array h s)).

(** [s[i]], panics unless [0 <= i < len(s)]. *)
Definition index (h : heap) (s : slice) (i : Z) : option Z :=
  if (0 <=? i) && (i <? len s) then array h s !! Z.to_nat (off s + i) else None.

(** [s[i] = v]. *)
Definition store (h : heap) (s : slice) (i v : Z) : option heap :=
  if (0 <=? i) && (i <? len s)
  then Some (<[ptr s := <[Z.to_nat (off s + i) := v]> (array h s)]> h)
  else None.

(** [s[lo:hi]], panics unless [0 <= lo <= hi <= cap(s)]. *)
Definition reslice (s : slice) (lo hi : Z) : option slice :=
  if (0 <=? lo) && (lo <=? hi) && (hi <=? cap s)
  then Some (Slice (ptr s) (off s + lo) (hi - lo) (cap s - lo))
  else None.

(** [s[lo:]] and [s[:hi]]. *)
Definition from (s : slice) (lo : Z) : option slice := reslice s lo (len s).
Definition upto (s : slice) (hi : Z) : option slice := reslice s 0 hi.

(** Overwrite the array under [s], starting at the first byte of [s];
    nothing is written past the end of the array. *)
Definition write (h : heap) (s : slice) (data : list Z) : heap :=
  let a := array h s in
  let o := Z.to_nat (off s) in
  let d := take (length a - o) data in
  <[ptr s := take o a ++ d ++ drop (o + length d) a]> h.

(** [copy(dst, src)]: moves [min(len(dst), len(src))] bytes, the source
    being read before the destination is written (memmove). *)
Definition copy (h : heap) (dst src : slice) : heap * Z :=
  let n := Z.min (len dst) (len src) in
  (write h dst (take (Z.to_nat n) (bytes h src)), n).

(** [make([]byte, n)]: a fresh zeroed array. *)
Definition make (h : heap) (n : Z) : heap * slice :=
  (h ++ [replicate (Z.to_nat n) 0], Slice (length h) 0 n n).

(** [append(s, v...)].  Within capacity the bytes are written behind [s] in
    the same array; otherwise the runtime moves the result to a new array.
    The capacity the runtime then picks is [growcap], at least the length
    needed. *)
Definition append (growcap : Z -> Z -> Z) (h : heap) (s v : slice) : heap * slice :=
  let data := bytes h v in
  let n := len s + len v in
  if n <=? cap s then
    (write h (Slice (ptr s) (off s + len s) (len v) (cap s - len s)) data,
     Slice (ptr s) (off s) n (cap s))
  else
    let c := Z.max n (growcap (cap s) n) in
    (h ++ [bytes h s ++ data ++ replicate (Z.to_nat (c - n)) 0],
     Slice (length h) 0 n c).

(** [binary.BigEndian.Uint16(b)]. *)
Definition Uint16 (h : heap) (b : slice) : option Z :=
  b1 ← index h b 1;
  b0 ← index h b 0;
  Some (Z.lor b1 (Z.shiftl b0 8)).

(** [binary.BigEndian.Uint32(b)]. *)
Definition Uint32 (h : heap) (b : slice) : option Z :=
  b3 ← index h b 3;
  b0 ← index h b 0;
  b1 ← index h b 1;
  b2 ← index h b 2;
  Some (Z.lor (Z.lor (Z.lor b3 (Z.shiftl b2 8)) (Z.shiftl b1 16)) (Z.shiftl b0 24)).

(** [binary.BigEndian.PutUint32(b, v)]. *)
Definition PutUint32 (h : heap) (b : slice) (v : Z) : option heap :=
  _ ← index h b 3;
  h ← store h b 0 (uint8 (Z.shiftr v 24));
  h ← store h b 1 (uint8 (Z.shiftr v 16));
  h ← store h b 2 (uint8 (Z.shiftr v 8));
  store h b 3 (uint8 v).

(** A slice lies inside its array. *)
Definition valid (h : heap) (s : slice) : Prop :=
  0 <= off s /\ 0 <= len s <= cap s /\ off s + cap s <= Z.of_nat (length (array h s)).

(** From [m] to [m'] nothing changed outside the bytes [lo], ..., [hi - 1]
    of [s], seen through any slice. *)
Definition untouched_outside (m m' : heap) (s : slice) (lo hi : Z) : Prop :=
  forall t j, 0 <= off t + j ->
    (ptr t <> ptr s \/ off t + j < off s + lo \/ off s + hi <= off t + j) ->
    index m' t j = index m t j.

(** No operation shortens an array or frees one: every array of [m] is,
    in [m'], at least as long. *)
Definition grows (m m' : heap) : Prop :=
  forall a : nat, (length (default [] (m !! a)) <= length (default [] (m' !! a)))%nat.

End Mem.

(** ** Package [header] *)

Module header.
Import Mem.

(** Modelled from the spec: header/header.go is missing; the protocol
    numbers are the IANA ones the spec lists (ICMPv4=1, TCP=6, UDP=17,
    ICMPv6=58). *)
Definition ICMPv4 : Z := 1.
Definition TCP : Z := 6.
Definition UDP : Z := 17.
Definition ICMPv6 : Z := 58.

(** The next-header values [ParseHeaders] builds a view for. *)
Definition recognized (nt : Z) : Prop :=
  nt = ICMPv4 \/ nt = TCP \/ nt = UDP \/ nt = ICMPv6.

(** Modelled from the spec: [TCPHeaderLen] of header/header.go is missing;
    the spec gives the fixed part of a TCP header as 20 bytes. *)
Definition TCPHeaderLen : Z := 20.

(** *** header/tcp.go *)
Module TCPHeader.

Record t := mk { Raw : slice; Modified : bool; Payload : slice }.

#[global] Instance eq_dec : EqDecision t.
Proof. solve_decision. Defined.

Definition GetPayload (h : t) : slice := Payload h.

(** [hdrLen := (h.Raw[12] >> 4) * 4], computed on bytes. *)
Definition hdrLen_of (m : heap) (raw : slice) : option Z :=
  b ← index m raw 12; Some (uint8 (Z.shiftr b 4 * 4)).

Section WithRuntime.
Variable growcap : Z -> Z -> Z.

Definition SetPayload (m : heap) (h : t) (val : slice) : option (heap * t) :=
  hdrLen ← hdrLen_of m (Raw h);
  if len val =? len (Payload h) then
    dst ← from (Raw h) hdrLen;
    Some (fst (copy m dst val), mk (Raw h) true val)
  else
    pre ← upto (Raw h) hdrLen;
    let '(m', r) := append growcap m pre val in
    Some (m', mk r true val).
End WithRuntime.

Definition SrcPort (m : heap) (h : t) : option (Z * option string) :=
  b ← reslice (Raw h) 0 2; v ← Uint16 m b; Some (v, None).

Definition DstPort (m : heap) (h : t) : option (Z * option string) :=
  b ← reslice (Raw h) 2 4; v ← Uint16 m b; Some (v, None).

Definition SetSrcPort (m : heap) (h : t) (port : Z) : option (heap * t * option string) :=
  let h := mk (Raw h) true (Payload h) in
  m ← store m (Raw h) 0 (uint8 (Z.shiftr port 8));
  m ← store m (Raw h) 1 (uint8 (Z.land port 255));
  Some (m, h, None).

Definition SetDstPort (m : heap) (h : t) (port : Z) : option (heap * t * option string) :=
  let h := mk (Raw h) true (Payload h) in
  m ← store m (Raw h) 2 (uint8 (Z.shiftr port 8));
  m ← store m (Raw h) 3 (uint8 (Z.land port 255));
  Some (m, h, None).

Definition SeqNum (m : heap) (h : t) : option Z :=
  b ← reslice (Raw h) 4 8; Uint32 m b.

Definition AckNum (m : heap) (h : t) : option Z :=
  b ← reslice (Raw h) 8 12; Uint32 m b.

Definition SetSeqNum (m : heap) (h : t) (seqNum : Z) : option (heap * t * option string) :=
  let h := mk (Raw h) true (Payload h) in
  b ← reslice (Raw h) 4 8;
  m ← PutUint32 m b seqNum;
  Some (m, h, None).

Definition SetAckNum (m : heap) (h : t) (ackNum : Z) : option (heap * t * option string) :=
  let h := mk (Raw h) true (Payload h) in
  b ← reslice (Raw h) 8 12;
  m ← PutUint32 m b ackNum;
  Some (m, h, None).

Definition DataOffset (m : heap) (h : t) : option Z :=
  b ← index m (Raw h) 12; Some (Z.shiftr b 4).

Definition HeaderLen (m : heap) (h : t) : option Z :=
  d ← DataOffset m h; Some (d * 4).

Definition NeedNewChecksum (h : t) : bool := Modified h.

Definition Reserved (m : heap) (h : t) : option Z :=
  b ← index m (Raw h) 12; Some (Z.land (Z.shiftr b 1) 7).

(** The flags: NS is the low bit of byte 12, the others the bits of
    byte 13 from the high one down. *)
Definition NS (m : heap) (h : t) : option bool :=
  b ← index m (Raw h) 12; Some (Z.land b 1 =? 1).

Definition CWR (m : heap) (h : t) : option bool :=
  b ← index m (Raw h) 13; Some (Z.shiftr b 7 =? 1).

Definition ECE (m : heap) (h : t) : option bool :=
  b ← index m (Raw h) 13; Some (Z.land (Z.shiftr b 6) 1 =? 1).

Definition URG (m : heap) (h : t) : option bool :=
  b ← index m (Raw h) 13; Some (Z.land (Z.shiftr b 5) 1 =? 1).

Definition ACK (m : heap) (h : t) : option bool :=
  b ← index m (Raw h) 13; Some (Z.land (Z.shiftr b 4) 1 =? 1).

Definition PSH (m : heap) (h : t) : option bool :=
  b ← index m (Raw h) 13; Some (Z.land (Z.shiftr b 3) 1 =? 1).

Definition RST (m : heap) (h : t) : option bool :=
  b ← index m (Raw h) 13; Some (Z.land (Z.shiftr b 2) 1 =? 1).

Definition SYN (m : heap) (h : t) : option bool :=
  b ← index m (Raw h) 13; Some (Z.land (Z.shiftr b 1) 1 =? 1).

Definition FIN (m : heap) (h : t) : option bool :=
  b ← index m (Raw h) 13; Some (Z.land b 1 =? 1).

Definition Window (m : heap) (h : t) : option Z :=
  b ← reslice (Raw h) 14 16; Uint16 m b.

Definition Checksum (m : heap) (h : t) : option Z :=
  b ← reslice (Raw h) 16 18; Uint16 m b.

Definition UrgPtr (m : heap) (h : t) : option Z :=
  b ← reslice (Raw h) 18 20; Uint16 m b.

(** [Options]: nil unless the header is longer than its fixed part. *)
Definition Options (m : heap) (h : t) : option slice :=
  hdrLen ← HeaderLen m h;
  if hdrLen <=? TCPHeaderLen then Some Mem.nil
  else reslice (Raw h) TCPHeaderLen hdrLen.

(** The setters of tcp.go, as one call with its argument. *)
Inductive setter :=
| SetSrcPort_ (port : Z)
| SetDstPort_ (port : Z)
| SetSeqNum_ (seqNum : Z)
| SetAckNum_ (ackNum : Z)
| SetPayload_ (val : slice).

(** The bytes of the header a setter writes, first and past-the-last;
    [SetPayload] writes behind the header instead. *)
Definition field (f : setter) : option (Z * Z) :=
  match f with
  | SetSrcPort_ _ => Some (0, 2)
  | SetDstPort_ _ => Some (2, 4)
  | SetSeqNum_ _ => Some (4, 8)
  | SetAckNum_ _ => Some (8, 12)
  | SetPayload_ _ => None
  end.

Definition call (growcap : Z -> Z -> Z) (f : setter) (m : heap) (h : t)
  : option (heap * t) :=
  match f with
  | SetSrcPort_ port => fst <$> SetSrcPort m h port
  | SetDstPort_ port => fst <$> SetDstPort m h port
  | SetSeqNum_ seqNum => fst <$> SetSeqNum m h seqNum
  | SetAckNum_ ackNum => fst <$> SetAckNum m h ackNum
  | SetPayload_ val => SetPayload growcap m h val
  end.

End TCPHeader.

Definition NewTCPHeader (m : heap) (raw : slice) : option TCPHeader.t :=
  hdrLen ← TCPHeader.hdrLen_of m raw;
  payload ← from raw hdrLen;
  Some (TCPHeader.mk raw false payload).

(** *** Header views whose source is missing

    Modelled from the spec: the IPv4, IPv6, UDP, ICMPv4 and ICMPv6 views
    (header/ipv4.go and its siblings are missing).  The spec gives every
    view the byte sub-slice it occupies and a [Modified] flag that is
    false after construction, raised by every setter and consulted
    before injection. *)
Module View.
Record t := mk { Raw : slice; Modified : bool }.

#[global] Instance eq_dec : EqDecision t.
Proof. solve_decision. Defined.
Definition NeedNewChecksum (h : t) : bool := Modified h.
End View.

(** Modelled from the spec: the IPv4 constructor takes the header length
    from the low nibble of byte 0; the IPv6 header is 40 bytes; a UDP or
    ICMP view is the fixed-length slice it is given. *)
Definition NewIPv4Header (m : heap) (raw : slice) : option View.t :=
  b ← index m raw 0;
  r ← upto raw (uint8 (Z.shiftl (Z.land b 15) 2));
  Some (View.mk r false).

Definition NewIPv6Header (raw : slice) : option View.t :=
  r ← upto raw 40; Some (View.mk r false).

Definition NewUDPHeader (raw : slice) : View.t := View.mk raw false.
Definition NewICMPv4Header (raw : slice) : View.t := View.mk raw false.
Definition NewICMPv6Header (raw : slice) : View.t := View.mk raw false.

(** Modelled from the spec: IPv4Header.TotalLen and SetTotalLen are
    missing; the total length is the big-endian 16-bit field at bytes 2-3
    and a setter writes at the documented offset and raises [Modified]. *)
Module IPv4Header.
Definition TotalLen (m : heap) (h : View.t) : option Z :=
  b ← reslice (View.Raw h) 2 4; Uint16 m b.

Definition SetTotalLen (m : heap) (h : View.t) (totalLen : Z) : option (heap * View.t) :=
  let h := View.mk (View.Raw h) true in
  m ← store m (View.Raw h) 2 (uint8 (Z.shiftr totalLen 8));
  m ← store m (View.Raw h) 3 (uint8 (Z.land totalLen 255));
  Some (m, h).
End IPv4Header.

(** The two interfaces, as the closed sums of their implementations. *)
Inductive IPHeader :=
| IPv4Header_ (h : View.t)
| IPv6Header_ (h : View.t).

Inductive ProtocolHeader :=
| TCPHeader_ (h : TCPHeader.t)
| UDPHeader_ (h : View.t)
| ICMPv4Header_ (h : View.t)
| ICMPv6Header_ (h : View.t).

#[global] Instance IPHeader_eq_dec : EqDecision IPHeader.
Proof. solve_decision. Defined.

#[global] Instance ProtocolHeader_eq_dec : EqDecision ProtocolHeader.
Proof. solve_decision. Defined.

Definition IPHeader_NeedNewChecksum (h : IPHeader) : bool :=
  match h with IPv4Header_ v | IPv6Header_ v => View.NeedNewChecksum v end.

Definition ProtocolHeader_NeedNewChecksum (h : ProtocolHeader) : bool :=
  match h with
  | TCPHeader_ t => TCPHeader.NeedNewChecksum t
  | UDPHeader_ v | ICMPv4Header_ v | ICMPv6Header_ v => View.NeedNewChecksum v
  end.

End header.

(** ** Package [godivert] *)

Module godivert.
Import Mem header.

(** const.go *)
Definition PacketBufferSize : Z := 65575.
Definition PacketChanCapacity : Z := 256.
#[global] Arguments PacketBufferSize : simpl never.

(** Go's [error] values, by the expression that builds them. *)
Inductive error :=
| errorString (s : string)            (* errors.New(s) *)
| Errorf (format : string) (arg : Z)  (* fmt.Errorf(format, arg) *)
| Errno (e : Z)                       (* the syscall.Errno of LazyProc.Call *)
| headerError (msg : string).         (* returned by a header view *)

#[global] Instance error_eq_dec : EqDecision error.
Proof. solve_decision. Defined.

(** The spec's [ProtocolNotSupported]: the error packet.go builds with
    [fmt.Errorf] when the packet has no transport view. *)
Definition ProtocolNotSupported (e : option error) : Prop :=
  exists format protocolID, e = Some (Errorf format protocolID).

(** The kinds of transport view whose methods are missing. *)
Inductive viewKind := kUDP | kICMPv4 | kICMPv6.

(** What the package relies on and has no source for here: the growth
    policy of the Go runtime's [append], the fixed header lengths of
    header/header.go, the address record of the driver, and the port and
    address methods of the views other than TCP. *)
Class Externals := {
  growcap : Z -> Z -> Z;
  ICMPv4HeaderLen : Z;
  UDPHeaderLen : Z;
  ICMPv6HeaderLen : Z;
  WinDivertAddress : Type;
  view_SrcPort : viewKind -> heap -> View.t -> option (Z * option string);
  view_DstPort : viewKind -> heap -> View.t -> option (Z * option string);
  view_SetSrcPort : viewKind -> heap -> View.t -> Z -> option (heap * View.t * option string);
  view_SetDstPort : viewKind -> heap -> View.t -> Z -> option (heap * View.t * option string);
  ip_SrcIP : bool -> heap -> View.t -> option (list Z);
  ip_DstIP : bool -> heap -> View.t -> option (list Z);
  ip_SetSrcIP : bool -> heap -> View.t -> slice -> option (heap * View.t);
  ip_SetDstIP : bool -> heap -> View.t -> slice -> option (heap * View.t)
}.

(** The process state the package works on: the arrays, the items held by
    the global [bufferPool], and the lines printed. *)
Record World := mkWorld { mem : heap; bufferPool : list slice; stdout : list error }.

#[global] Instance World_eq_dec : EqDecision World.
Proof. solve_decision. Defined.

(** *** bufferPool.go *)

(** The pool's [New]: [make([]byte, PacketBufferSize)]. *)
Definition bufferPool_New (w : World) : slice * World :=
  let '(m, b) := make (mem w) PacketBufferSize in
  (b, mkWorld m (bufferPool w) (stdout w)).

(** [sync.Pool.Get] hands out an arbitrary pooled item, or ignores the
    pool and calls [New]; [sel] is that choice, [Put] adds at the head. *)
Definition bufferPool_Get (sel : option nat) (w : World) : slice * World :=
  match sel with
  | Some i =>
      match bufferPool w !! i with
      | Some b => (b, mkWorld (mem w) (delete i (bufferPool w)) (stdout w))
      | None => bufferPool_New w
      end
  | None => bufferPool_New w
  end.

Definition bufferPool_Put (w : World) (b : slice) : World :=
  mkWorld (mem w) (b :: bufferPool w) (stdout w).

Definition GetBuffer (sel : option nat) (w : World) : slice * World :=
  bufferPool_Get sel w.

(** The loop [for i := 0; i < length; i++ { buffer[i] = 0 }], entered at
    [i] with [n] iterations to go. *)
Fixpoint zero_loop (m : heap) (buffer : slice) (i : Z) (n : nat) : option heap :=
  match n with
  | O => Some m
  | S n => m ← store m buffer i 0; zero_loop m buffer (i + 1) n
  end.

Definition ReturnBuffer (w : World) (buffer : slice) (length : Z) : option World :=
  if len buffer =? PacketBufferSize then
    m ← zero_loop (mem w) buffer 0 (Z.to_nat length);
    Some (bufferPool_Put (mkWorld m (bufferPool w) (stdout w)) buffer)
  else Some w.

(** Every pooled buffer has the pool's size and lies in the store; this
    holds of the empty pool and is kept by [GetBuffer] and
    [ReturnBuffer]. *)
Definition pool_ok (w : World) : Prop :=
  Forall (fun b => len b = PacketBufferSize /\ valid (mem w) b) (bufferPool w).

(** *** packet.go *)

Section WithExternals.
Context {E : Externals}.

Record Packet := mkPacket {
  Raw : slice;
  Addr : option WinDivertAddress;
  PacketLen : Z;
  IpHdr : option IPHeader;
  NextHeader : option ProtocolHeader;
  ipVersion : Z;
  hdrLen : Z;
  nextHeaderType : Z;
  parsed : bool;
  Buffer : slice
}.

#[global] Instance Packet_eq_dec `{EqDecision WinDivertAddress} : EqDecision Packet.
Proof. solve_decision. Defined.

(** Modelled from the spec: [getBuffer] is called by
    [WinDivertHandle_Send] and missing; it hands out the
    pooled buffer the packet was received into, kept in [Buffer]. *)
Definition getBuffer (p : Packet) : slice := Buffer p.

Definition with_PacketLen (p : Packet) (n : Z) : Packet :=
  mkPacket (Raw p) (Addr p) n (IpHdr p) (NextHeader p) (ipVersion p)
           (hdrLen p) (nextHeaderType p) (parsed p) (Buffer p).

Definition with_IpHdr (p : Packet) (ih : IPHeader) : Packet :=
  mkPacket (Raw p) (Addr p) (PacketLen p) (Some ih) (NextHeader p) (ipVersion p)
           (hdrLen p) (nextHeaderType p) (parsed p) (Buffer p).

Definition with_NextHeader (p : Packet) (nh : ProtocolHeader) : Packet :=
  mkPacket (Raw p) (Addr p) (PacketLen p) (IpHdr p) (Some nh) (ipVersion p)
           (hdrLen p) (nextHeaderType p) (parsed p) (Buffer p).

Definition with_Raw (p : Packet) (raw : slice) : Packet :=
  mkPacket raw (Addr p) (PacketLen p) (IpHdr p) (NextHeader p) (ipVersion p)
           (hdrLen p) (nextHeaderType p) (parsed p) (Buffer p).

(** The first half of [ParseHeaders]: version, header length, next
    header type and the IP view. *)
Definition parse_ip (m : heap) (raw : slice) : option (Z * Z * Z * IPHeader) :=
  b0 ← index m raw 0;
  let ipVersion := Z.shiftr b0 4 in
  if ipVersion =? 4 then
    b9 ← index m raw 9;
    ih ← NewIPv4Header m raw;
    Some (ipVersion, uint8 (Z.shiftl (Z.land b0 15) 2), b9, IPv4Header_ ih)
  else
    b6 ← index m raw 6;
    ih ← NewIPv6Header raw;
    Some (ipVersion, 40, b6, IPv6Header_ ih).

(** The [switch p.nextHeaderType]. *)
Definition parse_next (m : heap) (raw : slice) (hdrLen nextHeaderType : Z)
  : option (option ProtocolHeader) :=
  if nextHeaderType =? ICMPv4 then
    s ← reslice raw hdrLen (hdrLen + ICMPv4HeaderLen);
    Some (Some (ICMPv4Header_ (NewICMPv4Header s)))
  else if nextHeaderType =? TCP then
    s ← from raw hdrLen;
    t ← NewTCPHeader m s;
    Some (Some (TCPHeader_ t))
  else if nextHeaderType =? UDP then
    s ← reslice raw hdrLen (hdrLen + UDPHeaderLen);
    Some (Some (UDPHeader_ (NewUDPHeader s)))
  else if nextHeaderType =? ICMPv6 then
    s ← reslice raw hdrLen (hdrLen + ICMPv6HeaderLen);
    Some (Some (ICMPv6Header_ (NewICMPv6Header s)))
  else Some None.

Definition ParseHeaders (m : heap) (p : Packet) : option Packet :=
  '(ipVersion, hdrLen, nextHeaderType, ih) ← parse_ip m (Raw p);
  nh ← parse_next m (Raw p) hdrLen nextHeaderType;
  Some (mkPacket (Raw p) (Addr p) (PacketLen p) (Some ih) nh ipVersion
                 hdrLen nextHeaderType true (Buffer p)).

(** [p.NextHeader.(header.ProtocolHeader)] panics on a nil interface,
    and so does [p.IpHdr.(header.IPHeader)]. *)
Definition UpdateTCPHeader (m : heap) (p : Packet) : option (heap * Packet) :=
  nh ← NextHeader p;
  match nh with
  | TCPHeader_ tcpHeader =>
      let val := TCPHeader.Raw tcpHeader in
      let hdrLen := hdrLen p in
      tail ← from (Raw p) hdrLen;
      if len val =? len tail then
        Some (fst (copy m tail val), p)
      else
        pre ← upto (Raw p) hdrLen;
        let '(m, raw) := append growcap m pre val in
        let p := with_Raw p raw in
        ih ← IpHdr p;
        '(m, p) ← match ih with
                  | IPv4Header_ iPv4Header =>
                      let totalLength := uint16 (len (Raw p)) in
                      '(m, v) ← IPv4Header.SetTotalLen m iPv4Header totalLength;
                      Some (m, with_IpHdr p (IPv4Header_ v))
                  | IPv6Header_ _ => Some (m, p)
                  end;
        Some (m, with_PacketLen p (len (Raw p)))
  | _ => Some (m, p)
  end.


Definition VerifyParsed (m : heap) (p : Packet) : option Packet :=
  if negb (parsed p) then ParseHeaders m p else Some p.

Definition NextHeaderType (m : heap) (p : Packet) : option (Packet * Z) :=
  p ← VerifyParsed m p; Some (p, nextHeaderType p).



Definition SetSrcIP (m : heap) (p : Packet) (ip : slice) : option (heap * Packet) :=
  p ← VerifyParsed m p;
  ih ← IpHdr p;
  match ih with
  | IPv4Header_ v => '(m, v) ← ip_SetSrcIP true m v ip; Some (m, with_IpHdr p (IPv4Header_ v))
  | IPv6Header_ v => '(m, v) ← ip_SetSrcIP false m v ip; Some (m, with_IpHdr p (IPv6Header_ v))
  end.

Definition SetDstIP (m : heap) (p : Packet) (ip : slice) : option (heap * Packet) :=
  p ← VerifyParsed m p;
  ih ← IpHdr p;
  match ih with
  | IPv4Header_ v => '(m, v) ← ip_SetDstIP true m v ip; Some (m, with_IpHdr p (IPv4Header_ v))
  | IPv6Header_ v => '(m, v) ← ip_SetDstIP false m v ip; Some (m, with_IpHdr p (IPv6Header_ v))
  end.

(** The [ProtocolHeader] interface methods, dispatched on the view. *)
Definition lift_err (r : Z * option string) : Z * option error :=
  (r.1, headerError <$> r.2).

Definition ProtocolHeader_SrcPort (m : heap) (nh : ProtocolHeader) : option (Z * option error) :=
  lift_err <$> match nh with
               | TCPHeader_ t => TCPHeader.SrcPort m t
               | UDPHeader_ v => view_SrcPort kUDP m v
               | ICMPv4Header_ v => view_SrcPort kICMPv4 m v
               | ICMPv6Header_ v => view_SrcPort kICMPv6 m v
               end.

Definition ProtocolHeader_DstPort (m : heap) (nh : ProtocolHeader) : option (Z * option error) :=
  lift_err <$> match nh with
               | TCPHeader_ t => TCPHeader.DstPort m t
               | UDPHeader_ v => view_DstPort kUDP m v
               | ICMPv4Header_ v => view_DstPort kICMPv4 m v
               | ICMPv6Header_ v => view_DstPort kICMPv6 m v
               end.

Definition lift_set {A} (c : A -> ProtocolHeader) (r : heap * A * option string)
  : heap * ProtocolHeader * option error :=
  (r.1.1, c r.1.2, headerError <$> r.2).

Definition ProtocolHeader_SetSrcPort (m : heap) (nh : ProtocolHeader) (port : Z)
  : option (heap * ProtocolHeader * option error) :=
  match nh with
  | TCPHeader_ t => lift_set TCPHeader_ <$> TCPHeader.SetSrcPort m t port
  | UDPHeader_ v => lift_set UDPHeader_ <$> view_SetSrcPort kUDP m v port
  | ICMPv4Header_ v => lift_set ICMPv4Header_ <$> view_SetSrcPort kICMPv4 m v port
  | ICMPv6Header_ v => lift_set ICMPv6Header_ <$> view_SetSrcPort kICMPv6 m v port
  end.

Definition ProtocolHeader_SetDstPort (m : heap) (nh : ProtocolHeader) (port : Z)
  : option (heap * ProtocolHeader * option error) :=
  match nh with
  | TCPHeader_ t => lift_set TCPHeader_ <$> TCPHeader.SetDstPort m t port
  | UDPHeader_ v => lift_set UDPHeader_ <$> view_SetDstPort kUDP m v port
  | ICMPv4Header_ v => lift_set ICMPv4Header_ <$> view_SetDstPort kICMPv4 m v port
  | ICMPv6Header_ v => lift_set ICMPv6Header_ <$> view_SetDstPort kICMPv6 m v port
  end.

Definition SrcPort (m : heap) (p : Packet) : option (Packet * (Z * option error)) :=
  p ← VerifyParsed m p;
  match NextHeader p with
  | None =>
      Some (p, (0, Some (Errorf "cannot get source port on protocolID=%d, protocol not implemented"
                                (nextHeaderType p))))
  | Some nh => r ← ProtocolHeader_SrcPort m nh; Some (p, r)
  end.

Definition SetSrcPort (m : heap) (p : Packet) (port : Z) : option (heap * Packet * option error) :=
  p ← VerifyParsed m p;
  match NextHeader p with
  | None =>
      Some (m, p, Some (Errorf "cannot change source port on protocolID=%d, protocol not implemented"
                               (nextHeaderType p)))
  | Some nh =>
      '(m, nh, e) ← ProtocolHeader_SetSrcPort m nh port;
      Some (m, with_NextHeader p nh, e)
  end.

Definition DstPort (m : heap) (p : Packet) : option (Packet * (Z * option error)) :=
  p ← VerifyParsed m p;
  match NextHeader p with
  | None =>
      Some (p, (0, Some (Errorf "cannot change get port on protocolID=%d, protocol not implemented"
                                (nextHeaderType p))))
  | Some nh => r ← ProtocolHeader_DstPort m nh; Some (p, r)
  end.

Definition SetDstPort (m : heap) (p : Packet) (port : Z) : option (heap * Packet * option error) :=
  p ← VerifyParsed m p;
  match NextHeader p with
  | None =>
      Some (m, p, Some (Errorf "cannot change destination port on protocolID=%d, protocol not implemented"
                               (nextHeaderType p)))
  | Some nh =>
      '(m, nh, e) ← ProtocolHeader_SetDstPort m nh port;
      Some (m, with_NextHeader p nh, e)
  end.



(** *** windivert.go *)

(** What a [LazyProc.Call] into the driver hands back: [r1] and the
    [Errno] of the call, and what the driver left in the memory it was
    given pointers to. *)
Record Call := mkCall { r1 : Z; lastErr : Z }.

Record RecvCall := mkRecvCall {
  recv_ret : Call;
  recv_written : list Z;       (* into the packet buffer *)
  recv_packetLen : Z;          (* into [packetLen] *)
  recv_addr : WinDivertAddress (* into [addr] *)
}.

Record SendCall := mkSendCall { send_ret : Call; send_sendLen : Z }.

(** The checksum routine rewrites bytes of the packet in place.  It is
    given [PacketLen] by value; the model also lets it leave any value
    in [packet.PacketLen], the case the function guards
    against. *)
Record CalcCall := mkCalcCall {
  calc_ret : Call;
  calc_written : list Z;
  calc_packetLen : Z
}.

(** [int(x)] for [x : uint], 64 bits wide. *)
Definition int_of_uint (x : Z) : Z :=
  if x mod 2 ^ 64 <? 2 ^ 63 then x mod 2 ^ 64 else x mod 2 ^ 64 - 2 ^ 64.

Record WinDivertHandle := mkHandle { handle : Z; open : bool }.

Definition WinDivertHandle_Close (r : Call) (wd : WinDivertHandle)
  : WinDivertHandle * error :=
  (mkHandle (handle wd) false, Errno (lastErr r)).

Definition WinDivertHandle_Recv (sel : option nat) (r : RecvCall) (w : World)
           (wd : WinDivertHandle)
  : option (World * (option Packet * option error)) :=
  if negb (open wd) then
    Some (w, (None, Some (errorString "can't receive, the handle isn't open")))
  else
    let '(packetBuffer, w) := GetBuffer sel w in
    _ ← index (mem w) packetBuffer 0;
    let m := write (mem w) packetBuffer
                   (take (Z.to_nat PacketBufferSize) (recv_written r)) in
    let w := mkWorld m (bufferPool w) (stdout w) in
    let packetLen := recv_packetLen r in
    if r1 (recv_ret r) =? 0 then
      Some (w, (None, Some (Errno (lastErr (recv_ret r)))))
    else
      raw ← upto packetBuffer packetLen;
      Some (w, (Some (mkPacket raw (Some (recv_addr r)) packetLen None None
                               0 0 0 false packetBuffer), None)).

Definition WinDivertHandle_Send (r : SendCall) (w : World) (wd : WinDivertHandle)
           (packet : Packet)
  : option (World * (Z * option error)) :=
  if negb (open wd) then
    Some (w, (0, Some (errorString "can't Send, the handle isn't open")))
  else
    _ ← index (mem w) (Raw packet) 0;
    w ← ReturnBuffer w (getBuffer packet) (int_of_uint (PacketLen packet));
    if r1 (send_ret r) =? 0 then
      Some (w, (0, Some (Errno (lastErr (send_ret r)))))
    else
      Some (w, (send_sendLen r, None)).

Definition WinDivertHandle_HelperCalcChecksum (r : CalcCall) (m : heap) (packet : Packet)
  : option (heap * Packet * option error) :=
  let initialPacketLen := PacketLen packet in
  _ ← index m (Raw packet) 0;
  let m := write m (Raw packet)
                 (take (Z.to_nat (PacketLen packet)) (calc_written r)) in
  let packet := with_PacketLen packet (calc_packetLen r) in
  let packet :=
    if negb (initialPacketLen =? PacketLen packet)
    then with_PacketLen packet initialPacketLen
    else packet in
  if r1 (calc_ret r) =? 0 then
    Some (m, packet, Some (Errno (lastErr (calc_ret r))))
  else
    Some (m, packet, None).

(** [Packet.Send]; [needs_checksum] is the condition of its [if].  A
    failed checksum call is printed, then the packet is handed to
    [WinDivertHandle_Send] all the same. *)
Definition needs_checksum (p : Packet) : option bool :=
  if parsed p then
    ih ← IpHdr p;
    Some (IPHeader_NeedNewChecksum ih
          || match NextHeader p with
             | Some nh => ProtocolHeader_NeedNewChecksum nh
             | None => false
             end)
  else Some false.

Definition Packet_Send (rc : CalcCall) (rs : SendCall) (w : World)
           (wd : WinDivertHandle) (p : Packet)
  : option (World * Packet * (Z * option error)) :=
  need ← needs_checksum p;
  '(w, p) ← (if need : bool then
               '(m, p, err) ← WinDivertHandle_HelperCalcChecksum rc (mem w) p;
               let out := match err with
                          | Some e => stdout w ++ [e]
                          | None => stdout w
                          end in
               Some (mkWorld m (bufferPool w) out, p)
             else Some (w, p));
  r ← WinDivertHandle_Send rs w wd p;
  Some (r.1, p, r.2).

Definition CalcNewChecksum (rc : CalcCall) (m : heap) (p : Packet) : option (heap * Packet) :=
  r ← WinDivertHandle_HelperCalcChecksum rc m p; Some r.1.

(** [recvLoop], one goroutine's view of it.  The loop reads [wd.open]
    twice a turn, in its own test and inside [Recv]; another goroutine's
    [Close] may have cleared the field before either read.  A turn gives
    the two values read, the pool's choice and the driver's reply.  The
    result is the world, the packets sent on [packetChan] so far, in
    order, and whether the loop has ended; when the turns run out the
    loop is waiting in the driver. *)
Record Turn := mkTurn {
  open_at_test : bool;
  open_at_Recv : bool;
  turn_sel : option nat;
  turn_recv : RecvCall
}.

Fixpoint recvLoop (turns : list Turn) (w : World) (wd : WinDivertHandle)
         (packetChan : list (option Packet))
  : option (World * list (option Packet) * bool) :=
  match turns with
  | [] => Some (w, packetChan, false)
  | t :: turns =>
      if open_at_test t then
        r ← WinDivertHandle_Recv (turn_sel t) (turn_recv t) w
              (mkHandle (handle wd) (open_at_Recv t));
        match r.2.2 with
        | Some err =>
            Some (mkWorld (mem r.1) (bufferPool r.1) (stdout r.1 ++ [err]),
                  packetChan, true)
        | None => recvLoop turns r.1 wd (packetChan ++ [r.2.1])
        end
      else Some (w, packetChan, true)
  end.

(** [Packets]: refuses a closed handle, else starts the loop on an empty
    channel. *)
Definition Packets (turns : list Turn) (w : World) (wd : WinDivertHandle)
  : option (World * list (option Packet) * bool) * option error :=
  if negb (open wd) then (None, Some (errorString "the handle isn't open"))
  else (recvLoop turns w wd [], None).

(** A turn that puts a packet on the channel: the loop's test and
    [Recv] both find the handle open and the driver call succeeds. *)
Definition turn_delivers (t : Turn) : bool :=
  open_at_test t && open_at_Recv t && negb (r1 (recv_ret (turn_recv t)) =? 0).

(** What the loop sends on the channel in a delivering turn. *)
Definition published (t : Turn) (x : option Packet) : Prop :=
  exists p, x = Some p /\
    PacketLen p = recv_packetLen (turn_recv t) /\
    len (Raw p) = PacketLen p /\
    Addr p = Some (recv_addr (turn_recv t)) /\
    parsed p = false /\
    len (Buffer p) = PacketBufferSize.

(** *** Callers

    The public operations that change a packet, as one call with its
    arguments.  A TCP setter is called on the view the packet points
    to, which the caller reaches by a type assertion on [NextHeader]. *)
Inductive mutation :=
| ParseHeaders_
| SetSrcIP_ (ip : slice)
| SetDstIP_ (ip : slice)
| SetSrcPort_ (port : Z)
| SetDstPort_ (port : Z)
| OnTCPHeader (f : TCPHeader.setter)
| UpdateTCPHeader_
| CalcNewChecksum_ (rc : CalcCall).

Definition on_TCPHeader (f : TCPHeader.setter) (m : heap) (p : Packet)
  : option (heap * Packet) :=
  nh ← NextHeader p;
  match nh with
  | TCPHeader_ t =>
      '(m, t) ← TCPHeader.call growcap f m t;
      Some (m, with_NextHeader p (TCPHeader_ t))
  | _ => None
  end.

Definition mutate (mu : mutation) (m : heap) (p : Packet) : option (heap * Packet) :=
  match mu with
  | ParseHeaders_ => p ← ParseHeaders m p; Some (m, p)
  | SetSrcIP_ ip => SetSrcIP m p ip
  | SetDstIP_ ip => SetDstIP m p ip
  | SetSrcPort_ port => fst <$> SetSrcPort m p port
  | SetDstPort_ port => fst <$> SetDstPort m p port
  | OnTCPHeader f => on_TCPHeader f m p
  | UpdateTCPHeader_ => UpdateTCPHeader m p
  | CalcNewChecksum_ rc => CalcNewChecksum rc m p
  end.

Fixpoint mutate_all (mus : list mutation) (m : heap) (p : Packet)
  : option (heap * Packet) :=
  match mus with
  | [] => Some (m, p)
  | mu :: mus => '(m, p) ← mutate mu m p; mutate_all mus m p
  end.

(** A payload replacement: [SetPayload] on the TCP view, then
    [UpdateTCPHeader]. *)
Definition replace_payload (val : slice) (m : heap) (p : Packet)
  : option (heap * Packet) :=
  mutate_all [OnTCPHeader (TCPHeader.SetPayload_ val); UpdateTCPHeader_] m p.

(** A step either leaves [Raw] and [PacketLen] alone or sets
    [PacketLen] to the length of the new [Raw]. *)
Definition keeps_or_syncs (p p' : Packet) : Prop :=
  (Raw p' = Raw p /\ PacketLen p' = PacketLen p) \/ PacketLen p' = len (Raw p').

(** The IPv4 view lies over the first [hdrLen] bytes of [Raw], as
    [ParseHeaders] builds it. *)
Definition view_over_Raw (p : Packet) : Prop :=
  forall v, IpHdr p = Some (IPv4Header_ v) ->
    View.Raw v = Slice (ptr (Raw p)) (off (Raw p)) (hdrLen p) (cap (Raw p)).

(** The total-length field of the packet's IPv4 view. *)
Definition ipv4_TotalLen (m : heap) (p : Packet) : option Z :=
  ih ← IpHdr p;
  match ih with
  | IPv4Header_ v => IPv4Header.TotalLen m v
  | IPv6Header_ _ => None
  end.

End WithExternals.

End godivert.

(** ** Sample packets *)

Module Examples.
Import Mem header godivert.

(** An instance without a driver: 8-byte UDP and ICMP headers, ports of a
    UDP view at bytes 0-1 and 2-3, no ports on an ICMP view, and address
    setters that only raise [Modified]. *)
Definition no_port : string := "no port".

Definition externals : Externals := {|
  growcap := fun old needed => 2 * old;
  ICMPv4HeaderLen := 8;
  UDPHeaderLen := 8;
  ICMPv6HeaderLen := 8;
  WinDivertAddress := bool;
  view_SrcPort := fun k m v =>
    match k with
    | kUDP => b ← reslice (View.Raw v) 0 2; x ← Uint16 m b; Some (x, None)
    | _ => Some (0, Some no_port)
    end;
  view_DstPort := fun k m v =>
    match k with
    | kUDP => b ← reslice (View.Raw v) 2 4; x ← Uint16 m b; Some (x, None)
    | _ => Some (0, Some no_port)
    end;
  view_SetSrcPort := fun k m v port => Some (m, v, Some no_port);
  view_SetDstPort := fun k m v port => Some (m, v, Some no_port);
  ip_SrcIP := fun v4 m v => Some (bytes m (View.Raw v));
  ip_DstIP := fun v4 m v => Some (bytes m (View.Raw v));
  ip_SetSrcIP := fun v4 m v ip => Some (m, View.mk (View.Raw v) true);
  ip_SetDstIP := fun v4 m v ip => Some (m, View.mk (View.Raw v) true)
|}.

(** IPv4 (IHL 5, total length 40, protocol 6) + TCP (ports 1234 -> 80,
    data offset 5, SYN), no payload. *)
Definition ip4tcp : list Z :=
  [69; 0; 0; 40; 0; 0; 0; 0; 64; 6; 0; 0; 10; 0; 0; 1; 10; 0; 0; 2;
   4; 210; 0; 80; 0; 0; 0; 1; 0; 0; 0; 0; 80; 2; 0; 0; 0; 0; 0; 0].

(** The same IP header with the unassigned protocol 200 in byte 9. *)
Definition ip4_proto200 : list Z :=
  [69; 0; 0; 20; 0; 0; 0; 0; 64; 200; 0; 0; 10; 0; 0; 1; 10; 0; 0; 2].

(** Forty bytes whose first has high nibble 5 and whose byte 6 is 200. *)
Definition version5 : list Z :=
  [80; 0; 0; 0; 0; 0; 200; 0] ++ replicate 32 0.

(** A store with a five-byte array and one sample in a 64-byte array. *)
Definition store_of (sample : list Z) : heap :=
  [[1; 2; 3; 4; 5]; sample ++ replicate (64 - length sample) 0].

Definition five : slice := Slice 0 0 5 5.

Definition unparsed (n : Z) : Packet (E := externals) :=
  mkPacket (Slice 1 0 n 64) None n None None 0 0 0 false Mem.nil.

Definition tcp_slice : slice := Slice 1 20 20 44.

Definition tcp_view : TCPHeader.t :=
  TCPHeader.mk tcp_slice false (Slice 1 40 0 24).

Definition ip4_view : View.t := View.mk (Slice 1 0 20 64) false.

Definition parsed_ip4tcp : Packet (E := externals) :=
  mkPacket (Slice 1 0 40 64) None 40 (Some (IPv4Header_ ip4_view))
           (Some (TCPHeader_ tcp_view)) 4 20 6 true Mem.nil.

Definition parsed_proto200 : Packet (E := externals) :=
  mkPacket (Slice 1 0 20 64) None 20 (Some (IPv4Header_ ip4_view))
           None 4 20 200 true Mem.nil.

Definition parsed_version5 : Packet (E := externals) :=
  mkPacket (Slice 1 0 40 64) None 40
           (Some (IPv6Header_ (View.mk (Slice 1 0 40 64) false)))
           None 5 40 200 true Mem.nil.

(** A session: the pool is empty, the driver delivers [ip4tcp]. *)
Definition world0 : World := mkWorld [[1; 2; 3; 4; 5]] [] [].
Definition opened : WinDivertHandle := mkHandle 1 true.
Definition delivers : RecvCall (E := externals) :=
  mkRecvCall (E := externals) (mkCall 1 0) ip4tcp 40 true.

Definition buffer : slice := Slice 1 0 PacketBufferSize PacketBufferSize.

Definition received : Packet (E := externals) :=
  mkPacket (E := externals) (Slice 1 0 40 PacketBufferSize) (Some true) 40
           None None 0 0 0 false buffer.

Definition world1 : World :=
  mkWorld [[1; 2; 3; 4; 5]; ip4tcp ++ replicate (Z.to_nat PacketBufferSize - 40) 0] [] [].

(** The received packet, parsed, its source port rewritten. *)
Definition script : list mutation :=
  [ParseHeaders_; SetSrcPort_ 4321].

(** A checksum call that succeeds and leaves 99 in [PacketLen]. *)
Definition calc_resizes : CalcCall := mkCalcCall (mkCall 1 0) [] 99.

(** A longer run: every kind of mutation once. *)
Definition long_script : list mutation :=
  [SetDstPort_ 8080; SetSrcIP_ five; OnTCPHeader (TCPHeader.SetSeqNum_ 7);
   OnTCPHeader (TCPHeader.SetPayload_ five); UpdateTCPHeader_;
   CalcNewChecksum_ calc_resizes; ParseHeaders_; SetDstIP_ five;
   SetSrcPort_ 4321].

Definition rewritten : option (heap * Packet (E := externals)) :=
  mutate_all script (mem world1) received.

#[global] Instance address_eq_dec : EqDecision (WinDivertAddress (Externals := externals)) :=
  bool_eq_dec.

(** What [script] makes of the received packet: bytes 20-21 hold 4321 and
    the TCP view is modified. *)
Definition ip4tcp_4321 : list Z :=
  [69; 0; 0; 40; 0; 0; 0; 0; 64; 6; 0; 0; 10; 0; 0; 1; 10; 0; 0; 2;
   16; 225; 0; 80; 0; 0; 0; 1; 0; 0; 0; 0; 80; 2; 0; 0; 0; 0; 0; 0].

Definition world2 : World :=
  mkWorld [[1; 2; 3; 4; 5]; ip4tcp_4321 ++ replicate (Z.to_nat PacketBufferSize - 40) 0] [] [].

Definition sent : Packet (E := externals) :=
  mkPacket (E := externals) (Slice 1 0 40 PacketBufferSize) (Some true) 40
           (Some (IPv4Header_ (View.mk (Slice 1 0 20 PacketBufferSize) false)))
           (Some (TCPHeader_ (TCPHeader.mk (Slice 1 20 20 (PacketBufferSize - 20)) true
                                           (Slice 1 40 0 (PacketBufferSize - 40)))))
           4 20 6 true buffer.

(** Driver calls that fail and that succeed. *)
Definition calc_fails : CalcCall := mkCalcCall (mkCall 0 87) [] 40.
Definition send_fails : SendCall := mkSendCall (mkCall 0 1232) 0.
Definition send_succeeds : SendCall := mkSendCall (mkCall 1 0) 40.










(** A packet in a 40-byte buffer, after [SetPayload] with the five bytes
    of [five]: the TCP view was moved to a new array of capacity 40. *)
Definition tight_store : heap :=
  store_of ip4tcp ++ [drop 20 ip4tcp ++ [1; 2; 3; 4; 5] ++ replicate 15 0].

Definition tight_view : TCPHeader.t := TCPHeader.mk (Slice 2 0 25 40) true five.

Definition tight_parsed : Packet (E := externals) :=
  mkPacket (Slice 1 0 40 40) None 40
           (Some (IPv4Header_ (View.mk (Slice 1 0 20 40) false)))
           (Some (TCPHeader_ tight_view)) 4 20 6 true Mem.nil.

(** A driver call that fails, and a loop of two turns: one delivery, then
    a [Recv] that finds the handle closed. *)
Definition recv_fails : RecvCall (E := externals) :=
  mkRecvCall (E := externals) (mkCall 0 995) [] 0 true.

Definition two_turns : list (Turn (E := externals)) :=
  [mkTurn true true None delivers; mkTurn true false None delivers].

End Examples.

(** * Properties *)

(** ** Slices and the store *)

Section MemFacts.
Import Mem.

Lemma reslice_Some s lo hi s' :
  reslice s lo hi = Some s' ->
  0 <= lo <= hi /\ hi <= cap s /\
  s' = Slice (ptr s) (off s + lo) (hi - lo) (cap s - lo).
Proof.
  unfold reslice. intros H.
  destruct (0 <=? lo) eqn:H1, (lo <=? hi) eqn:H2, (hi <=? cap s) eqn:H3;
    simpl in H; try discriminate.
  injection H as <-. repeat split; lia.
Qed.

Lemma reslice_ok s lo hi :
  0 <= lo <= hi -> hi <= cap s ->
  reslice s lo hi = Some (Slice (ptr s) (off s + lo) (hi - lo) (cap s - lo)).
Proof.
  intros [H1 H2] H3. unfold reslice.
  apply Z.leb_le in H1, H2, H3. by rewrite H1, H2, H3.
Qed.

Lemma index_Some m s i b :
  index m s i = Some b -> 0 <= i < len s /\ array m s !! Z.to_nat (off s + i) = Some b.
Proof.
  unfold index. intros H.
  destruct (0 <=? i) eqn:H1, (i <? len s) eqn:H2; simpl in H; try discriminate.
  split; [lia | done].
Qed.

Lemma index_in_range m s i :
  0 <= i < len s -> index m s i = array m s !! Z.to_nat (off s + i).
Proof.
  intros [H1 H2]. unfold index.
  apply Z.leb_le in H1. apply Z.ltb_lt in H2. by rewrite H1, H2.
Qed.

Lemma store_Some m s i v m' :
  store m s i v = Some m' ->
  0 <= i < len s /\ m' = <[ptr s := <[Z.to_nat (off s + i) := v]> (array m s)]> m.
Proof.
  unfold store. intros H.
  destruct (0 <=? i) eqn:H1, (i <? len s) eqn:H2; simpl in H; try discriminate.
  injection H as <-. split; [lia | done].
Qed.

Lemma store_in_range m s i v :
  0 <= i < len s ->
  store m s i v = Some (<[ptr s := <[Z.to_nat (off s + i) := v]> (array m s)]> m).
Proof.
  intros [H1 H2]. unfold store.
  apply Z.leb_le in H1. apply Z.ltb_lt in H2. by rewrite H1, H2.
Qed.

(** The array found at an address after one array was replaced. *)
Lemma array_insert (m : heap) a l s :
  length l = length (default [] (m !! a)) ->
  array (<[a := l]> m) s = if decide (ptr s = a) then l else array m s.
Proof.
  intros Hl. unfold array. case_decide as Hp.
  - subst a. destruct (m !! ptr s) as [x|] eqn:Hx.
    + rewrite list_lookup_insert_eq; [done | by eapply lookup_lt_Some].
    + rewrite list_insert_ge by (by apply lookup_ge_None).
      rewrite Hx in *. simpl in *. by destruct l.
  - by rewrite list_lookup_insert_ne.
Qed.

Lemma grows_refl m : grows m m.
Proof. intros a. lia. Qed.

Lemma grows_trans m1 m2 m3 : grows m1 m2 -> grows m2 m3 -> grows m1 m3.
Proof. intros H1 H2 a. specialize (H1 a). specialize (H2 a). lia. Qed.

Lemma grows_insert (m : heap) a l :
  length l = length (default [] (m !! a)) -> grows m (<[a := l]> m).
Proof.
  intros Hl b.
  pose proof (array_insert m a l (Slice b 0 0 0) Hl) as H.
  unfold array in H. simpl in H. rewrite H. case_decide; [subst; lia | lia].
Qed.

Lemma grows_snoc (m : heap) l : grows m (m ++ [l]).
Proof.
  intros a. destruct (m !! a) as [x|] eqn:Hx.
  - by rewrite (lookup_app_l_Some _ _ _ _ Hx).
  - simpl. lia.
Qed.

Lemma valid_grows m m' s : grows m m' -> valid m s -> valid m' s.
Proof.
  intros Hg (H1 & H2 & H3). specialize (Hg (ptr s)).
  unfold valid, array in *. repeat split; lia.
Qed.

Lemma write_array_length m s data :
  length (take (Z.to_nat (off s)) (array m s)
          ++ take (length (array m s) - Z.to_nat (off s)) data
          ++ drop (Z.to_nat (off s)
                   + length (take (length (array m s) - Z.to_nat (off s)) data))
                  (array m s))
  = length (array m s).
Proof.
  rewrite !length_app, length_drop, !length_take. lia.
Qed.

Lemma grows_write m s data : grows m (write m s data).
Proof. unfold write. apply grows_insert. apply write_array_length. Qed.

Lemma grows_store m s i v m' : store m s i v = Some m' -> grows m m'.
Proof.
  intros [_ ->]%store_Some. apply grows_insert. by rewrite length_insert.
Qed.

Lemma grows_copy m dst src : grows m (copy m dst src).1.
Proof. apply grows_write. Qed.

Lemma grows_append g m s v : grows m (append g m s v).1.
Proof.
  unfold append. destruct (_ <=? _); simpl; [apply grows_write | apply grows_snoc].
Qed.

Lemma len_append g m s v : len (append g m s v).2 = len s + len v.
Proof. unfold append. by destruct (_ <=? _). Qed.

(** Reading back what was just stored. *)
Lemma valid_lookup m s i :
  valid m s -> 0 <= i < cap s -> (Z.to_nat (off s + i) < length (array m s))%nat.
Proof. intros (H1 & H2 & H3) Hi. lia. Qed.

Lemma index_store_eq m s i v m' :
  valid m s -> store m s i v = Some m' -> index m' s i = Some v.
Proof.
  intros Hv [Hi ->]%store_Some.
  rewrite index_in_range by done.
  rewrite array_insert by (by rewrite length_insert).
  rewrite decide_True by done.
  apply list_lookup_insert_eq. apply valid_lookup; [done | destruct Hv as (? & ? & ?); lia].
Qed.

Lemma index_store_ne m s i v m' j :
  store m s i v = Some m' -> 0 <= off s + i -> 0 <= off s + j -> i <> j ->
  index m' s j = index m s j.
Proof.
  intros [Hi ->]%store_Some Ho1 Ho2 Hne. unfold index.
  destruct (_ && _); [|done].
  rewrite array_insert by (by rewrite length_insert).
  rewrite decide_True by done.
  apply list_lookup_insert_ne. lia.
Qed.

(** A byte of a sub-slice is the byte of the slice it was cut from. *)
Lemma index_reslice m s lo hi s' i :
  reslice s lo hi = Some s' -> 0 <= i < hi - lo -> hi <= len s ->
  index m s' i = index m s (lo + i).
Proof.
  intros (H1 & H2 & ->)%reslice_Some Hi Hhi.
  rewrite !index_in_range by (simpl; lia). unfold array. simpl.
  f_equal. lia.
Qed.

End MemFacts.

(** ** TCP header views *)

Section TCPFacts.
Import Mem header.

Lemma lookup_below {A} (l : list A) (i j : nat) :
  (i <= j)%nat -> is_Some (l !! j) -> is_Some (l !! i).
Proof. intros Hij Hj. apply lookup_lt_is_Some in Hj. apply lookup_lt_is_Some. lia. Qed.

(** A slice whose byte 12 can be read has its first 12 bytes stored. *)
Lemma index_below m s i j b :
  index m s j = Some b -> 0 <= i <= j -> is_Some (index m s i).
Proof.
  intros [Hj Hb]%index_Some Hi. rewrite index_in_range by lia.
  apply (lookup_below _ _ (Z.to_nat (off s + j))); [lia | by eexists].
Qed.

Lemma NewTCPHeader_Some m raw h :
  NewTCPHeader m raw = Some h ->
  exists b hdrLen,
    index m raw 12 = Some b /\ hdrLen = uint8 (Z.shiftr b 4 * 4) /\
    0 <= hdrLen <= len raw /\
    h = TCPHeader.mk raw false
          (Slice (ptr raw) (off raw + hdrLen) (len raw - hdrLen) (cap raw - hdrLen)).
Proof.
  unfold NewTCPHeader, TCPHeader.hdrLen_of, from. intros H.
  destruct (index m raw 12) as [b|] eqn:Hb; simpl in H; [|discriminate].
  destruct (reslice raw _ _) as [s|] eqn:Hs; simpl in H; [|discriminate].
  injection H as <-. apply reslice_Some in Hs as (H1 & H2 & ->).
  exists b, (uint8 (Z.shiftr b 4 * 4)). repeat split; try done; lia.
Qed.

Lemma PutUint32_ok m b v :
  len b = 4 -> is_Some (index m b 3) -> is_Some (PutUint32 m b v).
Proof.
  intros Hl [x Hx]. unfold PutUint32. rewrite Hx. simpl.
  rewrite store_in_range by lia. simpl.
  rewrite store_in_range by lia. simpl.
  rewrite store_in_range by lia. simpl.
  rewrite store_in_range by lia. by eexists.
Qed.

Lemma setter_raises_Modified g f m h m' h' :
  TCPHeader.call g f m h = Some (m', h') -> TCPHeader.Modified h' = true.
Proof.
  destruct f; simpl; intros H.
  - unfold TCPHeader.SetSrcPort in H.
    repeat (destruct (store _ _ _ _); simpl in H; [|discriminate]).
    by injection H as _ <-.
  - unfold TCPHeader.SetDstPort in H.
    repeat (destruct (store _ _ _ _); simpl in H; [|discriminate]).
    by injection H as _ <-.
  - unfold TCPHeader.SetSeqNum in H.
    destruct (reslice _ _ _); simpl in H; [|discriminate].
    destruct (PutUint32 _ _ _); simpl in H; [|discriminate].
    by injection H as _ <-.
  - unfold TCPHeader.SetAckNum in H.
    destruct (reslice _ _ _); simpl in H; [|discriminate].
    destruct (PutUint32 _ _ _); simpl in H; [|discriminate].
    by injection H as _ <-.
  - unfold TCPHeader.SetPayload in H.
    destruct (TCPHeader.hdrLen_of _ _); simpl in H; [|discriminate].
    destruct (_ =? _).
    + destruct (from _ _); simpl in H; [|discriminate]. by injection H as _ <-.
    + destruct (upto _ _); simpl in H; [|discriminate].
      destruct (append _ _ _ _). by injection H as _ <-.
Qed.

(** Every setter returns on a view that was just built over a slice of
    the store. *)
Lemma setter_returns g f m raw h :
  valid m raw -> NewTCPHeader m raw = Some h -> is_Some (TCPHeader.call g f m h).
Proof.
  intros (Ho & Hl & Hc) (b & hdrLen & Hb & -> & Hh & ->)%NewTCPHeader_Some.
  pose proof (index_Some _ _ _ _ Hb) as [H12 _].
  destruct f; simpl.
  - unfold TCPHeader.SetSrcPort. simpl.
    rewrite store_in_range by lia. simpl. rewrite store_in_range by lia. by eexists.
  - unfold TCPHeader.SetDstPort. simpl.
    rewrite store_in_range by lia. simpl. rewrite store_in_range by lia. by eexists.
  - unfold TCPHeader.SetSeqNum. simpl.
    rewrite reslice_ok by lia. simpl.
    destruct (PutUint32_ok m (Slice (ptr raw) (off raw + 4) (8 - 4) (cap raw - 4)) seqNum)
      as [m' ->]; [done | | by eexists].
    rewrite (index_reslice m raw 4 8 _ 3) by (rewrite ?reslice_ok; (done || lia)).
    by apply (index_below m raw (4 + 3) 12 b).
  - unfold TCPHeader.SetAckNum. simpl.
    rewrite reslice_ok by lia. simpl.
    destruct (PutUint32_ok m (Slice (ptr raw) (off raw + 8) (12 - 8) (cap raw - 8)) ackNum)
      as [m' ->]; [done | | by eexists].
    rewrite (index_reslice m raw 8 12 _ 3) by (rewrite ?reslice_ok; (done || lia)).
    by apply (index_below m raw (8 + 3) 12 b).
  - unfold TCPHeader.SetPayload, TCPHeader.hdrLen_of, from, upto. simpl.
    rewrite Hb. simpl. destruct (_ =? _).
    + rewrite reslice_ok by lia. by eexists.
    + rewrite reslice_ok by lia. simpl. destruct (append _ _ _ _). by eexists.
Qed.

(** A freshly built TCP view has [Modified = false]; one call of any
    setter, with any argument, returns and leaves [Modified = true]. *)
Lemma fresh_TCPHeader_setters g m raw h :
  valid m raw ->
  NewTCPHeader m raw = Some h ->
  TCPHeader.Modified h = false /\
  forall f, exists m' h',
    TCPHeader.call g f m h = Some (m', h') /\ TCPHeader.Modified h' = true.
Proof.
  intros Hv Hn. split.
  - apply NewTCPHeader_Some in Hn as (? & ? & _ & _ & _ & ->). done.
  - intros f. destruct (setter_returns g f m raw h Hv Hn) as [[m' h'] H].
    exists m', h'. split; [done | by eapply setter_raises_Modified].
Qed.

End TCPFacts.

(** ** Parsing *)

Section ParseFacts.
Import Mem header godivert.
Context {E : Externals}.

Lemma parse_ip_Some m raw v hl nt ih :
  parse_ip m raw = Some (v, hl, nt, ih) ->
  exists b0,
    index m raw 0 = Some b0 /\ v = Z.shiftr b0 4 /\
    ((v = 4 /\ hl = uint8 (Z.shiftl (Z.land b0 15) 2) /\ index m raw 9 = Some nt /\
      exists view, NewIPv4Header m raw = Some view /\ ih = IPv4Header_ view)
     \/
     (v <> 4 /\ hl = 40 /\ index m raw 6 = Some nt /\
      exists view, NewIPv6Header raw = Some view /\ ih = IPv6Header_ view)).
Proof.
  unfold parse_ip. intros H.
  destruct (index m raw 0) as [b0|] eqn:Hb0; simpl in H; [|discriminate].
  exists b0. split; [done|].
  destruct (Z.shiftr b0 4 =? 4) eqn:Hv.
  - apply Z.eqb_eq in Hv.
    destruct (index m raw 9) as [b9|]; simpl in H; [|discriminate].
    destruct (NewIPv4Header m raw) as [view|]; simpl in H; [|discriminate].
    injection H as <- <- <- <-. split; [done|]. left. eauto 10.
  - apply Z.eqb_neq in Hv.
    destruct (index m raw 6) as [b6|]; simpl in H; [|discriminate].
    destruct (NewIPv6Header raw) as [view|]; simpl in H; [|discriminate].
    injection H as <- <- <- <-. split; [done|]. right. eauto 10.
Qed.

Lemma ParseHeaders_Some m p p' :
  ParseHeaders m p = Some p' ->
  exists v hl nt ih nh,
    parse_ip m (Raw p) = Some (v, hl, nt, ih) /\
    parse_next m (Raw p) hl nt = Some nh /\
    p' = mkPacket (Raw p) (Addr p) (PacketLen p) (Some ih) nh v hl nt true (Buffer p).
Proof.
  unfold ParseHeaders. intros H.
  destruct (parse_ip m (Raw p)) as [[[[v hl] nt] ih]|]; simpl in H; [|discriminate].
  destruct (parse_next m (Raw p) hl nt) as [nh|] eqn:Hn; simpl in H; [|discriminate].
  injection H as <-. eauto 10.
Qed.

Lemma parse_next_unrecognized m raw hl nt :
  ~ recognized nt -> parse_next m raw hl nt = Some None.
Proof.
  intros Hn. unfold parse_next.
  destruct (nt =? ICMPv4) eqn:H1; [apply Z.eqb_eq in H1; destruct Hn; by left|].
  destruct (nt =? TCP) eqn:H2; [apply Z.eqb_eq in H2; destruct Hn; by right; left|].
  destruct (nt =? UDP) eqn:H3; [apply Z.eqb_eq in H3; destruct Hn; by right; right; left|].
  destruct (nt =? ICMPv6) eqn:H4; [apply Z.eqb_eq in H4; destruct Hn; by right; right; right|].
  done.
Qed.

Lemma parse_next_absent m raw hl nt nh :
  parse_next m raw hl nt = Some nh -> (nh = None <-> ~ recognized nt).
Proof.
  intros H. split.
  - intros -> Hr. unfold parse_next in H.
    destruct Hr as [-> | [-> | [-> | ->]]]; simpl in H;
      repeat (match type of H with
              | context [reslice ?a ?b ?c] => destruct (reslice a b c); simpl in H
              | context [from ?a ?b] => destruct (from a b); simpl in H
              | context [NewTCPHeader ?a ?b] => destruct (NewTCPHeader a b); simpl in H
              end); discriminate.
  - intros Hn. rewrite parse_next_unrecognized in H by done. by injection H as <-.
Qed.


(** The IPv4 header length: the low nibble of byte 0 times 4, at most
    60, so that the [uint8] arithmetic never wraps. *)
Lemma ihl_times_4 b0 :
  uint8 (Z.shiftl (Z.land b0 15) 2) = Z.land b0 15 * 4 /\ 0 <= Z.land b0 15 * 4 <= 60.
Proof.
  assert (H : 0 <= Z.land b0 15 < 16).
  { change 15 with (Z.ones 4). rewrite Z.land_ones by lia.
    apply Z.mod_pos_bound. lia. }
  split; [|lia].
  unfold uint8. rewrite Z.shiftl_mul_pow2 by lia. change (2 ^ 2) with 4.
  apply Z.mod_small. lia.
Qed.

(** C10: with [b0] the first byte of [Raw], only the value 4 of
    [b0 >> 4] takes the IPv4 path: when byte 9 can be read, the slice has
    room for the header and the switch on the next header type returns,
    [ParseHeaders] returns with version 4, header length the low nibble
    of [b0] times 4, the protocol from byte 9 and an IPv4 view.  Every
    other value takes the IPv6 path: when byte 6 can be read, the slice
    has room for 40 bytes and the switch returns, [ParseHeaders] returns
    with that value as the version, header length 40, the next header
    type from byte 6 and an IPv6 view.  Whenever [ParseHeaders] returns,
    what it cached is what its path prescribes; on the IPv6 path it
    returns in particular when no transport view is to be built. *)
Theorem ParseHeaders_version_dispatch m p b0 :
  index m (Raw p) 0 = Some b0 ->
  (Z.shiftr b0 4 = 4 ->
   forall b9 nh,
     index m (Raw p) 9 = Some b9 ->
     Z.land b0 15 * 4 <= cap (Raw p) ->
     parse_next m (Raw p) (Z.land b0 15 * 4) b9 = Some nh ->
     exists p' view,
       ParseHeaders m p = Some p' /\
       ipVersion p' = 4 /\ hdrLen p' = Z.land b0 15 * 4 /\ nextHeaderType p' = b9 /\
       IpHdr p' = Some (IPv4Header_ view) /\ NextHeader p' = nh) /\
  (Z.shiftr b0 4 <> 4 ->
   forall b6 nh,
     index m (Raw p) 6 = Some b6 ->
     40 <= cap (Raw p) ->
     parse_next m (Raw p) 40 b6 = Some nh ->
     exists p' view,
       ParseHeaders m p = Some p' /\
       ipVersion p' = Z.shiftr b0 4 /\ hdrLen p' = 40 /\ nextHeaderType p' = b6 /\
       IpHdr p' = Some (IPv6Header_ view) /\ NextHeader p' = nh) /\
  (forall p', ParseHeaders m p = Some p' ->
     ipVersion p' = Z.shiftr b0 4 /\
     (Z.shiftr b0 4 <> 4 ->
        hdrLen p' = 40 /\
        index m (Raw p) 6 = Some (nextHeaderType p') /\
        exists view, IpHdr p' = Some (IPv6Header_ view)) /\
     (Z.shiftr b0 4 = 4 ->
        hdrLen p' = Z.land b0 15 * 4 /\
        index m (Raw p) 9 = Some (nextHeaderType p') /\
        exists view, IpHdr p' = Some (IPv4Header_ view))) /\
  (Z.shiftr b0 4 <> 4 ->
   forall nt, index m (Raw p) 6 = Some nt -> 40 <= cap (Raw p) -> ~ recognized nt ->
     exists p', ParseHeaders m p = Some p' /\ hdrLen p' = 40 /\ nextHeaderType p' = nt).
Proof.
  intros Hb0. destruct (ihl_times_4 b0) as [Hihl Hrange].
  split; [|split; [|split]].
  - intros Hv b9 nh H9 Hcap Hnx. unfold ParseHeaders, parse_ip.
    rewrite Hb0. simpl. rewrite Hv. simpl. rewrite H9. simpl.
    unfold NewIPv4Header, upto. rewrite Hb0. simpl. rewrite Hihl.
    rewrite reslice_ok by lia. simpl. rewrite Hnx. simpl.
    eexists _, _. repeat split.
  - intros Hv b6 nh H6 Hcap Hnx. unfold ParseHeaders, parse_ip.
    rewrite Hb0. simpl. apply Z.eqb_neq in Hv. rewrite Hv, H6. simpl.
    unfold NewIPv6Header, upto. rewrite reslice_ok by lia. simpl.
    rewrite Hnx. simpl. eexists _, _. repeat split.
  - intros p' (v & hl & nt & ih & nh & Hip & Hnx & ->)%ParseHeaders_Some.
    apply parse_ip_Some in Hip as (b & Hb & -> & Hcase).
    rewrite Hb0 in Hb. injection Hb as <-. simpl.
    split; [done|]. split; intros Hv.
    + destruct Hcase as [(? & _) | (_ & -> & H6 & view & _ & ->)]; [done|]. eauto.
    + destruct Hcase as [(_ & -> & H9 & view & _ & ->) | (? & _)]; [|done].
      split; [done | eauto].
  - intros Hv nt H6 Hcap Hn. unfold ParseHeaders, parse_ip.
    rewrite Hb0. simpl. apply Z.eqb_neq in Hv. rewrite Hv, H6. simpl.
    unfold NewIPv6Header, upto. rewrite reslice_ok by lia. simpl.
    rewrite parse_next_unrecognized by done. simpl. by eexists.
Qed.

End ParseFacts.

(** ** Accessors *)

Section AccessorFacts.
Import Mem header godivert.
Context {E : Externals}.

(** C9: on a packet with at least one byte [HelperCalcChecksum] returns,
    and [PacketLen] is then what it was before the call, whatever the
    driver's routine left in it. *)
Theorem HelperCalcChecksum_keeps_PacketLen rc m p :
  is_Some (index m (Raw p) 0) ->
  exists m' p' e,
    WinDivertHandle_HelperCalcChecksum rc m p = Some (m', p', e) /\
    PacketLen p' = PacketLen p.
Proof.
  intros [b Hb]. unfold WinDivertHandle_HelperCalcChecksum. rewrite Hb. simpl.
  destruct (PacketLen p =? calc_packetLen rc) eqn:Hl; simpl;
    destruct (r1 (calc_ret rc) =? 0); eexists _, _, _; split; try done; simpl.
  all: apply Z.eqb_eq in Hl; done.
Qed.

Lemma lift_err_supported r : ~ ProtocolNotSupported (lift_err r).2.
Proof. destruct r as [v [e|]]; intros (? & ? & ?); discriminate. Qed.

Lemma lift_set_supported {A} (c : A -> ProtocolHeader) r :
  ~ ProtocolNotSupported (lift_set c r).2.
Proof. destruct r as [[m a] [e|]]; intros (? & ? & ?); discriminate. Qed.

Lemma ProtocolHeader_SetSrcPort_supported m nh port r :
  ProtocolHeader_SetSrcPort m nh port = Some r -> ~ ProtocolNotSupported r.2.
Proof.
  destruct nh; simpl; intros H;
    match type of H with context [_ <$> ?x] => destruct x end;
    simpl in H; try discriminate; injection H as <-; apply lift_set_supported.
Qed.

Lemma ProtocolHeader_SetDstPort_supported m nh port r :
  ProtocolHeader_SetDstPort m nh port = Some r -> ~ ProtocolNotSupported r.2.
Proof.
  destruct nh; simpl; intros H;
    match type of H with context [_ <$> ?x] => destruct x end;
    simpl in H; try discriminate; injection H as <-; apply lift_set_supported.
Qed.

Lemma ProtocolHeader_SrcPort_supported m nh r :
  ProtocolHeader_SrcPort m nh = Some r -> ~ ProtocolNotSupported r.2.
Proof.
  unfold ProtocolHeader_SrcPort. intros H.
  match type of H with context [_ <$> ?x] => destruct x end;
    simpl in H; try discriminate; injection H as <-; apply lift_err_supported.
Qed.

Lemma ProtocolHeader_DstPort_supported m nh r :
  ProtocolHeader_DstPort m nh = Some r -> ~ ProtocolNotSupported r.2.
Proof.
  unfold ProtocolHeader_DstPort. intros H.
  match type of H with context [_ <$> ?x] => destruct x end;
    simpl in H; try discriminate; injection H as <-; apply lift_err_supported.
Qed.

(** Without a view the four port accessors return, with the error. *)
Lemma ports_without_view m p p' port :
  VerifyParsed m p = Some p' -> NextHeader p' = None ->
  (exists e, SrcPort m p = Some (p', (0, e)) /\ ProtocolNotSupported e) /\
  (exists e, DstPort m p = Some (p', (0, e)) /\ ProtocolNotSupported e) /\
  (exists e, SetSrcPort m p port = Some (m, p', e) /\ ProtocolNotSupported e) /\
  (exists e, SetDstPort m p port = Some (m, p', e) /\ ProtocolNotSupported e).
Proof.
  intros Hv Hn. unfold SrcPort, DstPort, SetSrcPort, SetDstPort.
  rewrite Hv. simpl. rewrite Hn.
  repeat split; eexists; (split; [done|]); by eexists _, _.
Qed.

(** With a view, whatever they return is not that error. *)
Lemma ports_with_view m p p' port :
  VerifyParsed m p = Some p' -> NextHeader p' <> None ->
  (forall r, SrcPort m p = Some r -> ~ ProtocolNotSupported r.2.2) /\
  (forall r, DstPort m p = Some r -> ~ ProtocolNotSupported r.2.2) /\
  (forall r, SetSrcPort m p port = Some r -> ~ ProtocolNotSupported r.2) /\
  (forall r, SetDstPort m p port = Some r -> ~ ProtocolNotSupported r.2).
Proof.
  intros Hv Hn. unfold SrcPort, DstPort, SetSrcPort, SetDstPort.
  rewrite Hv. simpl. destruct (NextHeader p') as [nh|]; [|done].
  repeat split; intros r H.
  - destruct (ProtocolHeader_SrcPort m nh) as [x|] eqn:Hx; simpl in H; [|discriminate].
    injection H as <-. by eapply ProtocolHeader_SrcPort_supported.
  - destruct (ProtocolHeader_DstPort m nh) as [x|] eqn:Hx; simpl in H; [|discriminate].
    injection H as <-. by eapply ProtocolHeader_DstPort_supported.
  - destruct (ProtocolHeader_SetSrcPort m nh port) as [[[m' nh'] e]|] eqn:Hx;
      simpl in H; [|discriminate].
    injection H as <-. by apply ProtocolHeader_SetSrcPort_supported in Hx.
  - destruct (ProtocolHeader_SetDstPort m nh port) as [[[m' nh'] e]|] eqn:Hx;
      simpl in H; [|discriminate].
    injection H as <-. by apply ProtocolHeader_SetDstPort_supported in Hx.
Qed.

Lemma ParseHeaders_unrecognized m p v hl nt ih :
  parse_ip m (Raw p) = Some (v, hl, nt, ih) -> ~ recognized nt ->
  exists p1, ParseHeaders m p = Some p1 /\ NextHeader p1 = None /\
             nextHeaderType p1 = nt /\ IpHdr p1 = Some ih.
Proof.
  intros Hip Hn. unfold ParseHeaders. rewrite Hip. simpl.
  rewrite parse_next_unrecognized by done. simpl. by eexists.
Qed.

(** C5: on a packet that parses, each of SrcPort, DstPort, SetSrcPort and
    SetDstPort returns the protocol-not-implemented error exactly when
    the packet has no transport view, and without a view each of them
    does return; after [ParseHeaders] the view is absent exactly when the
    next-header value is none of ICMPv4, TCP, UDP, ICMPv6, and in that
    case [ParseHeaders] returns as soon as the IP header parses. *)
Theorem ports_fail_iff_no_view m p p' port :
  VerifyParsed m p = Some p' ->
  (forall r, SrcPort m p = Some r ->
             (ProtocolNotSupported r.2.2 <-> NextHeader p' = None)) /\
  (forall r, DstPort m p = Some r ->
             (ProtocolNotSupported r.2.2 <-> NextHeader p' = None)) /\
  (forall r, SetSrcPort m p port = Some r ->
             (ProtocolNotSupported r.2 <-> NextHeader p' = None)) /\
  (forall r, SetDstPort m p port = Some r ->
             (ProtocolNotSupported r.2 <-> NextHeader p' = None)) /\
  (NextHeader p' = None ->
     is_Some (SrcPort m p) /\ is_Some (DstPort m p) /\
     is_Some (SetSrcPort m p port) /\ is_Some (SetDstPort m p port)) /\
  (parsed p = false ->
     (NextHeader p' = None <-> ~ recognized (nextHeaderType p'))) /\
  (forall v hl nt ih,
     parse_ip m (Raw p) = Some (v, hl, nt, ih) -> ~ recognized nt ->
     exists p1, ParseHeaders m p = Some p1 /\ NextHeader p1 = None /\
                nextHeaderType p1 = nt /\ IpHdr p1 = Some ih).
Proof.
  intros Hv.
  assert (Hdec : NextHeader p' = None \/ NextHeader p' <> None)
    by (destruct (NextHeader p'); [right | left]; done).
  repeat split.
  - intros Hp. destruct Hdec as [|Hn]; [done|].
    by destruct (ports_with_view m p p' port Hv Hn) as (H1 & _); apply H1 in H.
  - intros Hn. destruct (ports_without_view m p p' port Hv Hn) as ((e & He & Hp) & _).
    rewrite He in H. by injection H as <-.
  - intros Hp. destruct Hdec as [|Hn]; [done|].
    by destruct (ports_with_view m p p' port Hv Hn) as (_ & H1 & _); apply H1 in H.
  - intros Hn. destruct (ports_without_view m p p' port Hv Hn) as (_ & (e & He & Hp) & _).
    rewrite He in H. by injection H as <-.
  - intros Hp. destruct Hdec as [|Hn]; [done|].
    by destruct (ports_with_view m p p' port Hv Hn) as (_ & _ & H1 & _); apply H1 in H.
  - intros Hn.
    destruct (ports_without_view m p p' port Hv Hn) as (_ & _ & (e & He & Hp) & _).
    rewrite He in H. by injection H as <-.
  - intros Hp. destruct Hdec as [|Hn]; [done|].
    by destruct (ports_with_view m p p' port Hv Hn) as (_ & _ & _ & H1); apply H1 in H.
  - intros Hn.
    destruct (ports_without_view m p p' port Hv Hn) as (_ & _ & _ & (e & He & Hp)).
    rewrite He in H. by injection H as <-.
  - destruct (ports_without_view m p p' port Hv H) as ((e & -> & _) & _). by eexists.
  - destruct (ports_without_view m p p' port Hv H) as (_ & (e & -> & _) & _). by eexists.
  - destruct (ports_without_view m p p' port Hv H) as (_ & _ & (e & -> & _) & _). by eexists.
  - destruct (ports_without_view m p p' port Hv H) as (_ & _ & _ & (e & -> & _)). by eexists.
  - unfold VerifyParsed in Hv. rewrite H in Hv. simpl in Hv.
    apply ParseHeaders_Some in Hv as (v & hl & nt & ih & nh & _ & Hnx & ->). simpl.
    intros ->. by apply (parse_next_absent _ _ _ _ _ Hnx).
  - unfold VerifyParsed in Hv. rewrite H in Hv. simpl in Hv.
    apply ParseHeaders_Some in Hv as (v & hl & nt & ih & nh & _ & Hnx & ->). simpl.
    by apply (parse_next_absent _ _ _ _ _ Hnx).
  - intros. by eapply ParseHeaders_unrecognized.
Qed.

End AccessorFacts.

(** ** The length invariant *)

Section LengthFacts.
Import Mem header godivert.
Context {E : Externals}.

Lemma HelperCalcChecksum_Some rc m p m' p' e :
  WinDivertHandle_HelperCalcChecksum rc m p = Some (m', p', e) ->
  p' = p /\
  m' = write m (Raw p) (take (Z.to_nat (PacketLen p)) (calc_written rc)) /\
  e = (if r1 (calc_ret rc) =? 0 then Some (Errno (lastErr (calc_ret rc))) else None) /\
  is_Some (index m (Raw p) 0).
Proof.
  unfold WinDivertHandle_HelperCalcChecksum. intros H.
  destruct (index m (Raw p) 0) as [b|]; simpl in H; [|discriminate].
  assert (Hp : (if negb (PacketLen p =? calc_packetLen rc)
                then with_PacketLen (with_PacketLen p (calc_packetLen rc)) (PacketLen p)
                else with_PacketLen p (calc_packetLen rc)) = p).
  { destruct (PacketLen p =? calc_packetLen rc) eqn:Hl; simpl.
    - apply Z.eqb_eq in Hl. rewrite <- Hl. by destruct p.
    - by destruct p. }
  rewrite Hp in H.
  destruct (r1 (calc_ret rc) =? 0); injection H as <- <- <-; (repeat split; [by eexists]).
Qed.

Lemma HelperCalcChecksum_returns rc m p :
  is_Some (index m (Raw p) 0) ->
  exists m' e, WinDivertHandle_HelperCalcChecksum rc m p = Some (m', p, e).
Proof.
  intros [b Hb].
  destruct (WinDivertHandle_HelperCalcChecksum rc m p) as [[[m' p'] e]|] eqn:H.
  - pose proof H as (-> & _)%HelperCalcChecksum_Some. eauto.
  - unfold WinDivertHandle_HelperCalcChecksum in H. rewrite Hb in H. simpl in H.
    by destruct (r1 (calc_ret rc) =? 0).
Qed.

Lemma VerifyParsed_frame m p p' :
  VerifyParsed m p = Some p' -> Raw p' = Raw p /\ PacketLen p' = PacketLen p.
Proof.
  unfold VerifyParsed. destruct (negb (parsed p)).
  - by intros (? & ? & ? & ? & ? & _ & _ & ->)%ParseHeaders_Some.
  - by intros [= <-].
Qed.

Lemma UpdateTCPHeader_lengths m p m' p' :
  UpdateTCPHeader m p = Some (m', p') -> keeps_or_syncs p p'.
Proof.
  unfold UpdateTCPHeader. intros H.
  destruct (NextHeader p) as [[t|v|v|v]|]; simpl in H; try discriminate;
    try (injection H as <- <-; by left).
  destruct (from (Raw p) (hdrLen p)) as [tl|]; simpl in H; [|discriminate].
  destruct (len (TCPHeader.Raw t) =? len tl).
  { injection H as <- <-. by left. }
  destruct (upto (Raw p) (hdrLen p)) as [pre|]; simpl in H; [|discriminate].
  destruct (append growcap m pre (TCPHeader.Raw t)) as [m1 raw].
  simpl in H. destruct (IpHdr p) as [[v|v]|]; simpl in H; try discriminate.
  - destruct (IPv4Header.SetTotalLen m1 v _) as [[m2 v']|]; simpl in H; [|discriminate].
    injection H as <- <-. by right.
  - injection H as <- <-. by right.
Qed.

Lemma with_IpHdr_lengths m p p1 (r : option (heap * View.t)) m' p' c :
  VerifyParsed m p = Some p1 ->
  ('(m, v) ← r; Some (m, with_IpHdr p1 (c v))) = Some (m', p') ->
  keeps_or_syncs p p'.
Proof.
  intros [H1 H2]%VerifyParsed_frame H.
  destruct r as [[m2 v]|]; simpl in H; [|discriminate].
  injection H as <- <-. left. simpl. done.
Qed.

Lemma mutate_lengths mu m p m' p' :
  mutate mu m p = Some (m', p') -> keeps_or_syncs p p'.
Proof.
  destruct mu; simpl; intros H.
  - destruct (ParseHeaders m p) as [p1|] eqn:Hp; simpl in H; [|discriminate].
    injection H as <- <-.
    apply ParseHeaders_Some in Hp as (? & ? & ? & ? & ? & _ & _ & ->). by left.
  - unfold SetSrcIP in H.
    destruct (VerifyParsed m p) as [p1|] eqn:Hv; simpl in H; [|discriminate].
    destruct (IpHdr p1) as [[v|v]|]; simpl in H; try discriminate;
      by eapply with_IpHdr_lengths.
  - unfold SetDstIP in H.
    destruct (VerifyParsed m p) as [p1|] eqn:Hv; simpl in H; [|discriminate].
    destruct (IpHdr p1) as [[v|v]|]; simpl in H; try discriminate;
      by eapply with_IpHdr_lengths.
  - unfold SetSrcPort in H.
    destruct (VerifyParsed m p) as [p1|] eqn:Hv; simpl in H; [|discriminate].
    apply VerifyParsed_frame in Hv as [H1 H2].
    destruct (NextHeader p1) as [nh|]; simpl in H.
    + destruct (ProtocolHeader_SetSrcPort m nh port) as [[[m2 nh'] e]|];
        simpl in H; [|discriminate].
      injection H as <- <-. by left.
    + injection H as <- <-. by left.
  - unfold SetDstPort in H.
    destruct (VerifyParsed m p) as [p1|] eqn:Hv; simpl in H; [|discriminate].
    apply VerifyParsed_frame in Hv as [H1 H2].
    destruct (NextHeader p1) as [nh|]; simpl in H.
    + destruct (ProtocolHeader_SetDstPort m nh port) as [[[m2 nh'] e]|];
        simpl in H; [|discriminate].
      injection H as <- <-. by left.
    + injection H as <- <-. by left.
  - unfold on_TCPHeader in H.
    destruct (NextHeader p) as [[t|v|v|v]|]; simpl in H; try discriminate.
    destruct (TCPHeader.call growcap f m t) as [[m2 t']|]; simpl in H; [|discriminate].
    injection H as <- <-. by left.
  - by eapply UpdateTCPHeader_lengths.
  - unfold CalcNewChecksum in H.
    destruct (WinDivertHandle_HelperCalcChecksum rc m p) as [[[m2 p2] e]|] eqn:Hc;
      simpl in H; [|discriminate].
    injection H as <- <-. apply HelperCalcChecksum_Some in Hc as (-> & _). by left.
Qed.

Lemma mutate_all_invariant mus : forall m p m' p',
  PacketLen p = len (Raw p) ->
  mutate_all mus m p = Some (m', p') ->
  PacketLen p' = len (Raw p').
Proof.
  induction mus as [|mu mus IH]; simpl; intros m p m' p' Hinv H.
  - by injection H as <- <-.
  - destruct (mutate mu m p) as [[m1 p1]|] eqn:Hmu; simpl in H; [|discriminate].
    apply (IH m1 p1 m' p'); [|done].
    apply mutate_lengths in Hmu as [[-> ->] | ->]; done.
Qed.

Lemma Recv_Some sel r w wd w' p e :
  WinDivertHandle_Recv sel r w wd = Some (w', (Some p, e)) ->
  open wd = true /\
  e = None /\
  Buffer p = (GetBuffer sel w).1 /\
  upto (Buffer p) (recv_packetLen r) = Some (Raw p) /\
  PacketLen p = recv_packetLen r /\
  parsed p = false /\
  bufferPool w' = bufferPool (GetBuffer sel w).2.
Proof.
  unfold WinDivertHandle_Recv. intros H.
  destruct (open wd); simpl in H; [|discriminate].
  destruct (GetBuffer sel w) as [b w1]. simpl.
  destruct (index (mem w1) b 0); simpl in H; [|discriminate].
  destruct (r1 (recv_ret r) =? 0); [discriminate|].
  destruct (upto b (recv_packetLen r)) as [raw|] eqn:Hr; simpl in H; [|discriminate].
  injection H as <- <- <-. simpl. done.
Qed.

(** C2: the packet [Recv] constructs has [PacketLen = len(Raw)], and so
    has the packet after any sequence of the public mutations:
    ParseHeaders, the address and port setters, the TCP view's setters
    (SetPayload among them), UpdateTCPHeader and CalcNewChecksum. *)
Theorem PacketLen_is_len_Raw sel r w wd w' p e mus m' p' :
  WinDivertHandle_Recv sel r w wd = Some (w', (Some p, e)) ->
  mutate_all mus (mem w') p = Some (m', p') ->
  PacketLen p = len (Raw p) /\ PacketLen p' = len (Raw p').
Proof.
  intros (_ & _ & _ & Hraw & Hlen & _)%Recv_Some Hmu.
  assert (Hinv : PacketLen p = len (Raw p)).
  { apply reslice_Some in Hraw as (_ & _ & ->). simpl. lia. }
  split; [done|]. by eapply mutate_all_invariant.
Qed.

End LengthFacts.

(** ** Payload replacement *)

Section PayloadFacts.
Import Mem header godivert.
Context {E : Externals}.

(** The two bytes [SetTotalLen] writes recombine to the 16-bit value. *)
Lemma hi_lo_recombine x :
  0 <= x < 65536 ->
  Z.lor (uint8 (Z.land x 255)) (Z.shiftl (uint8 (Z.shiftr x 8)) 8) = x.
Proof.
  intros Hx. unfold uint8.
  assert (Hlo : Z.land x 255 = x mod 256).
  { change 255 with (Z.ones 8). by rewrite Z.land_ones. }
  assert (Hhi : Z.shiftr x 8 = x / 256).
  { by rewrite Z.shiftr_div_pow2. }
  rewrite Hlo, Hhi, Z.mod_mod by lia.
  rewrite (Z.mod_small (x / 256)) by (split; [apply Z.div_pos; lia | apply Z.div_lt_upper_bound; lia]).
  rewrite Z.shiftl_mul_pow2 by lia. change (2 ^ 8) with 256.
  rewrite <- Z.lxor_lor, <- Z.add_nocarry_lxor.
  - rewrite (Z.div_mod x 256) at 3 by lia. lia.
  - apply Z.bits_inj'. intros n Hn. rewrite Z.land_spec, Z.bits_0.
    destruct (Z.lt_ge_cases n 8).
    + change 256 with (2 ^ 8).
      rewrite Z.mul_pow2_bits_low by lia. apply andb_false_r.
    + change 256 with (2 ^ 8). rewrite Z.mod_pow2_bits_high by lia. done.
  - apply Z.bits_inj'. intros n Hn. rewrite Z.land_spec, Z.bits_0.
    destruct (Z.lt_ge_cases n 8).
    + change 256 with (2 ^ 8).
      rewrite Z.mul_pow2_bits_low by lia. apply andb_false_r.
    + change 256 with (2 ^ 8). rewrite Z.mod_pow2_bits_high by lia. done.
Qed.

Lemma SetTotalLen_TotalLen m v x :
  valid m (View.Raw v) -> 4 <= len (View.Raw v) -> 0 <= x < 65536 ->
  exists m',
    IPv4Header.SetTotalLen m v x = Some (m', View.mk (View.Raw v) true) /\
    IPv4Header.TotalLen m' (View.mk (View.Raw v) true) = Some x /\
    grows m m'.
Proof.
  intros Hv Hl Hx. set (s := View.Raw v) in *.
  pose proof Hv as (Ho & Hlc & Ha).
  unfold IPv4Header.SetTotalLen, IPv4Header.TotalLen. simpl. fold s.
  destruct (store m s 2 (uint8 (Z.shiftr x 8))) as [m1|] eqn:H1;
    [|by rewrite store_in_range in H1 by lia].
  simpl.
  destruct (store m1 s 3 (uint8 (Z.land x 255))) as [m2|] eqn:H2;
    [|by rewrite store_in_range in H2 by lia].
  simpl.
  pose proof (grows_store _ _ _ _ _ H1) as G1.
  pose proof (grows_store _ _ _ _ _ H2) as G2.
  exists m2. split; [done|]. split; [|by eapply grows_trans].
  assert (Hr : reslice s 2 4 = Some (Slice (ptr s) (off s + 2) (4 - 2) (cap s - 2)))
    by (apply reslice_ok; lia).
  rewrite Hr. simpl. unfold Uint16.
  rewrite (index_reslice m2 s 2 4 _ 1 Hr) by lia.
  rewrite (index_reslice m2 s 2 4 _ 0 Hr) by lia.
  change (2 + 1) with 3. change (2 + 0) with 2.
  rewrite (index_store_eq m1 s 3 _ m2) by (done || by eapply valid_grows).
  simpl.
  rewrite (index_store_ne m1 s 3 _ m2 2 H2) by lia.
  rewrite (index_store_eq m s 2 _ m1) by done.
  simpl. by rewrite hi_lo_recombine.
Qed.

Lemma NewIPv4Header_Some m raw view :
  NewIPv4Header m raw = Some view ->
  exists b, index m raw 0 = Some b /\
            0 <= uint8 (Z.shiftl (Z.land b 15) 2) <= cap raw /\
            view = View.mk (Slice (ptr raw) (off raw)
                                  (uint8 (Z.shiftl (Z.land b 15) 2)) (cap raw)) false.
Proof.
  unfold NewIPv4Header, upto. intros H.
  destruct (index m raw 0) as [b|]; simpl in H; [|discriminate].
  destruct (reslice raw 0 _) as [r|] eqn:Hr; simpl in H; [|discriminate].
  injection H as <-. apply reslice_Some in Hr as (H1 & H2 & ->).
  exists b. repeat split; try lia. do 2 f_equal; f_equal; lia.
Qed.

Lemma parse_next_TCP m raw hl nt t :
  parse_next m raw hl nt = Some (Some (TCPHeader_ t)) ->
  exists tl, from raw hl = Some tl /\ NewTCPHeader m tl = Some t.
Proof.
  unfold parse_next. intros H.
  repeat (match type of H with
          | context [if ?b then _ else _] => destruct b
          end);
    repeat (match type of H with
            | context [reslice ?a ?b ?c] => destruct (reslice a b c); simpl in H
            end); try discriminate.
  destruct (from raw hl) as [tl|]; simpl in H; [|discriminate].
  destruct (NewTCPHeader m tl) as [t'|] eqn:Ht; simpl in H; [|discriminate].
  injection H as <-. eauto.
Qed.

Lemma is_uint16 x : 0 <= uint16 x < 65536.
Proof. unfold uint16. apply Z.mod_pos_bound. lia. Qed.



End PayloadFacts.

(** ** Fresh views and the Modified flag *)

Section ModifiedFacts.
Import Mem header godivert.
Context {E : Externals}.

Lemma valid_from m s lo s' : valid m s -> from s lo = Some s' -> valid m s'.
Proof.
  intros (Ho & Hl & Ha) (H1 & H2 & ->)%reslice_Some.
  unfold valid, array in *. simpl. repeat split; lia.
Qed.

Lemma parse_ip_fresh m raw v hl nt ih :
  parse_ip m raw = Some (v, hl, nt, ih) -> IPHeader_NeedNewChecksum ih = false.
Proof.
  intros (b0 & _ & _ & [(_ & _ & _ & view & Hview & ->) |
                        (_ & _ & _ & view & Hview & ->)])%parse_ip_Some.
  - by apply NewIPv4Header_Some in Hview as (? & _ & _ & ->).
  - unfold NewIPv6Header in Hview.
    destruct (upto raw 40); simpl in Hview; [|discriminate]. by injection Hview as <-.
Qed.

Lemma parse_next_fresh m raw hl nt nh h :
  parse_next m raw hl nt = Some nh -> nh = Some h ->
  ProtocolHeader_NeedNewChecksum h = false.
Proof.
  intros H ->. destruct h as [t|v|v|v].
  - apply parse_next_TCP in H as (tl & _ & Ht).
    by apply NewTCPHeader_Some in Ht as (? & ? & _ & _ & _ & ->).
  - unfold parse_next in H.
    repeat (match type of H with
            | context [if ?b then _ else _] => destruct b
            | context [reslice ?a ?b ?c] => destruct (reslice a b c); simpl in H
            | context [from ?a ?b] => destruct (from a b); simpl in H
            | context [NewTCPHeader ?a ?b] => destruct (NewTCPHeader a b); simpl in H
            end); try discriminate; by injection H as <-.
  - unfold parse_next in H.
    repeat (match type of H with
            | context [if ?b then _ else _] => destruct b
            | context [reslice ?a ?b ?c] => destruct (reslice a b c); simpl in H
            | context [from ?a ?b] => destruct (from a b); simpl in H
            | context [NewTCPHeader ?a ?b] => destruct (NewTCPHeader a b); simpl in H
            end); try discriminate; by injection H as <-.
  - unfold parse_next in H.
    repeat (match type of H with
            | context [if ?b then _ else _] => destruct b
            | context [reslice ?a ?b ?c] => destruct (reslice a b c); simpl in H
            | context [from ?a ?b] => destruct (from a b); simpl in H
            | context [NewTCPHeader ?a ?b] => destruct (NewTCPHeader a b); simpl in H
            end); try discriminate; by injection H as <-.
Qed.

(** C8: after [ParseHeaders] every view of the packet has
    [Modified = false], so that no new checksum is asked for; on the TCP
    view one call of any setter (SetSrcPort, SetDstPort, SetSeqNum,
    SetAckNum, SetPayload), with any argument, equal to the value it
    replaces or not, returns and leaves [Modified = true]. *)
Theorem Modified_after_one_setter m p p' :
  valid m (Raw p) ->
  ParseHeaders m p = Some p' ->
  needs_checksum p' = Some false /\
  forall t, NextHeader p' = Some (TCPHeader_ t) ->
    TCPHeader.Modified t = false /\
    forall f, exists m1 p1 t1,
      on_TCPHeader f m p' = Some (m1, p1) /\
      NextHeader p1 = Some (TCPHeader_ t1) /\
      TCPHeader.Modified t1 = true /\
      needs_checksum p1 = Some true.
Proof.
  intros Hv (v & hl & nt & ih & nh & Hip & Hnx & ->)%ParseHeaders_Some.
  pose proof (parse_ip_fresh _ _ _ _ _ _ Hip) as Hfresh.
  split.
  - unfold needs_checksum. simpl. rewrite Hfresh. simpl.
    destruct nh as [h|]; [|done]. f_equal. by eapply parse_next_fresh.
  - simpl. intros t ->. apply parse_next_TCP in Hnx as (tl & Htl & Ht).
    destruct (fresh_TCPHeader_setters growcap m tl t) as [Hf Hset];
      [by eapply valid_from | done |].
    split; [done|]. intros f. destruct (Hset f) as (m1 & t1 & Hc & Hm).
    unfold on_TCPHeader. simpl. rewrite Hc. simpl.
    eexists _, _, _. split; [done|]. simpl. split; [done|]. split; [done|].
    unfold needs_checksum. simpl. unfold TCPHeader.NeedNewChecksum.
    rewrite Hm. by rewrite orb_true_r.
Qed.




End ModifiedFacts.

(** ** The buffer pool *)

Section PoolFacts.
Import Mem header godivert.

Lemma index_grows m m' s i :
  grows m m' -> is_Some (index m s i) -> is_Some (index m' s i).
Proof.
  intros G [b [Hi Hb]%index_Some]. rewrite index_in_range by done.
  apply lookup_lt_is_Some. apply lookup_lt_Some in Hb.
  specialize (G (ptr s)). unfold array in *. lia.
Qed.

Lemma zero_loop_other n : forall m s i m' j,
  zero_loop m s i n = Some m' -> 0 <= off s -> 0 <= j < i ->
  index m' s j = index m s j.
Proof.
  induction n as [|n IH]; simpl; intros m s i m' j H Ho Hj.
  - by injection H as <-.
  - destruct (store m s i 0) as [m1|] eqn:Hs; simpl in H; [|discriminate].
    rewrite (IH m1 s (i + 1) m' j H) by lia.
    apply (index_store_ne m s i 0 m1 j Hs); lia.
Qed.

Lemma zero_loop_grows n : forall m s i m',
  zero_loop m s i n = Some m' -> grows m m'.
Proof.
  induction n as [|n IH]; simpl; intros m s i m' H.
  - injection H as <-. apply grows_refl.
  - destruct (store m s i 0) as [m1|] eqn:Hs; simpl in H; [|discriminate].
    eapply grows_trans; [by eapply grows_store | by eapply IH].
Qed.

(** The loop returns when it stays inside the buffer, and then it has
    zeroed every byte it passed. *)
Lemma zero_loop_zeroes n : forall m s i,
  valid m s -> 0 <= i -> i + Z.of_nat n <= len s ->
  exists m', zero_loop m s i n = Some m' /\
             forall j, i <= j < i + Z.of_nat n -> index m' s j = Some 0.
Proof.
  induction n as [|n IH]; simpl; intros m s i Hv Hi Hn.
  - eexists. split; [done|]. intros j Hj. lia.
  - rewrite store_in_range by lia. simpl.
    set (m1 := <[ptr s := _]> m).
    assert (Hs : store m s i 0 = Some m1) by (by rewrite store_in_range by lia).
    destruct (IH m1 s (i + 1)) as (m' & Hz & Hall); [| lia | lia |].
    { eapply valid_grows; [by eapply grows_store | done]. }
    exists m'. split; [done|]. intros j Hj.
    destruct (decide (j = i)) as [-> | Hne].
    + rewrite (zero_loop_other n m1 s (i + 1) m' i Hz) by (destruct Hv; lia).
      by eapply index_store_eq.
    + apply Hall. lia.
Qed.

(** The loop panics as soon as it leaves the buffer. *)
Lemma zero_loop_out_of_range n : forall m s i,
  0 <= i <= len s -> len s < i + Z.of_nat n -> zero_loop m s i n = None.
Proof.
  induction n as [|n IH]; simpl; intros m s i Hi Hn; [lia|].
  destruct (store m s i 0) as [m1|] eqn:Hs; simpl; [|done].
  apply store_Some in Hs as [Hr _]. apply IH; lia.
Qed.

Lemma GetBuffer_ok sel w :
  pool_ok w ->
  len (GetBuffer sel w).1 = PacketBufferSize /\
  valid (mem (GetBuffer sel w).2) (GetBuffer sel w).1 /\
  grows (mem w) (mem (GetBuffer sel w).2).
Proof.
  intros Hp. unfold GetBuffer, bufferPool_Get.
  assert (HN : len (bufferPool_New w).1 = PacketBufferSize /\
               valid (mem (bufferPool_New w).2) (bufferPool_New w).1 /\
               grows (mem w) (mem (bufferPool_New w).2)).
  { unfold bufferPool_New, make. cbn [fst snd mem len].
    split; [reflexivity|]. split; [|apply grows_snoc].
    unfold valid, array. cbn [ptr off len cap].
    rewrite lookup_app_r, Nat.sub_diag by lia. cbn [lookup list_lookup default from_option id].
    rewrite length_replicate. assert (0 <= PacketBufferSize) by done. lia. }
  destruct sel as [i|]; [|done].
  destruct (bufferPool w !! i) as [b|] eqn:Hb; [|done].
  simpl. unfold pool_ok in Hp. rewrite Forall_lookup in Hp.
  destruct (Hp i b Hb) as [H1 H2]. split; [done|]. split; [done | apply grows_refl].
Qed.


Lemma ReturnBuffer_pooled w b k :
  len b = PacketBufferSize -> valid (mem w) b -> 0 <= k <= PacketBufferSize ->
  exists m', ReturnBuffer w b k = Some (mkWorld m' (b :: bufferPool w) (stdout w)) /\
             grows (mem w) m' /\
             forall j, 0 <= j < k -> index m' b j = Some 0.
Proof.
  intros Hl Hv Hk. unfold ReturnBuffer. rewrite Hl, Z.eqb_refl.
  destruct (zero_loop_zeroes (Z.to_nat k) (mem w) b 0) as (m' & Hz & Hall);
    [done | lia | lia |].
  rewrite Hz. simpl. exists m'. split; [done|].
  split; [by eapply zero_loop_grows|]. intros j Hj. apply Hall. lia.
Qed.

Lemma pool_ok_grows w m' :
  grows (mem w) m' -> pool_ok w -> pool_ok (mkWorld m' (bufferPool w) (stdout w)).
Proof.
  unfold pool_ok. simpl. intros G Hp. eapply Forall_impl; [exact Hp|].
  simpl. intros b [H1 H2]. split; [done | by eapply valid_grows].
Qed.

(** Releasing keeps the pool well formed. *)
Lemma pool_ok_ReturnBuffer w b k w' :
  pool_ok w -> valid (mem w) b -> ReturnBuffer w b k = Some w' -> pool_ok w'.
Proof.
  intros Hp Hv. unfold ReturnBuffer.
  destruct (len b =? PacketBufferSize) eqn:Hl; [|by intros [= <-]].
  apply Z.eqb_eq in Hl.
  destruct (zero_loop _ _ _ _) as [m'|] eqn:Hz; simpl; [|done].
  intros [= <-]. apply zero_loop_grows in Hz.
  unfold pool_ok, bufferPool_Put. simpl. constructor.
  - split; [done | by eapply valid_grows].
  - by apply (pool_ok_grows w m').
Qed.



End PoolFacts.

(** ** Sending *)

Section SendFacts.
Import Mem header godivert.
Context {E : Externals}.

Lemma int_of_uint_small x : 0 <= x < 2 ^ 63 -> int_of_uint x = x.
Proof.
  intros Hx. unfold int_of_uint.
  rewrite Z.mod_small by lia.
  destruct (x <? 2 ^ 63) eqn:H; [done | apply Z.ltb_ge in H; lia].
Qed.

Lemma zero_loop_returns n : forall m s i,
  0 <= i -> i + Z.of_nat n <= len s -> is_Some (zero_loop m s i n).
Proof.
  induction n as [|n IH]; simpl; intros m s i Hi Hn; [by eexists|].
  rewrite store_in_range by lia. simpl. apply IH; lia.
Qed.

Lemma ReturnBuffer_is_Some w b k :
  is_Some (ReturnBuffer w b k) <-> len b <> PacketBufferSize \/ k <= PacketBufferSize.
Proof.
  assert (H0 : 0 <= PacketBufferSize) by done.
  unfold ReturnBuffer. destruct (len b =? PacketBufferSize) eqn:Hl.
  - apply Z.eqb_eq in Hl. split.
    + intros [w' H]. right.
      destruct (Z.le_gt_cases k PacketBufferSize) as [|Hk]; [done|].
      rewrite zero_loop_out_of_range in H by lia. discriminate.
    + intros [? | Hk]; [done|].
      destruct (zero_loop_returns (Z.to_nat k) (mem w) b 0) as [m' Hz]; [lia | lia |].
      rewrite Hz. by eexists.
  - apply Z.eqb_neq in Hl. split; [by left | by eexists].
Qed.

Lemma ReturnBuffer_stdout w b k w' :
  ReturnBuffer w b k = Some w' -> stdout w' = stdout w.
Proof.
  unfold ReturnBuffer. destruct (len b =? PacketBufferSize).
  - destruct (zero_loop _ _ _ _); simpl; [|discriminate]. by intros [= <-].
  - by intros [= <-].
Qed.

(** [WinDivertHandle.Send] on an open handle and a packet with a first
    byte: the release, then the result of the injection call. *)
Lemma WinDivertHandle_Send_opened rs w wd p :
  open wd = true ->
  is_Some (index (mem w) (Raw p) 0) ->
  WinDivertHandle_Send rs w wd p
  = (w' ← ReturnBuffer w (Buffer p) (int_of_uint (PacketLen p));
     Some (w', if r1 (send_ret rs) =? 0
               then (0, Some (Errno (lastErr (send_ret rs))))
               else (send_sendLen rs, None))).
Proof.
  intros Ho [b Hb]. unfold WinDivertHandle_Send, getBuffer. rewrite Ho, Hb. simpl.
  destruct (ReturnBuffer _ _ _); simpl; [|done].
  by destruct (r1 (send_ret rs) =? 0).
Qed.



(** What [Packet.Send] has done when it reaches [WinDivertHandle.Send]. *)
Lemma Packet_Send_prelude rc rs w wd p :
  (parsed p = true -> is_Some (IpHdr p)) ->
  is_Some (index (mem w) (Raw p) 0) ->
  exists need w1,
    needs_checksum p = Some need /\
    Packet_Send rc rs w wd p
    = (r ← WinDivertHandle_Send rs w1 wd p; Some (r.1, p, r.2)) /\
    bufferPool w1 = bufferPool w /\
    is_Some (index (mem w1) (Raw p) 0) /\
    stdout w1 = (if need && (r1 (calc_ret rc) =? 0)
                 then stdout w ++ [Errno (lastErr (calc_ret rc))]
                 else stdout w).
Proof.
  intros Hih Hidx. unfold Packet_Send.
  assert (Hneed : exists need, needs_checksum p = Some need).
  { unfold needs_checksum. destruct (parsed p); [|by eexists].
    destruct Hih as [ih ->]; [done|]. by eexists. }
  destruct Hneed as [need Hneed]. rewrite Hneed. simpl.
  destruct need.
  - destruct (HelperCalcChecksum_returns rc (mem w) p Hidx)
      as (m' & e & Hc).
    rewrite Hc. simpl.
    apply HelperCalcChecksum_Some in Hc as (_ & -> & -> & _).
    eexists true, _. split; [done|]. split; [reflexivity|]. simpl.
    split; [done|]. split; [by eapply index_grows; [apply grows_write|]|].
    by destruct (r1 (calc_ret rc) =? 0).
  - exists false, w. simpl. by destruct w.
Qed.


(** C6 (as the code has it): on an open session, for a packet with a
    first byte (and an IP view once it is parsed) whose buffer is not of
    the pool's size or whose [PacketLen], as an [int], is at most
    PacketBufferSize, [Send] returns the failure of the injection call,
    its [Errno] with a sent length of 0, and returns no error when the
    injection succeeds.  A failure of the checksum call is not returned:
    it is printed and the packet is injected all the same.  A packet
    that outgrew its pool-sized buffer makes [Send] panic in the release,
    after the injection call: nothing is returned. *)
Theorem Send_returns_injection_error_only rc rs w wd p :
  (parsed p = true -> is_Some (IpHdr p)) ->
  is_Some (index (mem w) (Raw p) 0) ->
  open wd = true ->
  (len (Buffer p) <> PacketBufferSize \/
   int_of_uint (PacketLen p) <= PacketBufferSize ->
   exists w' n e,
     Packet_Send rc rs w wd p = Some (w', p, (n, e)) /\
     (r1 (send_ret rs) = 0 -> n = 0 /\ e = Some (Errno (lastErr (send_ret rs)))) /\
     (r1 (send_ret rs) <> 0 -> n = send_sendLen rs /\ e = None) /\
     (needs_checksum p = Some true -> r1 (calc_ret rc) = 0 ->
        stdout w' = stdout w ++ [Errno (lastErr (calc_ret rc))])) /\
  (len (Buffer p) = PacketBufferSize ->
   PacketBufferSize < int_of_uint (PacketLen p) ->
   Packet_Send rc rs w wd p = None).
Proof.
  intros Hih Hidx Ho.
  destruct (Packet_Send_prelude rc rs w wd p Hih Hidx)
    as (need & w1 & Hneed & -> & Hpool & Hidx1 & Hout).
  rewrite (WinDivertHandle_Send_opened rs w1 wd p Ho Hidx1).
  pose proof (ReturnBuffer_is_Some w1 (Buffer p) (int_of_uint (PacketLen p))) as HR.
  split.
  - intros Hfit. destruct (proj2 HR Hfit) as [w2 Hw2]. rewrite Hw2. simpl.
    apply ReturnBuffer_stdout in Hw2.
    destruct (r1 (send_ret rs) =? 0) eqn:Hr.
    + apply Z.eqb_eq in Hr. eexists _, _, _. split; [reflexivity|].
      split; [done|]. split; [done|]. simpl.
      intros Hn Hc. rewrite Hn in Hneed. injection Hneed as <-.
      rewrite Hw2, Hout, Hc. done.
    + apply Z.eqb_neq in Hr. eexists _, _, _. split; [reflexivity|].
      split; [done|]. split; [done|]. simpl.
      intros Hn Hc. rewrite Hn in Hneed. injection Hneed as <-.
      rewrite Hw2, Hout, Hc. done.
  - intros Hl Hbig.
    destruct (ReturnBuffer w1 (Buffer p) (int_of_uint (PacketLen p))) as [w2|] eqn:Hw2;
      [|done].
    destruct (proj1 HR ltac:(by eexists)); lia.
Qed.

End SendFacts.

(** ** The properties on the sample packets *)

Section Samples.
Import Mem header godivert Examples.

(** Equations between values too large to print are decided by
    evaluation. *)
Ltac by_decide :=
  apply (bool_decide_eq_true_1 _ (Decision0 := decide _)); vm_compute; reflexivity.

Lemma valid_sample sample n o c :
  0 <= o -> 0 <= n <= c -> o + c <= 64 -> (length sample <= 64)%nat ->
  valid (store_of sample) (Slice 1 o n c).
Proof.
  intros Ho Hn Hc Hl. unfold valid, array, store_of. simpl.
  rewrite length_app, length_replicate. lia.
Qed.

(** The spec's scenario: ports 1234 and 80, next header type 6. *)
Example scenario_ip4tcp :
  SrcPort (E := externals) (store_of ip4tcp) (unparsed 40)
  = Some (parsed_ip4tcp, (1234, None)) /\
  DstPort (E := externals) (store_of ip4tcp) (unparsed 40)
  = Some (parsed_ip4tcp, (80, None)) /\
  NextHeaderType (E := externals) (store_of ip4tcp) (unparsed 40)
  = Some (parsed_ip4tcp, 6).
Proof. repeat split. Qed.

(** The spec's scenario: protocol byte 200. *)
Example scenario_proto200 :
  ParseHeaders (E := externals) (store_of ip4_proto200) (unparsed 20)
  = Some parsed_proto200 /\
  NextHeader parsed_proto200 = None /\
  SrcPort (E := externals) (store_of ip4_proto200) (unparsed 20)
  = Some (parsed_proto200,
          (0, Some (Errorf "cannot get source port on protocolID=%d, protocol not implemented"
                           200))).
Proof. repeat split. Qed.



Lemma Recv_sample :
  WinDivertHandle_Recv (E := externals) None delivers world0 opened
  = Some (world1, (Some received, None)).
Proof.
  assert (Hw : (fst <$> WinDivertHandle_Recv (E := externals) None delivers world0 opened)
               = Some world1) by by_decide.
  assert (Hp : (snd <$> WinDivertHandle_Recv (E := externals) None delivers world0 opened)
               = Some (Some received, None)) by (vm_compute; reflexivity).
  destruct (WinDivertHandle_Recv None delivers world0 opened) as [[w r]|];
    [|discriminate].
  simpl in Hw, Hp. by injection Hw as ->; injection Hp as ->.
Qed.

Lemma PacketLen_is_len_Raw_witness :
  PacketLen received = len (Raw received) /\
  exists m' p',
    mutate_all (E := externals) long_script (mem world1) received = Some (m', p') /\
    PacketLen p' = 45 /\ PacketLen p' = len (Raw p').
Proof.
  assert (Hs : ((fun r => PacketLen r.2) <$>
                mutate_all (E := externals) long_script (mem world1) received)
               = Some 45) by (vm_compute; reflexivity).
  destruct (mutate_all long_script (mem world1) received) as [[m' p']|] eqn:Hm;
    [|discriminate].
  injection Hs as Hs.
  destruct (PacketLen_is_len_Raw (E := externals) None delivers world0 opened
              world1 received None long_script m' p' Recv_sample Hm) as [H1 H2].
  split; [exact H1|]. exists m', p'. split; [reflexivity|]. split; [exact Hs | exact H2].
Defined.




(** The loop of the release, run: three of five bytes zeroed. *)
Example zero_loop_run :
  zero_loop [[1; 2; 3; 4; 5]] five 0 3 = Some [[0; 0; 0; 4; 5]] /\
  zero_loop [[1; 2; 3; 4; 5]] five 0 6 = None.
Proof. split; reflexivity. Qed.

Lemma rewritten_is_sent : rewritten = Some (mem world2, sent).
Proof. by_decide. Qed.

Lemma sent_has_a_byte : is_Some (index (mem world2) (Raw sent) 0).
Proof. exists 69. vm_compute. reflexivity. Qed.

Lemma sent_fits : 0 <= PacketLen sent <= PacketBufferSize.
Proof. unfold PacketBufferSize. simpl. lia. Qed.

Lemma sent_has_IpHdr : parsed sent = true -> is_Some (IpHdr sent).
Proof. intros _. by eexists. Qed.



Lemma sent_as_int : int_of_uint (PacketLen sent) <= PacketBufferSize.
Proof. vm_compute. discriminate. Qed.

Lemma Send_returns_injection_error_only_witness :
  needs_checksum sent = Some true /\
  exists w',
    Packet_Send (E := externals) calc_fails send_fails world2 opened sent
    = Some (w', sent, (0, Some (Errno 1232))) /\
    stdout w' = [Errno 87].
Proof.
  destruct (Send_returns_injection_error_only (E := externals)
              calc_fails send_fails world2 opened sent
              sent_has_IpHdr sent_has_a_byte eq_refl) as [H _].
  destruct (H (or_intror sent_as_int)) as (w' & n & e & Hs & Hfail & _ & Hprint).
  split; [reflexivity|]. exists w'.
  destruct (Hfail eq_refl) as [-> ->]. split; [exact Hs|].
  exact (Hprint eq_refl eq_refl).
Defined.

(** C6 as stated fails: the checksum call fails on a modified packet,
    the injection succeeds, and [Send] returns no error; the failure is
    only printed. *)
Lemma Send_hides_checksum_failure :
  needs_checksum sent = Some true /\
  ((fun r => (stdout r.1.1, r.2)) <$>
   Packet_Send (E := externals) calc_fails send_succeeds world2 opened sent)
  = Some ([Errno 87], (40, None)).
Proof. split; [reflexivity | vm_compute; reflexivity]. Qed.

Lemma ports_fail_iff_no_view_witness :
  VerifyParsed (E := externals) (store_of ip4_proto200) (unparsed 20) = Some parsed_proto200 /\
  NextHeader parsed_proto200 = None /\
  is_Some (SrcPort (E := externals) (store_of ip4_proto200) (unparsed 20)) /\
  forall r, SrcPort (E := externals) (store_of ip4_proto200) (unparsed 20) = Some r ->
            ProtocolNotSupported r.2.2.
Proof.
  assert (Hv : VerifyParsed (E := externals) (store_of ip4_proto200) (unparsed 20)
               = Some parsed_proto200) by reflexivity.
  destruct (ports_fail_iff_no_view (E := externals) (store_of ip4_proto200)
              (unparsed 20) parsed_proto200 80 Hv) as (H1 & _ & _ & _ & H5 & _).
  split; [exact Hv|]. split; [reflexivity|]. split; [exact (proj1 (H5 eq_refl))|].
  intros r Hr. exact (proj2 (H1 r Hr) eq_refl).
Defined.



Lemma Modified_after_one_setter_witness :
  needs_checksum parsed_ip4tcp = Some false /\
  TCPHeader.Modified tcp_view = false /\
  forall f, exists m1 p1 t1,
    on_TCPHeader (E := externals) f (store_of ip4tcp) parsed_ip4tcp = Some (m1, p1) /\
    NextHeader p1 = Some (TCPHeader_ t1) /\
    TCPHeader.Modified t1 = true /\
    needs_checksum p1 = Some true.
Proof.
  destruct (Modified_after_one_setter (E := externals) (store_of ip4tcp)
              (unparsed 40) parsed_ip4tcp) as [H1 H2].
  - apply valid_sample; simpl; lia.
  - reflexivity.
  - split; [exact H1|]. exact (H2 tcp_view eq_refl).
Defined.

(** Writing the port that is already there raises [Modified] too. *)
Example same_value_raises_Modified :
  TCPHeader.SrcPort (store_of ip4tcp) tcp_view = Some (1234, None) /\
  (TCPHeader.SetSrcPort (store_of ip4tcp) tcp_view 1234)
  = Some (store_of ip4tcp, TCPHeader.mk tcp_slice true (Slice 1 40 0 24), None).
Proof. split; reflexivity. Qed.

Lemma HelperCalcChecksum_keeps_PacketLen_witness :
  exists m' p' e,
    WinDivertHandle_HelperCalcChecksum (E := externals) calc_resizes
      (store_of ip4tcp) parsed_ip4tcp = Some (m', p', e) /\
    PacketLen p' = PacketLen parsed_ip4tcp.
Proof.
  apply (HelperCalcChecksum_keeps_PacketLen (E := externals)).
  exists 69. reflexivity.
Defined.

Lemma ParseHeaders_version_dispatch_witness :
  (exists p' view,
     ParseHeaders (E := externals) (store_of ip4tcp) (unparsed 40) = Some p' /\
     ipVersion p' = 4 /\ hdrLen p' = 20 /\ nextHeaderType p' = 6 /\
     IpHdr p' = Some (IPv4Header_ view)) /\
  (exists p' view,
     ParseHeaders (E := externals) (store_of version5) (unparsed 40) = Some p' /\
     ipVersion p' = 5 /\ hdrLen p' = 40 /\ nextHeaderType p' = 200 /\
     IpHdr p' = Some (IPv6Header_ view)).
Proof.
  destruct (ParseHeaders_version_dispatch (E := externals) (store_of ip4tcp)
              (unparsed 40) 69 eq_refl) as (H4 & _).
  destruct (ParseHeaders_version_dispatch (E := externals) (store_of version5)
              (unparsed 40) 80 eq_refl) as (_ & H6 & _).
  split.
  - destruct (H4 eq_refl 6 (Some (TCPHeader_ tcp_view)) eq_refl)
      as (p' & view & H & Hv & Hh & Hn & Hi & _).
    + vm_compute. discriminate.
    + reflexivity.
    + exists p', view. split; [exact H|]. split; [exact Hv|].
      split; [exact Hh|]. split; [exact Hn | exact Hi].
  - destruct (H6 ltac:(discriminate) 200 None eq_refl)
      as (p' & view & H & Hv & Hh & Hn & Hi & _).
    + vm_compute. discriminate.
    + reflexivity.
    + exists p', view. split; [exact H|]. split; [exact Hv|].
      split; [exact Hh|]. split; [exact Hn | exact Hi].
Defined.

End Samples.

(** * Further properties *)

(** ** The bytes of a slice *)

Section BytesFacts.
Import Mem.

Lemma length_bytes m s : valid m s -> length (bytes m s) = Z.to_nat (len s).
Proof.
  intros (Ho & Hl & Ha). unfold bytes. rewrite length_take, length_drop. lia.
Qed.

Lemma bytes_lookup m s (k : nat) :
  0 <= off s -> Z.of_nat k < len s -> bytes m s !! k = index m s (Z.of_nat k).
Proof.
  intros Ho Hk. unfold bytes. rewrite lookup_take_lt by lia.
  rewrite lookup_drop, index_in_range by lia. f_equal. lia.
Qed.

Lemma array_write m s data t :
  array (write m s data) t
  = if decide (ptr t = ptr s)
    then take (Z.to_nat (off s)) (array m s)
         ++ take (length (array m s) - Z.to_nat (off s)) data
         ++ drop (Z.to_nat (off s)
                  + length (take (length (array m s) - Z.to_nat (off s)) data))
                 (array m s)
    else array m t.
Proof. unfold write. apply array_insert. apply write_array_length. Qed.

(** A byte outside the written range is untouched. *)
Lemma index_write_outside m s data t i :
  valid m s -> 0 <= off t + i ->
  (ptr t <> ptr s \/ off t + i < off s \/ off s + Z.of_nat (length data) <= off t + i) ->
  index (write m s data) t i = index m t i.
Proof.
  intros (Ho & Hl & Ha) Hi Hout. unfold index. destruct (_ && _); [|done].
  rewrite array_write. case_decide as Hp; [|done].
  assert (Harr : array m t = array m s) by (unfold array; by rewrite Hp).
  rewrite Harr. set (a := array m s) in *. set (o := Z.to_nat (off s)).
  set (d := take (length a - o) data).
  assert (Hd : (length d <= length data)%nat) by (unfold d; rewrite length_take; lia).
  destruct Hout as [Hne | [Hlt | Hge]]; [done | |].
  - rewrite lookup_app_l by (rewrite length_take; lia).
    apply lookup_take_lt. lia.
  - rewrite lookup_app_r by (rewrite length_take; lia).
    rewrite length_take, Nat.min_l by lia.
    rewrite lookup_app_r by lia. rewrite lookup_drop. f_equal. lia.
Qed.

(** A byte inside the written range is the byte written there. *)
Lemma index_write_inside m s data t i :
  valid m s -> Z.of_nat (length data) <= cap s -> ptr t = ptr s ->
  0 <= i < len t -> off s <= off t + i < off s + Z.of_nat (length data) ->
  index (write m s data) t i = data !! Z.to_nat (off t + i - off s).
Proof.
  intros (Ho & Hl & Ha) Hc Hp Hi Hin. rewrite index_in_range by done.
  rewrite array_write, decide_True by done.
  set (a := array m s) in *. set (o := Z.to_nat (off s)).
  rewrite (take_ge data) by lia.
  rewrite lookup_app_r by (rewrite length_take; lia).
  rewrite length_take, Nat.min_l by lia.
  rewrite lookup_app_l by lia. f_equal. lia.
Qed.

Lemma grows_valid_write m s data t : valid m t -> valid (write m s data) t.
Proof. apply valid_grows, grows_write. Qed.

(** A byte at another address is untouched by a store. *)
Lemma index_store_frame m s i v m' t j :
  store m s i v = Some m' -> 0 <= off s + i -> 0 <= off t + j ->
  (ptr t <> ptr s \/ off t + j <> off s + i) ->
  index m' t j = index m t j.
Proof.
  intros [Hi ->]%store_Some Ho1 Ho2 Hne. unfold index. destruct (_ && _); [|done].
  rewrite array_insert by (by rewrite length_insert).
  case_decide as Hp; [|done].
  destruct Hne as [Hne | Hne]; [done|].
  assert (Harr : array m t = array m s) by (unfold array; by rewrite Hp).
  rewrite Harr. apply list_lookup_insert_ne. lia.
Qed.

(** Two slices with the same bytes at every index have the same
    contents. *)
Lemma bytes_ext m1 s1 m2 s2 :
  valid m1 s1 -> valid m2 s2 -> len s1 = len s2 ->
  (forall i, 0 <= i < len s1 -> index m1 s1 i = index m2 s2 i) ->
  bytes m1 s1 = bytes m2 s2.
Proof.
  intros Hv1 Hv2 Hl Hi.
  apply (list_eq_same_length _ _ (Z.to_nat (len s1)));
    [by rewrite length_bytes, Hl | by rewrite length_bytes |].
  intros k x y Hk Hx Hy.
  rewrite bytes_lookup in Hx by (destruct Hv1; lia).
  rewrite bytes_lookup in Hy by (destruct Hv2; lia).
  rewrite Hi in Hx by lia. congruence.
Qed.

Lemma index_bytes m s i :
  0 <= off s -> 0 <= i < len s -> index m s i = bytes m s !! Z.to_nat i.
Proof.
  intros Ho Hi. rewrite bytes_lookup by lia. f_equal. lia.
Qed.

(** [append] appends: the result holds the bytes of [s] followed by the
    bytes of [v], whether it stayed in the array of [s] or moved. *)
Lemma bytes_append g m s v :
  valid m s -> valid m v ->
  bytes (append g m s v).1 (append g m s v).2 = bytes m s ++ bytes m v /\
  valid (append g m s v).1 (append g m s v).2.
Proof.
  intros Hs Hv. pose proof Hs as (Ho & Hl & Ha). pose proof Hv as (Hov & Hlv & Hav).
  unfold append. destruct (len s + len v <=? cap s) eqn:Hfit; simpl.
  - apply Z.leb_le in Hfit.
    set (w := Slice (ptr s) (off s + len s) (len v) (cap s - len s)).
    set (r := Slice (ptr s) (off s) (len s + len v) (cap s)).
    assert (Hw : valid m w) by (unfold valid, array in *; simpl; lia).
    assert (Hr : valid (write m w (bytes m v)) r).
    { apply grows_valid_write. unfold valid, array in *. simpl. lia. }
    split; [|done].
    apply (list_eq_same_length _ _ (Z.to_nat (len s + len v))).
    { rewrite length_app, !length_bytes by done. lia. }
    { by rewrite length_bytes. }
    intros k x y Hk Hx Hy.
    rewrite bytes_lookup in Hx by (simpl; lia).
    destruct (decide (Z.of_nat k < len s)) as [Hlt | Hge].
    + rewrite index_write_outside in Hx by (try done; simpl; lia).
      rewrite lookup_app_l in Hy by (rewrite length_bytes by done; lia).
      rewrite bytes_lookup in Hy by lia.
      rewrite !index_in_range in * by (simpl; lia). simpl in Hx.
      change (array m r) with (array m s) in Hx. congruence.
    + rewrite index_write_inside in Hx
        by (try done; rewrite ?length_bytes by done; simpl; lia).
      rewrite lookup_app_r in Hy by (rewrite length_bytes by done; lia).
      rewrite length_bytes in Hy by done. simpl in Hx.
      replace (Z.to_nat (off s + Z.of_nat k - (off s + len s)))
        with (k - Z.to_nat (len s))%nat in Hx by lia.
      congruence.
  - apply Z.leb_gt in Hfit.
    set (n := len s + len v). set (c := Z.max n (g (cap s) n)).
    unfold bytes at 1. unfold array. simpl.
    rewrite lookup_app_r, Nat.sub_diag by lia. simpl.
    split.
    + change (Z.to_nat 0) with 0%nat. rewrite drop_0.
      rewrite app_assoc, take_app_le, take_ge; [done | |];
        rewrite length_app, !length_bytes by done; lia.
    + unfold valid, array. simpl.
      rewrite lookup_app_r, Nat.sub_diag by lia. simpl.
      rewrite !length_app, length_replicate, !length_bytes by done. lia.
Qed.

End BytesFacts.

(** ** The fields of a TCP header *)

Section TCPFieldFacts.
Import Mem header.

Lemma untouched_refl m s lo hi : untouched_outside m m s lo hi.
Proof. by intros t j _ _. Qed.

Lemma untouched_store m s i v m' lo hi :
  store m s i v = Some m' -> 0 <= off s -> lo <= i < hi ->
  untouched_outside m m' s lo hi.
Proof.
  intros Hs Ho Hi t j Hj Hout. pose proof (store_Some _ _ _ _ _ Hs) as [Hr _].
  apply (index_store_frame m s i v m' t j Hs); lia.
Qed.

Lemma untouched_trans m1 m2 m3 s lo hi :
  untouched_outside m1 m2 s lo hi -> untouched_outside m2 m3 s lo hi ->
  untouched_outside m1 m3 s lo hi.
Proof. intros H1 H2 t j Hj Hout. by rewrite H2, H1. Qed.

(** The same field of the same slice, read in [m'] as in [m]. *)
Lemma untouched_index m m' s lo hi j :
  untouched_outside m m' s lo hi -> 0 <= off s + j -> (j < lo \/ hi <= j) ->
  index m' s j = index m s j.
Proof. intros H Hj Hout. apply H; [done | lia]. Qed.

Lemma Uint16_reslice m s i b :
  reslice s i (i + 2) = Some b -> i + 2 <= len s ->
  Uint16 m b = (b1 ← index m s (i + 1); b0 ← index m s i; Some (Z.lor b1 (Z.shiftl b0 8))).
Proof.
  intros Hb Hl. unfold Uint16.
  rewrite (index_reslice m s i (i + 2) b 1 Hb) by lia.
  rewrite (index_reslice m s i (i + 2) b 0 Hb) by lia.
  by rewrite Z.add_0_r.
Qed.

Lemma Uint32_reslice m s i b :
  reslice s i (i + 4) = Some b -> i + 4 <= len s ->
  Uint32 m b
  = (b3 ← index m s (i + 3); b0 ← index m s i; b1 ← index m s (i + 1);
     b2 ← index m s (i + 2);
     Some (Z.lor (Z.lor (Z.lor b3 (Z.shiftl b2 8)) (Z.shiftl b1 16)) (Z.shiftl b0 24))).
Proof.
  intros Hb Hl. unfold Uint32.
  rewrite (index_reslice m s i (i + 4) b 3 Hb) by lia.
  rewrite (index_reslice m s i (i + 4) b 0 Hb) by lia.
  rewrite (index_reslice m s i (i + 4) b 1 Hb) by lia.
  rewrite (index_reslice m s i (i + 4) b 2 Hb) by lia.
  by rewrite Z.add_0_r.
Qed.

(** A 16-bit field reads the same when its two bytes do. *)
Lemma Uint16_untouched m m' s lo hi i b :
  untouched_outside m m' s lo hi -> reslice s i (i + 2) = Some b ->
  0 <= off s -> 0 <= i -> i + 2 <= len s -> (i + 2 <= lo \/ hi <= i) ->
  Uint16 m' b = Uint16 m b.
Proof.
  intros Hu Hb Ho Hi Hl Hout.
  rewrite !(Uint16_reslice _ s i b Hb Hl).
  rewrite (untouched_index m m' s lo hi (i + 1)) by (done || lia).
  by rewrite (untouched_index m m' s lo hi i) by (done || lia).
Qed.

Lemma Uint32_untouched m m' s lo hi i b :
  untouched_outside m m' s lo hi -> reslice s i (i + 4) = Some b ->
  0 <= off s -> 0 <= i -> i + 4 <= len s -> (i + 4 <= lo \/ hi <= i) ->
  Uint32 m' b = Uint32 m b.
Proof.
  intros Hu Hb Ho Hi Hl Hout.
  rewrite !(Uint32_reslice _ s i b Hb Hl).
  rewrite (untouched_index m m' s lo hi (i + 3)) by (done || lia).
  rewrite (untouched_index m m' s lo hi i) by (done || lia).
  rewrite (untouched_index m m' s lo hi (i + 1)) by (done || lia).
  by rewrite (untouched_index m m' s lo hi (i + 2)) by (done || lia).
Qed.

(** Two stores of the high and the low byte, read back as 16 bits. *)
Lemma store16 m s i x :
  valid m s -> 0 <= i -> i + 2 <= len s -> 0 <= x < 65536 ->
  exists m1 m2 b,
    store m s i (uint8 (Z.shiftr x 8)) = Some m1 /\
    store m1 s (i + 1) (uint8 (Z.land x 255)) = Some m2 /\
    reslice s i (i + 2) = Some b /\
    Uint16 m2 b = Some x /\
    untouched_outside m m2 s i (i + 2).
Proof.
  intros Hv Hi Hl Hx. pose proof Hv as (Ho & Hlc & Ha).
  destruct (store m s i (uint8 (Z.shiftr x 8))) as [m1|] eqn:H1;
    [|by rewrite store_in_range in H1 by lia].
  destruct (store m1 s (i + 1) (uint8 (Z.land x 255))) as [m2|] eqn:H2;
    [|by rewrite store_in_range in H2 by lia].
  assert (Hb : reslice s i (i + 2)
               = Some (Slice (ptr s) (off s + i) (i + 2 - i) (cap s - i)))
    by (apply reslice_ok; lia).
  eexists m1, m2, _. repeat split; try done.
  - rewrite (Uint16_reslice m2 s i _ Hb Hl).
    rewrite (index_store_eq m1 s (i + 1) _ m2)
      by (done || (eapply valid_grows; [by eapply grows_store | done])).
    simpl.
    rewrite (index_store_ne m1 s (i + 1) _ m2 i H2) by lia.
    rewrite (index_store_eq m s i _ m1) by done.
    simpl. by rewrite hi_lo_recombine.
  - eapply untouched_trans; eapply untouched_store; (done || lia).
Qed.

(** The source port is written at bytes 0-1, the destination port at
    bytes 2-3. *)
Lemma SetSrcPort_Some m h port m1 m2 :
  store m (TCPHeader.Raw h) 0 (uint8 (Z.shiftr port 8)) = Some m1 ->
  store m1 (TCPHeader.Raw h) (0 + 1) (uint8 (Z.land port 255)) = Some m2 ->
  TCPHeader.SetSrcPort m h port
  = Some (m2, TCPHeader.mk (TCPHeader.Raw h) true (TCPHeader.Payload h), None).
Proof.
  intros H1 H2. change (0 + 1) with 1 in H2.
  unfold TCPHeader.SetSrcPort. simpl. rewrite H1. simpl. by rewrite H2.
Qed.

Lemma SetDstPort_Some m h port m1 m2 :
  store m (TCPHeader.Raw h) 2 (uint8 (Z.shiftr port 8)) = Some m1 ->
  store m1 (TCPHeader.Raw h) (2 + 1) (uint8 (Z.land port 255)) = Some m2 ->
  TCPHeader.SetDstPort m h port
  = Some (m2, TCPHeader.mk (TCPHeader.Raw h) true (TCPHeader.Payload h), None).
Proof.
  intros H1 H2. change (2 + 1) with 3 in H2.
  unfold TCPHeader.SetDstPort. simpl. rewrite H1. simpl. by rewrite H2.
Qed.

(** X1: on a TCP view of at least 4 bytes, [SetSrcPort] followed by
    [SrcPort] returns the port written, for every 16-bit port, and leaves
    what [DstPort] returns as it was; the same holds with the two ports
    exchanged. *)
Theorem TCP_ports_round_trip m h port :
  valid m (TCPHeader.Raw h) -> 4 <= len (TCPHeader.Raw h) -> 0 <= port < 65536 ->
  (exists m' h',
     TCPHeader.SetSrcPort m h port = Some (m', h', None) /\
     TCPHeader.SrcPort m' h' = Some (port, None) /\
     TCPHeader.DstPort m' h' = TCPHeader.DstPort m h) /\
  (exists m' h',
     TCPHeader.SetDstPort m h port = Some (m', h', None) /\
     TCPHeader.DstPort m' h' = Some (port, None) /\
     TCPHeader.SrcPort m' h' = TCPHeader.SrcPort m h).
Proof.
  intros Hv Hl Hp. pose proof Hv as (Ho & Hlc & Ha). split.
  - destruct (store16 m (TCPHeader.Raw h) 0 port) as (m1 & m2 & b & H1 & H2 & Hb & Hr & Hu);
      [done | lia | lia | done |].
    eexists _, _. split; [by eapply SetSrcPort_Some|].
    unfold TCPHeader.SrcPort, TCPHeader.DstPort. simpl.
    change (0 + 2) with 2 in Hb. rewrite Hb. simpl. rewrite Hr. split; [done|].
    destruct (reslice (TCPHeader.Raw h) 2 4) as [b'|] eqn:Hb'; [|done]. simpl.
    by rewrite (Uint16_untouched m m2 (TCPHeader.Raw h) 0 (0 + 2) 2 b' Hu Hb') by lia.
  - destruct (store16 m (TCPHeader.Raw h) 2 port) as (m1 & m2 & b & H1 & H2 & Hb & Hr & Hu);
      [done | lia | lia | done |].
    eexists _, _. split; [by eapply SetDstPort_Some|].
    unfold TCPHeader.SrcPort, TCPHeader.DstPort. simpl.
    change (2 + 2) with 4 in Hb. rewrite Hb. simpl. rewrite Hr. split; [done|].
    destruct (reslice (TCPHeader.Raw h) 0 2) as [b'|] eqn:Hb'; [|done]. simpl.
    by rewrite (Uint16_untouched m m2 (TCPHeader.Raw h) 2 (2 + 2) 0 b' Hu Hb') by lia.
Qed.

Lemma testbit_uint8 a n :
  0 <= n -> Z.testbit (uint8 a) n = if n <? 8 then Z.testbit a n else false.
Proof.
  intros Hn. unfold uint8. change 256 with (2 ^ 8).
  destruct (n <? 8) eqn:H; [apply Z.ltb_lt in H | apply Z.ltb_ge in H].
  - by apply Z.mod_pow2_bits_low.
  - apply Z.mod_pow2_bits_high. lia.
Qed.

(** The byte of [a] that starts at bit [k], put back at bit [k]. *)
Lemma testbit_byte_at a k n :
  0 <= k -> 0 <= n ->
  Z.testbit (Z.shiftl (uint8 (Z.shiftr a k)) k) n
  = if (k <=? n) && (n <? k + 8) then Z.testbit a n else false.
Proof.
  intros Hk Hn. rewrite Z.shiftl_spec by done.
  destruct (k <=? n) eqn:H1; [apply Z.leb_le in H1 | apply Z.leb_gt in H1]; simpl.
  - rewrite testbit_uint8 by lia. rewrite Z.shiftr_spec by lia.
    replace (n - k + k) with n by lia.
    destruct (n - k <? 8) eqn:H2, (n <? k + 8) eqn:H3; try done;
      [apply Z.ltb_lt in H2; apply Z.ltb_ge in H3 |
       apply Z.ltb_ge in H2; apply Z.ltb_lt in H3]; lia.
  - apply Z.testbit_neg_r. lia.
Qed.

Lemma bytes32_recombine x :
  0 <= x < 2 ^ 32 ->
  Z.lor (Z.lor (Z.lor (uint8 x) (Z.shiftl (uint8 (Z.shiftr x 8)) 8))
               (Z.shiftl (uint8 (Z.shiftr x 16)) 16))
        (Z.shiftl (uint8 (Z.shiftr x 24)) 24)
  = x.
Proof.
  intros Hx. apply Z.bits_inj'. intros n Hn.
  rewrite !Z.lor_spec, !testbit_byte_at, testbit_uint8 by lia.
  assert (Hhigh : 32 <= n -> Z.testbit x n = false).
  { intros H32. rewrite <- (Z.mod_small x (2 ^ 32)) by done.
    apply Z.mod_pow2_bits_high. lia. }
  repeat (match goal with
          | |- context [?a <=? ?b] => destruct (Z.leb_spec a b); try lia
          | |- context [?a <? ?b] => destruct (Z.ltb_spec a b); try lia
          end); simpl; rewrite ?orb_false_r; try done.
  symmetry. apply Hhigh. lia.
Qed.

(** [PutUint32] on a 4-byte slice, read back by [Uint32]. *)
Lemma store32 m b v :
  valid m b -> len b = 4 -> 0 <= v < 2 ^ 32 ->
  exists m', PutUint32 m b v = Some m' /\ Uint32 m' b = Some v /\
             untouched_outside m m' b 0 4.
Proof.
  intros Hv Hl Hx. pose proof Hv as (Ho & Hlc & Ha).
  unfold PutUint32.
  destruct (index m b 3) as [x3|] eqn:H3.
  2:{ rewrite index_in_range in H3 by lia.
      apply eq_None_not_Some in H3. destruct H3.
      apply lookup_lt_is_Some. lia. }
  simpl.
  destruct (store m b 0 (uint8 (Z.shiftr v 24))) as [m1|] eqn:S0;
    [|by rewrite store_in_range in S0 by lia].
  simpl.
  destruct (store m1 b 1 (uint8 (Z.shiftr v 16))) as [m2|] eqn:S1;
    [|by rewrite store_in_range in S1 by lia].
  simpl.
  destruct (store m2 b 2 (uint8 (Z.shiftr v 8))) as [m3|] eqn:S2;
    [|by rewrite store_in_range in S2 by lia].
  simpl.
  destruct (store m3 b 3 (uint8 v)) as [m4|] eqn:S3;
    [|by rewrite store_in_range in S3 by lia].
  assert (V1 : valid m1 b) by (eapply valid_grows; [by eapply grows_store | done]).
  assert (V2 : valid m2 b) by (eapply valid_grows; [by eapply grows_store | done]).
  assert (V3 : valid m3 b) by (eapply valid_grows; [by eapply grows_store | done]).
  exists m4. split; [done|]. split.
  - unfold Uint32.
    rewrite (index_store_eq m3 b 3 _ m4 V3 S3). simpl.
    rewrite (index_store_ne m3 b 3 _ m4 0 S3) by lia.
    rewrite (index_store_ne m2 b 2 _ m3 0 S2) by lia.
    rewrite (index_store_ne m1 b 1 _ m2 0 S1) by lia.
    rewrite (index_store_eq m b 0 _ m1 Hv S0). simpl.
    rewrite (index_store_ne m3 b 3 _ m4 1 S3) by lia.
    rewrite (index_store_ne m2 b 2 _ m3 1 S2) by lia.
    rewrite (index_store_eq m1 b 1 _ m2 V1 S1). simpl.
    rewrite (index_store_ne m3 b 3 _ m4 2 S3) by lia.
    rewrite (index_store_eq m2 b 2 _ m3 V2 S2). simpl.
    by rewrite bytes32_recombine.
  - eapply untouched_trans; [|by eapply untouched_store; [done | lia | lia]].
    eapply untouched_trans; [|by eapply untouched_store; [done | lia | lia]].
    eapply untouched_trans; [|by eapply untouched_store; [done | lia | lia]].
    by eapply untouched_store; [done | lia | lia].
Qed.

(** What is untouched outside a sub-slice is untouched outside that part
    of the slice. *)
Lemma untouched_reslice m m' s lo hi b :
  reslice s lo hi = Some b -> untouched_outside m m' b 0 (hi - lo) ->
  untouched_outside m m' s lo hi.
Proof.
  intros (H1 & H2 & ->)%reslice_Some Hu t j Hj Hout. apply Hu; [done|]. simpl. lia.
Qed.

Lemma valid_reslice m s lo hi b :
  valid m s -> reslice s lo hi = Some b -> valid m b.
Proof.
  intros (Ho & Hl & Ha) (H1 & H2 & ->)%reslice_Some.
  unfold valid, array in *. simpl. lia.
Qed.

(** X2: on a TCP view of at least 12 bytes, [SetSeqNum] followed by
    [SeqNum] returns the 32-bit number written and leaves [AckNum] as it
    was; the same holds with the two numbers exchanged. *)
Theorem TCP_seq_ack_round_trip m h v :
  valid m (TCPHeader.Raw h) -> 12 <= len (TCPHeader.Raw h) -> 0 <= v < 2 ^ 32 ->
  (exists m' h',
     TCPHeader.SetSeqNum m h v = Some (m', h', None) /\
     TCPHeader.SeqNum m' h' = Some v /\
     TCPHeader.AckNum m' h' = TCPHeader.AckNum m h) /\
  (exists m' h',
     TCPHeader.SetAckNum m h v = Some (m', h', None) /\
     TCPHeader.AckNum m' h' = Some v /\
     TCPHeader.SeqNum m' h' = TCPHeader.SeqNum m h).
Proof.
  intros Hv Hl Hx. pose proof Hv as (Ho & Hlc & Ha).
  set (raw := TCPHeader.Raw h) in *.
  assert (H48 : reslice raw 4 8 = Some (Slice (ptr raw) (off raw + 4) (8 - 4) (cap raw - 4)))
    by (apply reslice_ok; lia).
  assert (H812 : reslice raw 8 12
                 = Some (Slice (ptr raw) (off raw + 8) (12 - 8) (cap raw - 8)))
    by (apply reslice_ok; lia).
  split.
  - destruct (store32 m _ v (valid_reslice _ _ _ _ _ Hv H48) eq_refl Hx)
      as (m' & Hput & Hget & Hu).
    exists m', (TCPHeader.mk raw true (TCPHeader.Payload h)).
    unfold TCPHeader.SetSeqNum, TCPHeader.SeqNum, TCPHeader.AckNum.
    simpl. fold raw. rewrite H48, H812. simpl. rewrite Hput. simpl.
    split; [done|]. split; [exact Hget|].
    apply (Uint32_untouched m m' raw 4 8 8 _ (untouched_reslice _ _ _ _ _ _ H48 Hu) H812);
      lia.
  - destruct (store32 m _ v (valid_reslice _ _ _ _ _ Hv H812) eq_refl Hx)
      as (m' & Hput & Hget & Hu).
    exists m', (TCPHeader.mk raw true (TCPHeader.Payload h)).
    unfold TCPHeader.SetAckNum, TCPHeader.SeqNum, TCPHeader.AckNum.
    simpl. fold raw. rewrite H48, H812. simpl. rewrite Hput. simpl.
    split; [done|]. split; [exact Hget|].
    apply (Uint32_untouched m m' raw 8 12 4 _ (untouched_reslice _ _ _ _ _ _ H812 Hu) H48);
      lia.
Qed.

Lemma PutUint32_untouched m b v m' :
  PutUint32 m b v = Some m' -> 0 <= off b -> untouched_outside m m' b 0 4.
Proof.
  unfold PutUint32. intros H Ho.
  destruct (index m b 3); simpl in H; [|discriminate].
  destruct (store m b 0 _) as [m1|] eqn:S0; simpl in H; [|discriminate].
  destruct (store m1 b 1 _) as [m2|] eqn:S1; simpl in H; [|discriminate].
  destruct (store m2 b 2 _) as [m3|] eqn:S2; simpl in H; [|discriminate].
  eapply untouched_trans; [|by eapply untouched_store; [done | lia | lia]].
  eapply untouched_trans; [|by eapply untouched_store; [done | lia | lia]].
  eapply untouched_trans; [|by eapply untouched_store; [done | lia | lia]].
  by eapply untouched_store; [done | lia | lia].
Qed.

(** A 16-bit field behind the written bytes reads the same, also where
    it lies behind the length of the slice. *)
Lemma Uint16_behind m m' s lo hi i :
  untouched_outside m m' s lo hi -> 0 <= off s -> hi <= i ->
  (b ← reslice s i (i + 2); Uint16 m' b) = (b ← reslice s i (i + 2); Uint16 m b).
Proof.
  intros Hu Ho Hi. destruct (reslice s i (i + 2)) as [b|] eqn:Hb; [|done]. simpl.
  apply reslice_Some in Hb as (H1 & H2 & ->). unfold Uint16.
  rewrite (Hu _ 1), (Hu _ 0) by (simpl; lia). done.
Qed.

Lemma call_field g f m h m' h' lo hi :
  TCPHeader.field f = Some (lo, hi) ->
  TCPHeader.call g f m h = Some (m', h') ->
  0 <= off (TCPHeader.Raw h) ->
  h' = TCPHeader.mk (TCPHeader.Raw h) true (TCPHeader.Payload h) /\
  untouched_outside m m' (TCPHeader.Raw h) lo hi /\ 0 <= lo /\ hi <= 12.
Proof.
  intros Hf Hc Ho. destruct f; simpl in Hf, Hc; try discriminate;
    injection Hf as <- <-.
  - unfold TCPHeader.SetSrcPort in Hc. simpl in Hc.
    destruct (store m _ 0 _) as [m1|] eqn:S0; simpl in Hc; [|discriminate].
    destruct (store m1 _ 1 _) as [m2|] eqn:S1; simpl in Hc; [|discriminate].
    injection Hc as <- <-. split; [done|]. split; [|lia].
    eapply untouched_trans; eapply untouched_store; (done || lia).
  - unfold TCPHeader.SetDstPort in Hc. simpl in Hc.
    destruct (store m _ 2 _) as [m1|] eqn:S0; simpl in Hc; [|discriminate].
    destruct (store m1 _ 3 _) as [m2|] eqn:S1; simpl in Hc; [|discriminate].
    injection Hc as <- <-. split; [done|]. split; [|lia].
    eapply untouched_trans; eapply untouched_store; (done || lia).
  - unfold TCPHeader.SetSeqNum in Hc. simpl in Hc.
    destruct (reslice _ 4 8) as [b|] eqn:Hb; simpl in Hc; [|discriminate].
    destruct (PutUint32 m b seqNum) as [m1|] eqn:Hp; simpl in Hc; [|discriminate].
    injection Hc as <- <-. split; [done|]. split; [|lia].
    apply (untouched_reslice _ _ _ 4 8 b Hb). apply (PutUint32_untouched _ _ _ _ Hp).
    apply reslice_Some in Hb as (_ & _ & ->). simpl. lia.
  - unfold TCPHeader.SetAckNum in Hc. simpl in Hc.
    destruct (reslice _ 8 12) as [b|] eqn:Hb; simpl in Hc; [|discriminate].
    destruct (PutUint32 m b ackNum) as [m1|] eqn:Hp; simpl in Hc; [|discriminate].
    injection Hc as <- <-. split; [done|]. split; [|lia].
    apply (untouched_reslice _ _ _ 8 12 b Hb). apply (PutUint32_untouched _ _ _ _ Hp).
    apply reslice_Some in Hb as (_ & _ & ->). simpl. lia.
Qed.

(** X3: SetSrcPort, SetDstPort, SetSeqNum and SetAckNum write the bytes of
    their own field and nothing else: the view keeps its [Raw] and
    [Payload] slices, no byte of the store outside the field changes, and
    so the header length, the reserved bits, the nine flags, the window,
    the checksum and the urgent pointer read as before. *)
Theorem TCP_setter_writes_only_its_field g f m h m' h' lo hi :
  TCPHeader.field f = Some (lo, hi) ->
  0 <= off (TCPHeader.Raw h) ->
  TCPHeader.call g f m h = Some (m', h') ->
  TCPHeader.Raw h' = TCPHeader.Raw h /\
  TCPHeader.Payload h' = TCPHeader.Payload h /\
  untouched_outside m m' (TCPHeader.Raw h) lo hi /\
  TCPHeader.HeaderLen m' h' = TCPHeader.HeaderLen m h /\
  TCPHeader.Reserved m' h' = TCPHeader.Reserved m h /\
  [TCPHeader.NS m' h'; TCPHeader.CWR m' h'; TCPHeader.ECE m' h'; TCPHeader.URG m' h';
   TCPHeader.ACK m' h'; TCPHeader.PSH m' h'; TCPHeader.RST m' h'; TCPHeader.SYN m' h';
   TCPHeader.FIN m' h']
  = [TCPHeader.NS m h; TCPHeader.CWR m h; TCPHeader.ECE m h; TCPHeader.URG m h;
     TCPHeader.ACK m h; TCPHeader.PSH m h; TCPHeader.RST m h; TCPHeader.SYN m h;
     TCPHeader.FIN m h] /\
  TCPHeader.Window m' h' = TCPHeader.Window m h /\
  TCPHeader.Checksum m' h' = TCPHeader.Checksum m h /\
  TCPHeader.UrgPtr m' h' = TCPHeader.UrgPtr m h.
Proof.
  intros Hf Ho Hc.
  destruct (call_field g f m h m' h' lo hi Hf Hc Ho) as (-> & Hu & Hlo & Hhi).
  assert (H12 : index m' (TCPHeader.Raw h) 12 = index m (TCPHeader.Raw h) 12)
    by (apply (untouched_index m m' _ lo hi); (done || lia)).
  assert (H13 : index m' (TCPHeader.Raw h) 13 = index m (TCPHeader.Raw h) 13)
    by (apply (untouched_index m m' _ lo hi); (done || lia)).
  split; [done|]. split; [done|]. split; [done|].
  unfold TCPHeader.HeaderLen, TCPHeader.DataOffset, TCPHeader.Reserved, TCPHeader.NS,
    TCPHeader.CWR, TCPHeader.ECE, TCPHeader.URG, TCPHeader.ACK, TCPHeader.PSH,
    TCPHeader.RST, TCPHeader.SYN, TCPHeader.FIN, TCPHeader.Window, TCPHeader.Checksum,
    TCPHeader.UrgPtr.
  simpl. rewrite H12, H13.
  split; [done|]. split; [done|]. split; [done|].
  split; [|split]; apply (Uint16_behind m m' _ lo hi); (done || lia).
Qed.

(** A property of every byte value, checked on the 256 of them. *)
Lemma byte_cases (P : Z -> bool) :
  forallb P (List.map Z.of_nat (seq 0 256)) = true ->
  forall b, 0 <= b < 256 -> P b = true.
Proof.
  intros H b Hb. rewrite forallb_forall in H. apply H.
  apply in_map_iff. exists (Z.to_nat b). split; [lia|]. apply in_seq. lia.
Qed.

Lemma byte12_fields b :
  0 <= b < 256 ->
  b = 16 * Z.shiftr b 4 + 2 * Z.land (Z.shiftr b 1) 7 + Z.b2z (Z.land b 1 =? 1) /\
  0 <= Z.shiftr b 4 < 16 /\ 0 <= Z.land (Z.shiftr b 1) 7 < 8 /\
  uint8 (Z.shiftr b 4 * 4) = Z.shiftr b 4 * 4.
Proof.
  intros Hb.
  pose proof (byte_cases
    (fun b => (b =? 16 * Z.shiftr b 4 + 2 * Z.land (Z.shiftr b 1) 7
                    + Z.b2z (Z.land b 1 =? 1))
              && (0 <=? Z.shiftr b 4) && (Z.shiftr b 4 <? 16)
              && (0 <=? Z.land (Z.shiftr b 1) 7) && (Z.land (Z.shiftr b 1) 7 <? 8)
              && (uint8 (Z.shiftr b 4 * 4) =? Z.shiftr b 4 * 4))
    eq_refl b Hb) as H.
  repeat (apply andb_prop in H as [H ?]).
  repeat split; lia.
Qed.

Lemma byte13_flags b :
  0 <= b < 256 ->
  b = 128 * Z.b2z (Z.shiftr b 7 =? 1)
      + 64 * Z.b2z (Z.land (Z.shiftr b 6) 1 =? 1)
      + 32 * Z.b2z (Z.land (Z.shiftr b 5) 1 =? 1)
      + 16 * Z.b2z (Z.land (Z.shiftr b 4) 1 =? 1)
      + 8 * Z.b2z (Z.land (Z.shiftr b 3) 1 =? 1)
      + 4 * Z.b2z (Z.land (Z.shiftr b 2) 1 =? 1)
      + 2 * Z.b2z (Z.land (Z.shiftr b 1) 1 =? 1)
      + Z.b2z (Z.land b 1 =? 1).
Proof.
  intros Hb.
  pose proof (byte_cases
    (fun b => b =? 128 * Z.b2z (Z.shiftr b 7 =? 1)
                   + 64 * Z.b2z (Z.land (Z.shiftr b 6) 1 =? 1)
                   + 32 * Z.b2z (Z.land (Z.shiftr b 5) 1 =? 1)
                   + 16 * Z.b2z (Z.land (Z.shiftr b 4) 1 =? 1)
                   + 8 * Z.b2z (Z.land (Z.shiftr b 3) 1 =? 1)
                   + 4 * Z.b2z (Z.land (Z.shiftr b 2) 1 =? 1)
                   + 2 * Z.b2z (Z.land (Z.shiftr b 1) 1 =? 1)
                   + Z.b2z (Z.land b 1 =? 1))
    eq_refl b Hb) as H.
  by apply Z.eqb_eq in H.
Qed.

(** X4: the getters of bytes 12 and 13 read every bit of the two bytes
    exactly once: byte 12 is the data offset (0..15) times 16 plus the
    reserved bits (0..7) times 2 plus NS, byte 13 is the eight flags from
    CWR (128) down to FIN (1); the header length is four times the data
    offset, at most 60. *)
Theorem TCP_bytes_12_13_decoded m h b12 b13 :
  index m (TCPHeader.Raw h) 12 = Some b12 -> 0 <= b12 < 256 ->
  index m (TCPHeader.Raw h) 13 = Some b13 -> 0 <= b13 < 256 ->
  exists d r ns cwr ece urg ack psh rst syn fin,
    TCPHeader.DataOffset m h = Some d /\ TCPHeader.Reserved m h = Some r /\
    TCPHeader.NS m h = Some ns /\ TCPHeader.CWR m h = Some cwr /\
    TCPHeader.ECE m h = Some ece /\ TCPHeader.URG m h = Some urg /\
    TCPHeader.ACK m h = Some ack /\ TCPHeader.PSH m h = Some psh /\
    TCPHeader.RST m h = Some rst /\ TCPHeader.SYN m h = Some syn /\
    TCPHeader.FIN m h = Some fin /\
    TCPHeader.HeaderLen m h = Some (4 * d) /\
    0 <= d < 16 /\ 0 <= r < 8 /\
    b12 = 16 * d + 2 * r + Z.b2z ns /\
    b13 = 128 * Z.b2z cwr + 64 * Z.b2z ece + 32 * Z.b2z urg + 16 * Z.b2z ack
          + 8 * Z.b2z psh + 4 * Z.b2z rst + 2 * Z.b2z syn + Z.b2z fin.
Proof.
  intros H12 Hb12 H13 Hb13.
  destruct (byte12_fields b12 Hb12) as (E12 & Hd & Hr & _).
  pose proof (byte13_flags b13 Hb13) as E13.
  unfold TCPHeader.HeaderLen, TCPHeader.DataOffset, TCPHeader.Reserved, TCPHeader.NS,
    TCPHeader.CWR, TCPHeader.ECE, TCPHeader.URG, TCPHeader.ACK, TCPHeader.PSH,
    TCPHeader.RST, TCPHeader.SYN, TCPHeader.FIN.
  rewrite H12, H13. simpl.
  eexists _, _, _, _, _, _, _, _, _, _, _.
  repeat (split; [reflexivity|]).
  split; [f_equal; lia|]. split; [exact Hd|]. split; [exact Hr|].
  split; [exact E12 | exact E13].
Qed.

(** The bytes of a sub-slice cut inside the length of a slice. *)
Lemma bytes_reslice m s lo hi b :
  valid m s -> reslice s lo hi = Some b -> hi <= len s ->
  bytes m b = take (Z.to_nat (hi - lo)) (drop (Z.to_nat lo) (bytes m s)).
Proof.
  intros Hv Hb Hhi. pose proof Hv as (Ho & Hl & Ha).
  pose proof (valid_reslice _ _ _ _ _ Hv Hb) as Hvb.
  pose proof (reslice_Some _ _ _ _ Hb) as (H1 & H2 & Hbe).
  assert (Hlb : len b = hi - lo) by (by subst b).
  apply (list_eq_same_length _ _ (Z.to_nat (hi - lo))).
  { rewrite length_take, length_drop, length_bytes by done. lia. }
  { rewrite length_bytes by done. lia. }
  intros k x y Hk Hx Hy.
  rewrite bytes_lookup in Hx by (destruct Hvb; lia).
  rewrite (index_reslice m s lo hi b _ Hb) in Hx by lia.
  rewrite lookup_take_lt, lookup_drop, bytes_lookup in Hy by lia.
  replace (Z.of_nat (Z.to_nat lo + k)) with (lo + Z.of_nat k) in Hy by lia.
  congruence.
Qed.

Lemma tile3 {A} (l : list A) (a b : nat) :
  (a <= b)%nat -> l = take a l ++ take (b - a) (drop a l) ++ drop b l.
Proof.
  intros Hab. rewrite <- (take_drop a l) at 1. f_equal.
  rewrite <- (take_drop (b - a) (drop a l)) at 1. f_equal.
  rewrite drop_drop. f_equal. lia.
Qed.

(** X5: a TCP view built over a slice whose byte 12 is a byte splits it
    at the header length [hl] = 4 * (byte 12 >> 4): the payload is
    everything from [hl] on, the options are nil for [hl <= 20] and the
    bytes 20..hl-1 otherwise, and for [hl >= 20] the 20 fixed bytes, the
    options and the payload make up the slice, in this order. *)
Theorem TCP_header_options_payload m raw h b12 :
  valid m raw -> NewTCPHeader m raw = Some h ->
  index m raw 12 = Some b12 -> 0 <= b12 < 256 ->
  exists hl o,
    TCPHeader.HeaderLen m h = Some hl /\ hl = 4 * Z.shiftr b12 4 /\ 0 <= hl <= 60 /\
    TCPHeader.Options m h = Some o /\
    len (TCPHeader.GetPayload h) = len raw - hl /\
    bytes m (TCPHeader.GetPayload h) = drop (Z.to_nat hl) (bytes m raw) /\
    (hl <= 20 -> o = Mem.nil) /\
    (20 <= hl ->
       len o = hl - 20 /\
       bytes m raw
       = take 20 (bytes m raw) ++ bytes m o ++ bytes m (TCPHeader.GetPayload h)).
Proof.
  intros Hv Hn H12 Hb. pose proof Hv as (Ho & Hl & Ha).
  apply NewTCPHeader_Some in Hn as (b & hl & Hb12 & Hhl & Hr & ->).
  rewrite H12 in Hb12. injection Hb12 as <-.
  destruct (byte12_fields b12 Hb) as (_ & Hd & _ & Hw). rewrite Hw in Hhl.
  unfold TCPHeader.HeaderLen, TCPHeader.DataOffset, TCPHeader.Options,
    TCPHeader.GetPayload, TCPHeader.HeaderLen, TCPHeader.DataOffset, TCPHeaderLen.
  simpl. rewrite H12. simpl. rewrite <- Hhl.
  set (pay := Slice (ptr raw) (off raw + hl) (len raw - hl) (cap raw - hl)).
  assert (Hpay : reslice raw hl (len raw) = Some pay) by (apply reslice_ok; lia).
  assert (Hbp : bytes m pay = drop (Z.to_nat hl) (bytes m raw)).
  { rewrite (bytes_reslice m raw hl (len raw) pay Hv Hpay) by lia.
    apply take_ge. rewrite length_drop, length_bytes by done. lia. }
  destruct (hl <=? 20) eqn:Hle; [apply Z.leb_le in Hle | apply Z.leb_gt in Hle].
  - exists hl, Mem.nil. repeat split; try done; try lia.
    + simpl. lia.
    + assert (hl = 20) as -> by lia.
      rewrite Hbp. unfold bytes at 3. simpl. by rewrite take_drop.
  - assert (Hopt : reslice raw 20 hl
                   = Some (Slice (ptr raw) (off raw + 20) (hl - 20) (cap raw - 20)))
      by (apply reslice_ok; lia).
    rewrite Hopt. eexists hl, _. repeat split; try done; try lia.
    rewrite Hbp.
    rewrite (bytes_reslice m raw 20 hl _ Hv Hopt) by lia.
    change (Z.to_nat 20) with 20%nat.
    replace (Z.to_nat (hl - 20)) with (Z.to_nat hl - 20)%nat by lia.
    apply tile3. lia.
Qed.

(** Writing [data] behind the first [n] bytes of a slice, within its
    capacity: the slice of [n + length data] bytes then holds its first
    [n] bytes followed by [data]. *)
Lemma bytes_write_behind m s n data w r :
  valid m s -> 0 <= n -> n + Z.of_nat (length data) <= cap s ->
  ptr w = ptr s -> off w = off s + n ->
  ptr r = ptr s -> off r = off s -> len r = n + Z.of_nat (length data) ->
  bytes (write m w data) r
  = take (Z.to_nat n) (drop (Z.to_nat (off s)) (array m s)) ++ data.
Proof.
  intros Hv Hn Hfit Hpw How Hpr Hor Hlr. pose proof Hv as (Ho & Hl & Ha).
  assert (Hw : valid m (Slice (ptr s) (off s + n) 0 (cap s - n)))
    by (unfold valid, array in *; simpl; lia).
  assert (Heq : write m w data = write m (Slice (ptr s) (off s + n) 0 (cap s - n)) data).
  { unfold write, array. simpl. by rewrite Hpw, How. }
  rewrite Heq. clear Heq.
  apply (list_eq_same_length _ _ (Z.to_nat (len r))).
  { rewrite length_app, length_take, length_drop. lia. }
  { unfold bytes. rewrite length_take, length_drop.
    pose proof (grows_write m (Slice (ptr s) (off s + n) 0 (cap s - n)) data (ptr s)) as G.
    unfold array in *. rewrite Hpr. lia. }
  intros k x y Hk Hx Hy.
  rewrite bytes_lookup in Hx by lia.
  destruct (decide (Z.of_nat k < n)) as [Hlt | Hge].
  - rewrite index_write_outside in Hx by (try done; simpl; lia).
    rewrite lookup_app_l in Hy by (rewrite length_take, length_drop; lia).
    rewrite lookup_take_lt, lookup_drop in Hy by lia.
    rewrite index_in_range in Hx by lia.
    assert (Harr : array m r = array m s) by (unfold array; by rewrite Hpr).
    rewrite Harr, Hor in Hx.
    replace (Z.to_nat (off s + Z.of_nat k)) with (Z.to_nat (off s) + k)%nat in Hx by lia.
    congruence.
  - rewrite index_write_inside in Hx by (try done; simpl; lia).
    rewrite lookup_app_r in Hy by (rewrite length_take, length_drop; lia).
    rewrite length_take, length_drop in Hy. simpl in Hx.
    replace (Z.to_nat (off r + Z.of_nat k - (off s + n)))
      with (k - Z.to_nat n `min` (length (array m s) - Z.to_nat (off s)))%nat in Hx by lia.
    congruence.
Qed.

Lemma bytes_take m s n :
  0 <= n <= len s ->
  take (Z.to_nat n) (drop (Z.to_nat (off s)) (array m s)) = take (Z.to_nat n) (bytes m s).
Proof.
  intros Hn. unfold bytes. rewrite take_take. f_equal. lia.
Qed.

(** [append] leaves alone what lies before the end of [s] and every other
    array of the store. *)
Lemma append_frame g m s v t j :
  valid m s -> 0 <= len v -> 0 <= off t + j -> (ptr t < length m)%nat ->
  (ptr t <> ptr s \/ off t + j < off s + len s) ->
  index (append g m s v).1 t j = index m t j.
Proof.
  intros Hv Hlv Hj Hp Hout. pose proof Hv as (Ho & Hl & Ha). unfold append.
  destruct (_ <=? _) eqn:Hfit; simpl.
  - apply Z.leb_le in Hfit. apply index_write_outside; [| done | simpl; lia].
    unfold valid, array in *. simpl. lia.
  - unfold index, array. destruct (_ && _); [|done].
    by rewrite lookup_app_l by done.
Qed.

Lemma SetPayload_spec g m h val hl :
  valid m (TCPHeader.Raw h) -> valid m val ->
  TCPHeader.hdrLen_of m (TCPHeader.Raw h) = Some hl ->
  hl <= len (TCPHeader.Raw h) ->
  len (TCPHeader.Payload h) = len (TCPHeader.Raw h) - hl ->
  exists m' h',
    TCPHeader.SetPayload g m h val = Some (m', h') /\
    TCPHeader.GetPayload h' = val /\
    valid m' (TCPHeader.Raw h') /\
    len (TCPHeader.Raw h') = hl + len val /\
    bytes m' (TCPHeader.Raw h')
    = take (Z.to_nat hl) (bytes m (TCPHeader.Raw h)) ++ bytes m val /\
    grows m m' /\
    (forall t j, 0 <= off t + j -> (ptr t < length m)%nat ->
       (ptr t <> ptr (TCPHeader.Raw h) \/ off t + j < off (TCPHeader.Raw h) + hl) ->
       index m' t j = index m t j).
Proof.
  intros Hv Hvv Hhl Hle Hsync. set (raw := TCPHeader.Raw h) in *.
  pose proof Hv as (Ho & Hl & Ha). pose proof Hvv as (Hov & Hlv & Hav).
  assert (H0 : 0 <= hl).
  { unfold TCPHeader.hdrLen_of in Hhl.
    destruct (index m raw 12); simpl in Hhl; [|discriminate].
    injection Hhl as <-. unfold uint8. apply Z.mod_pos_bound. lia. }
  unfold TCPHeader.SetPayload. fold raw. rewrite Hhl. simpl.
  destruct (len val =? len (TCPHeader.Payload h)) eqn:Hlen.
  - apply Z.eqb_eq in Hlen. unfold from. rewrite reslice_ok by lia. simpl.
    eexists _, _. split; [reflexivity|]. simpl. fold raw.
    split; [done|]. split; [by apply grows_valid_write|]. split; [lia|].
    split; [|split; [apply grows_write|]].
    + rewrite Z.min_r by lia.
      rewrite (take_ge (bytes m val)) by (rewrite length_bytes; (done || lia)).
      rewrite (bytes_write_behind m raw hl (bytes m val) _ raw); try done;
        try (rewrite length_bytes by done; simpl; lia).
      by rewrite bytes_take by lia.
    + intros t j Hj _ Hout. apply index_write_outside; [| done | simpl; lia].
      unfold valid, array in *. simpl. lia.
  - apply Z.eqb_neq in Hlen. unfold upto. rewrite reslice_ok by lia. simpl.
    set (pre := Slice (ptr raw) (off raw + 0) (hl - 0) (cap raw - 0)).
    assert (Hpre : valid m pre) by (unfold valid, array in *; simpl; lia).
    destruct (bytes_append g m pre val Hpre Hvv) as [Hb Hva].
    pose proof (len_append g m pre val) as Hla.
    pose proof (grows_append g m pre val) as Hga.
    pose proof (fun t j => append_frame g m pre val t j Hpre ltac:(lia)) as Hfa.
    destruct (append g m pre val) as [m' r]. simpl in *.
    eexists _, _. split; [reflexivity|]. simpl.
    split; [done|]. split; [done|]. split; [lia|].
    split; [|split; [done|]].
    + rewrite Hb. f_equal. unfold bytes at 1. simpl.
      rewrite Z.add_0_r, Z.sub_0_r. change (array m pre) with (array m raw).
      by rewrite bytes_take by lia.
    + intros t j Hj Hp Hout. apply Hfa; [done | done | lia].
Qed.

(** X6: on a view whose [Payload] has the length of [Raw] behind the
    header, [SetPayload] returns for every buffer; afterwards
    [GetPayload] is that buffer, [Raw] is a slice of the store holding
    the old header bytes followed by the buffer's bytes, and its length
    is the header length plus the buffer's length. *)
Theorem SetPayload_contents g m h val hl :
  valid m (TCPHeader.Raw h) -> valid m val ->
  TCPHeader.hdrLen_of m (TCPHeader.Raw h) = Some hl ->
  hl <= len (TCPHeader.Raw h) ->
  len (TCPHeader.Payload h) = len (TCPHeader.Raw h) - hl ->
  exists m' h',
    TCPHeader.SetPayload g m h val = Some (m', h') /\
    TCPHeader.GetPayload h' = val /\
    valid m' (TCPHeader.Raw h') /\
    len (TCPHeader.Raw h') = hl + len val /\
    bytes m' (TCPHeader.Raw h')
    = take (Z.to_nat hl) (bytes m (TCPHeader.Raw h)) ++ bytes m val.
Proof.
  intros Hv Hvv Hhl Hle Hsync.
  destruct (SetPayload_spec g m h val hl Hv Hvv Hhl Hle Hsync)
    as (m' & h' & H1 & H2 & H3 & H4 & H5 & _).
  by exists m', h'.
Qed.

End TCPFieldFacts.

(** ** What UpdateTCPHeader leaves in Raw *)

Section UpdateFacts.
Import Mem header godivert.
Context {E : Externals}.

(** Where the result of [append] lies. *)
Lemma append_place g m s v :
  (len s + len v <= cap s ->
   ptr (append g m s v).2 = ptr s /\ off (append g m s v).2 = off s) /\
  (cap s < len s + len v ->
   ptr (append g m s v).2 = length m /\ off (append g m s v).2 = 0).
Proof.
  unfold append. split; intros H.
  - apply Z.leb_le in H. by rewrite H.
  - apply Z.leb_gt in H. by rewrite H.
Qed.

(** An array that holds a byte is one of the store. *)
Lemma valid_ptr m s : valid m s -> 0 < cap s -> (ptr s < length m)%nat.
Proof.
  intros (Ho & Hl & Ha) Hc. unfold array in Ha.
  destruct (m !! ptr s) as [a|] eqn:Hm; [by eapply lookup_lt_Some|].
  simpl in Ha. lia.
Qed.

Lemma drop_bytes_ext m1 m2 s k :
  valid m1 s -> valid m2 s ->
  (forall i, Z.of_nat k <= i < len s -> index m2 s i = index m1 s i) ->
  drop k (bytes m2 s) = drop k (bytes m1 s).
Proof.
  intros H1 H2 Hi. apply list_eq. intros j. rewrite !lookup_drop.
  destruct (decide (Z.of_nat (k + j) < len s)) as [Hlt | Hge].
  - rewrite !bytes_lookup by (destruct H1; lia). apply Hi. lia.
  - rewrite !lookup_ge_None_2; [done | |]; rewrite length_bytes by done; lia.
Qed.

(** The rebuild of [UpdateTCPHeader]: [Raw[:hl]] with the bytes of [tr]
    appended, in a store [mF] that differs from the one [append] left at
    most in bytes 2 and 3 of the old [Raw]. *)
Lemma rebuilt_contents g m raw hl tr mF :
  valid m raw -> valid m tr -> 4 <= hl <= len raw ->
  let pre := Slice (ptr raw) (off raw + 0) (hl - 0) (cap raw - 0) in
  let m2 := (append g m pre tr).1 in
  let raw2 := (append g m pre tr).2 in
  grows m2 mF ->
  (forall i, 0 <= off raw2 + i ->
     (ptr raw2 <> ptr raw \/ (off raw2 + i <> off raw + 2 /\ off raw2 + i <> off raw + 3)) ->
     index mF raw2 i = index m2 raw2 i) ->
  valid mF raw2 /\
  len raw2 = hl + len tr /\
  drop (Z.to_nat hl) (bytes mF raw2) = bytes m tr /\
  (forall i, 0 <= i < hl -> i < 2 \/ 4 <= i -> index mF raw2 i = index m raw i) /\
  (cap raw < hl + len tr ->
     ptr raw2 <> ptr raw /\
     index mF raw2 2 = index m raw 2 /\ index mF raw2 3 = index m raw 3).
Proof.
  intros Hv Hvt Hhl pre m2 raw2 G HF.
  pose proof Hv as (Ho & Hl & Ha). pose proof Hvt as (Hot & Hlt & Hat).
  assert (Hpre : valid m pre) by (unfold valid, array in *; simpl; lia).
  destruct (bytes_append g m pre tr Hpre Hvt) as [Hb Hv2].
  pose proof (len_append g m pre tr) as Hlen.
  destruct (append_place g m pre tr) as [Hstay Hmove].
  fold m2 raw2 in Hb, Hv2, Hlen, Hstay, Hmove. simpl in Hlen, Hstay, Hmove.
  assert (Hlp : length (bytes m pre) = Z.to_nat hl)
    by (rewrite length_bytes by done; simpl; lia).
  assert (Hor : 0 <= off raw2) by (destruct Hv2; lia).
  assert (Hfirst : forall i, 0 <= i < hl -> index m2 raw2 i = index m raw i).
  { intros i Hi. rewrite index_bytes by lia. rewrite Hb.
    rewrite lookup_app_l by lia.
    rewrite <- index_bytes by (simpl; lia).
    rewrite !index_in_range by (simpl; lia). simpl.
    change (array m pre) with (array m raw). f_equal. lia. }
  assert (HvF : valid mF raw2) by (by eapply valid_grows).
  split; [done|]. split; [lia|]. split; [|split].
  - rewrite (drop_bytes_ext m2 mF raw2 (Z.to_nat hl) Hv2 HvF).
    + rewrite Hb. by apply drop_app_length'.
    + intros i Hi. apply HF; [lia|].
      destruct (decide (ptr raw2 = ptr raw)) as [Hp | Hp]; [right | by left].
      destruct (Z.le_gt_cases (hl - 0 + len tr) (cap raw - 0)) as [Hfit | Hnofit].
      * destruct (Hstay Hfit) as [_ Hoff]. lia.
      * destruct (Hmove Hnofit) as [Hptr _].
        pose proof (valid_ptr m raw Hv ltac:(lia)). lia.
  - intros i Hi Hi'. rewrite HF; [by apply Hfirst | lia |].
    destruct (decide (ptr raw2 = ptr raw)) as [Hp | Hp]; [right | by left].
    destruct (Z.le_gt_cases (hl - 0 + len tr) (cap raw - 0)) as [Hfit | Hnofit].
    + destruct (Hstay Hfit) as [_ Hoff]. lia.
    + destruct (Hmove Hnofit) as [Hptr _].
      pose proof (valid_ptr m raw Hv ltac:(lia)). lia.
  - intros Hnofit. destruct Hmove as [Hptr Hoff]; [lia|].
    pose proof (valid_ptr m raw Hv ltac:(lia)) as Hpl.
    assert (Hne : ptr raw2 <> ptr raw) by lia.
    split; [done|].
    split; (rewrite HF; [apply Hfirst; lia | lia | by left]).
Qed.

Lemma SetTotalLen_frame m v x m' v' t j :
  IPv4Header.SetTotalLen m v x = Some (m', v') ->
  0 <= off (View.Raw v) -> 0 <= off t + j ->
  (ptr t <> ptr (View.Raw v) \/
   (off t + j <> off (View.Raw v) + 2 /\ off t + j <> off (View.Raw v) + 3)) ->
  index m' t j = index m t j.
Proof.
  unfold IPv4Header.SetTotalLen. simpl. intros H Ho Hj Hout.
  destruct (store m (View.Raw v) 2 _) as [m1|] eqn:H1; simpl in H; [|discriminate].
  destruct (store m1 (View.Raw v) 3 _) as [m2|] eqn:H2; simpl in H; [|discriminate].
  injection H as <- <-.
  rewrite (index_store_frame _ _ _ _ _ t j H2) by (lia || (destruct Hout; [by left | right; lia])).
  rewrite (index_store_frame _ _ _ _ _ t j H1) by (lia || (destruct Hout; [by left | right; lia])).
  done.
Qed.

(** What [UpdateTCPHeader] does to a packet with a TCP view. *)
Lemma UpdateTCPHeader_TCP m p t :
  valid m (Raw p) -> valid m (TCPHeader.Raw t) ->
  NextHeader p = Some (TCPHeader_ t) -> is_Some (IpHdr p) -> view_over_Raw p ->
  4 <= hdrLen p <= len (Raw p) ->
  exists m' p',
    UpdateTCPHeader m p = Some (m', p') /\
    valid m' (Raw p') /\
    len (Raw p') = hdrLen p + len (TCPHeader.Raw t) /\
    drop (Z.to_nat (hdrLen p)) (bytes m' (Raw p')) = bytes m (TCPHeader.Raw t) /\
    (forall i, 0 <= i < hdrLen p -> i < 2 \/ 4 <= i ->
       index m' (Raw p') i = index m (Raw p) i) /\
    (cap (Raw p) < hdrLen p + len (TCPHeader.Raw t) ->
       ptr (Raw p') <> ptr (Raw p) /\
       index m' (Raw p') 2 = index m (Raw p) 2 /\
       index m' (Raw p') 3 = index m (Raw p) 3 /\
       forall v, IpHdr p = Some (IPv4Header_ v) ->
         ipv4_TotalLen m' p' = Some (uint16 (hdrLen p + len (TCPHeader.Raw t)))).
Proof.
  intros Hv Hvt Hnh [ih Hih] Hal Hhl.
  pose proof Hv as (Ho & Hl & Ha). pose proof Hvt as (Hot & Hlt & Hat).
  unfold UpdateTCPHeader. rewrite Hnh. simpl. unfold from.
  rewrite reslice_ok by lia. simpl.
  destruct (len (TCPHeader.Raw t) =? len (Raw p) - hdrLen p) eqn:Hlen.
  - apply Z.eqb_eq in Hlen.
    set (tl := Slice (ptr (Raw p)) (off (Raw p) + hdrLen p) (len (Raw p) - hdrLen p)
                     (cap (Raw p) - hdrLen p)).
    assert (Hvtl : valid m tl) by (unfold valid, array in *; simpl; lia).
    assert (Hdata : take (Z.to_nat (Z.min (len tl) (len (TCPHeader.Raw t))))
                         (bytes m (TCPHeader.Raw t)) = bytes m (TCPHeader.Raw t)).
    { apply take_ge. rewrite length_bytes by done. simpl. lia. }
    eexists _, p. split; [reflexivity|]. unfold copy. cbn [fst]. cbn [len tl] in Hdata. rewrite Hdata.
    assert (Hld : Z.of_nat (length (bytes m (TCPHeader.Raw t))) = len tl)
      by (rewrite length_bytes by done; simpl; lia).
    split; [eapply valid_grows; [apply grows_write | done]|].
    split; [lia|]. split; [|split].
    + rewrite (bytes_write_behind m (Raw p) (hdrLen p) _ tl)
        by (try done; cbn [len tl] in Hld; lia).
      apply drop_app_length'. rewrite length_take, length_drop. unfold array in *. lia.
    + intros i Hi _. apply index_write_outside; [done | lia | simpl; lia].
    + lia.
  - apply Z.eqb_neq in Hlen. unfold upto. rewrite reslice_ok by lia. simpl.
    set (pre := Slice (ptr (Raw p)) (off (Raw p) + 0) (hdrLen p - 0) (cap (Raw p) - 0)).
    pose proof (rebuilt_contents growcap m (Raw p) (hdrLen p) (TCPHeader.Raw t)) as R.
    pose proof (len_append growcap m pre (TCPHeader.Raw t)) as Hla.
    pose proof (grows_append growcap m pre (TCPHeader.Raw t)) as Hga.
    assert (Hpre : valid m pre) by (unfold valid, array in *; simpl; lia).
    destruct (bytes_append growcap m pre (TCPHeader.Raw t) Hpre Hvt) as [_ Hv2].
    fold pre in R. simpl in R.
    destruct (append growcap m pre (TCPHeader.Raw t)) as [m2 raw2]. simpl in *.
    rewrite Hih. simpl. destruct ih as [v | v].
    + pose proof (Hal v Hih) as Hview.
      assert (Hvv : valid m2 (View.Raw v)).
      { rewrite Hview. eapply valid_grows; [done|].
        unfold valid, array in *; simpl; lia. }
      destruct (SetTotalLen_TotalLen m2 v (uint16 (len raw2)) Hvv
                  ltac:(rewrite Hview; simpl; lia) (is_uint16 _)) as (mF & HS & HT & G).
      rewrite HS. simpl. eexists _, _. split; [reflexivity|]. simpl.
      destruct (R mF Hv Hvt Hhl G) as (R1 & R2 & R3 & R4 & R5).
      { intros i Hi Hout. eapply SetTotalLen_frame; [exact HS | | done |].
        - rewrite Hview. simpl. lia.
        - rewrite Hview. simpl. done. }
      repeat (split; [done|]). intros Hnofit.
      destruct (R5 Hnofit) as (? & ? & ?). repeat (split; [done|]).
      intros v0 _. unfold ipv4_TotalLen. simpl. rewrite HT. by rewrite R2.
    + eexists _, _. split; [reflexivity|]. simpl.
      destruct (R m2 Hv Hvt Hhl (grows_refl _)) as (R1 & R2 & R3 & R4 & R5); [done|].
      repeat (split; [done|]). intros Hnofit.
      destruct (R5 Hnofit) as (? & ? & ?). repeat (split; [done|]).
      intros v0 [=].
Qed.


(** X8: when the rebuilt packet does not fit the capacity of [Raw],
    [append] moves [Raw] to a new array while the IPv4 view stays on the
    old one: the view then reads the new total length, and bytes 2 and 3
    of the new [Raw], the bytes that are sent, still hold the old
    one. *)
Theorem UpdateTCPHeader_moved_Raw_keeps_old_length m p t v :
  valid m (Raw p) -> valid m (TCPHeader.Raw t) ->
  NextHeader p = Some (TCPHeader_ t) -> IpHdr p = Some (IPv4Header_ v) ->
  view_over_Raw p -> 4 <= hdrLen p <= len (Raw p) ->
  cap (Raw p) < hdrLen p + len (TCPHeader.Raw t) ->
  exists m' p',
    UpdateTCPHeader m p = Some (m', p') /\
    ptr (Raw p') <> ptr (Raw p) /\
    ipv4_TotalLen m' p' = Some (uint16 (len (Raw p'))) /\
    index m' (Raw p') 2 = index m (Raw p) 2 /\
    index m' (Raw p') 3 = index m (Raw p) 3.
Proof.
  intros Hv Hvt Hnh Hih Hal Hhl Hnofit.
  destruct (UpdateTCPHeader_TCP m p t Hv Hvt Hnh ltac:(by eexists) Hal Hhl)
    as (m' & p' & H1 & _ & H3 & _ & _ & H6).
  destruct (H6 Hnofit) as (Hp & H2 & H3' & HT).
  exists m', p'. rewrite H3. by rewrite (HT v Hih).
Qed.

(** X9: replacing the payload of a packet parsed as TCP ([SetPayload] on
    the view, then [UpdateTCPHeader]) returns and leaves in [Raw] the IP
    header, bytes 2 and 3 apart, the TCP header of [thl] bytes as it
    was, and the bytes of the new payload, in this order. *)
Theorem replace_payload_contents m p0 p t val :
  valid m (Raw p0) -> valid m val ->
  ParseHeaders m p0 = Some p ->
  NextHeader p = Some (TCPHeader_ t) ->
  4 <= hdrLen p ->
  exists thl m' p',
    TCPHeader.hdrLen_of m (TCPHeader.Raw t) = Some thl /\
    replace_payload val m p = Some (m', p') /\
    len (Raw p') = hdrLen p + thl + len val /\
    drop (Z.to_nat (hdrLen p)) (bytes m' (Raw p'))
    = take (Z.to_nat thl) (drop (Z.to_nat (hdrLen p)) (bytes m (Raw p))) ++ bytes m val /\
    (forall i, 0 <= i < hdrLen p -> i < 2 \/ 4 <= i ->
       index m' (Raw p') i = index m (Raw p) i).
Proof.
  intros Hv Hvv (ver & hl & nt & ih & nh & Hip & Hnx & ->)%ParseHeaders_Some Hnh Hhl.
  simpl in *. subst nh. pose proof Hv as (Ho & Hlc & Ha).
  set (raw := Raw p0) in *.
  apply parse_next_TCP in Hnx as (tl & Htl & Ht).
  pose proof (valid_from m raw hl tl Hv Htl) as Hvtl.
  pose proof Htl as Htl'. unfold from in Htl'.
  pose proof (bytes_reslice m raw hl (len raw) tl Hv Htl' ltac:(lia)) as Hbtl.
  apply reslice_Some in Htl' as (Hh1 & Hh2 & Htl').
  apply NewTCPHeader_Some in Ht as (b12 & thl & Hb12 & Hthl & Hth & ->).
  set (t := TCPHeader.mk tl false _).
  assert (Hhdr : TCPHeader.hdrLen_of m (TCPHeader.Raw t) = Some thl).
  { unfold TCPHeader.hdrLen_of. simpl. rewrite Hb12. simpl. by rewrite Hthl. }
  destruct (SetPayload_spec growcap m t val thl Hvtl Hvv Hhdr ltac:(simpl; lia) eq_refl)
    as (m1 & t1 & HS & _ & Hv1 & Hl1 & Hb1 & G1 & F1).
  set (p := mkPacket raw (Addr p0) (PacketLen p0) (Some ih) (Some (TCPHeader_ t))
                     ver hl nt true (Buffer p0)).
  assert (Hal : view_over_Raw (with_NextHeader p (TCPHeader_ t1))).
  { intros v Hview. simpl in *. injection Hview as ->.
    apply parse_ip_Some in Hip as (b0 & Hb0 & _ & [(_ & Hhl4 & _ & view & Hview & Hvw) |
                                                  (_ & _ & _ & view & _ & Hvw)]);
      [injection Hvw as <- | discriminate].
    apply NewIPv4Header_Some in Hview as (b & Hb & _ & ->).
    rewrite Hb0 in Hb. injection Hb as <-. by rewrite <- Hhl4. }
  destruct (UpdateTCPHeader_TCP m1 (with_NextHeader p (TCPHeader_ t1)) t1)
    as (m2 & p2 & HU & _ & Hl2 & Hd2 & Hf2 & _);
    [by eapply valid_grows | done | done | by eexists | done | simpl; lia |].
  exists thl, m2, p2. split; [done|]. split.
  { unfold replace_payload, mutate_all, mutate, on_TCPHeader. simpl.
    fold t. rewrite HS. simpl. by rewrite HU. }
  simpl in *. split; [lia|]. split.
  - assert (Hlt : len tl = len raw - hl) by (by rewrite Htl').
    rewrite Hd2, Hb1, Hbtl. f_equal. fold raw.
    rewrite take_take. f_equal. lia.
  - intros i Hi Hi'. rewrite Hf2 by done. apply F1.
    + lia.
    + apply (valid_ptr m raw Hv). lia.
    + right. rewrite Htl'. simpl. lia.
Qed.

End UpdateFacts.

(** ** Packets without a TCP view, and ports seen through Raw *)

Section PacketFacts.
Import Mem header godivert.
Context {E : Externals}.

(** X10: after [ParseHeaders] on a packet that is not TCP,
    [UpdateTCPHeader] changes nothing when the protocol is one of ICMPv4,
    UDP and ICMPv6, and panics on the nil [NextHeader] of every other
    protocol. *)
Theorem UpdateTCPHeader_without_TCP_view m p p' :
  ParseHeaders m p = Some p' -> nextHeaderType p' <> TCP ->
  (recognized (nextHeaderType p') -> UpdateTCPHeader m p' = Some (m, p')) /\
  (~ recognized (nextHeaderType p') -> UpdateTCPHeader m p' = None).
Proof.
  intros (ver & hl & nt & ih & nh & Hip & Hnx & ->)%ParseHeaders_Some Hnt.
  simpl in *. split.
  - intros Hr. unfold UpdateTCPHeader. simpl. unfold parse_next in Hnx.
    destruct Hr as [-> | [-> | [-> | ->]]]; [| done | |]; simpl in Hnx;
      (destruct (reslice _ _ _); simpl in Hnx; [|discriminate]);
      by injection Hnx as <-.
  - intros Hr. rewrite parse_next_unrecognized in Hnx by done.
    by injection Hnx as <-.
Qed.

Lemma parse_next_is_TCP m raw hl nh :
  parse_next m raw hl TCP = Some nh ->
  exists tl t, from raw hl = Some tl /\ NewTCPHeader m tl = Some t /\
               nh = Some (TCPHeader_ t).
Proof.
  unfold parse_next. simpl. intros H.
  destruct (from raw hl) as [tl|]; simpl in H; [|discriminate].
  destruct (NewTCPHeader m tl) as [t|] eqn:Ht; simpl in H; [|discriminate].
  injection H as <-. by exists tl, t.
Qed.

(** X11: on a packet that is not yet parsed and parses as TCP,
    [SetSrcPort] parses it, returns no error and writes through to the
    packet: the two bytes of [Raw] at [hdrLen] then read, big-endian, as
    the port, no other byte of the store changes, [SrcPort] returns the
    port, and the packet needs a new checksum. *)
Theorem SetSrcPort_writes_through_to_Raw m p p1 port :
  valid m (Raw p) -> parsed p = false ->
  ParseHeaders m p = Some p1 -> nextHeaderType p1 = TCP ->
  0 <= port < 65536 ->
  exists m' p' b,
    SetSrcPort m p port = Some (m', p', None) /\
    SrcPort m' p' = Some (p', (port, None)) /\
    Raw p' = Raw p /\
    reslice (Raw p') (hdrLen p') (hdrLen p' + 2) = Some b /\
    Uint16 m' b = Some port /\
    untouched_outside m m' (Raw p) (hdrLen p') (hdrLen p' + 2) /\
    needs_checksum p' = Some true.
Proof.
  intros Hv Hunp HP Hnt Hport. pose proof HP as HP'.
  apply ParseHeaders_Some in HP as (ver & hl & nt & ih & nh & Hip & Hnx & ->).
  simpl in Hnt. subst nt. pose proof Hv as (Ho & Hlc & Ha).
  apply parse_next_is_TCP in Hnx as (tl & t & Htl & Ht & ->).
  pose proof (valid_from m (Raw p) hl tl Hv Htl) as Hvtl.
  unfold from in Htl. apply reslice_Some in Htl as (Hh1 & Hh2 & Htl).
  apply NewTCPHeader_Some in Ht as (b12 & thl & Hb12 & Hthl & Hth & Ht).
  apply index_Some in Hb12 as [Hb12 _].
  assert (Hraw : TCPHeader.Raw t = tl) by (by rewrite Ht).
  destruct (store16 m tl 0 port) as (m1 & m2 & b & H1 & H2 & Hb & Hr & Hu);
    [done | lia | lia | done |].
  rewrite <- Hraw in H1, H2.
  pose proof (SetSrcPort_Some m t port m1 m2 H1 H2) as HS.
  change (0 + 2) with 2 in Hb.
  eexists m2, _, b. split; [|split; [|split; [|split; [|split; [|split]]]]].
  - unfold SetSrcPort, VerifyParsed. rewrite Hunp. simpl. rewrite HP'. simpl.
    rewrite HS. simpl. reflexivity.
  - unfold SrcPort, VerifyParsed. simpl.
    unfold ProtocolHeader_SrcPort, TCPHeader.SrcPort. simpl.
    rewrite Hraw, Hb. simpl. by rewrite Hr.
  - done.
  - simpl. assert (Hlt : len tl = len (Raw p) - hl) by (by rewrite Htl).
    rewrite reslice_ok by lia.
    apply reslice_Some in Hb as (_ & _ & ->). rewrite Htl. simpl.
    f_equal. f_equal; lia.
  - done.
  - simpl. intros s j Hj Hout. apply Hu; [done|]. rewrite Htl. simpl. lia.
  - unfold needs_checksum. simpl. by rewrite orb_true_r.
Qed.

(** X12: on a packet whose IP header announces TCP, [ParseHeaders]
    returns exactly when byte 12 of the TCP part exists and the header
    length it gives, 4 * (byte >> 4), is not beyond the end of the
    packet; a TCP part cut short makes it panic. *)
Theorem ParseHeaders_TCP_returns_iff m p v hl ih :
  valid m (Raw p) -> parse_ip m (Raw p) = Some (v, hl, TCP, ih) -> 0 <= hl ->
  (is_Some (ParseHeaders m p) <->
   exists b12, index m (Raw p) (hl + 12) = Some b12 /\
               hl + uint8 (Z.shiftr b12 4 * 4) <= len (Raw p)).
Proof.
  intros Hv Hip Hhl. pose proof Hv as (Ho & Hlc & Ha). split.
  - intros [p' (v' & hl' & nt & ih' & nh & Hip' & Hnx & _)%ParseHeaders_Some].
    rewrite Hip in Hip'. injection Hip' as <- <- <- <-.
    apply parse_next_is_TCP in Hnx as (tl & t & Htl & Ht & _).
    unfold from in Htl. pose proof Htl as (H1 & H2 & Htl')%reslice_Some.
    apply NewTCPHeader_Some in Ht as (b12 & thl & Hb12 & -> & Hth & _).
    assert (Hlt : len tl = len (Raw p) - hl) by (by rewrite Htl').
    pose proof Hb12 as [Hr _]%index_Some.
    rewrite (index_reslice m (Raw p) hl (len (Raw p)) tl 12 Htl) in Hb12 by lia.
    exists b12. split; [done | lia].
  - intros (b12 & Hb12 & Hfit). pose proof Hb12 as [Hr _]%index_Some.
    assert (H0 : 0 <= uint8 (Z.shiftr b12 4 * 4)).
    { unfold uint8. apply Z.mod_pos_bound. lia. }
    assert (Htl : reslice (Raw p) hl (len (Raw p))
                  = Some (Slice (ptr (Raw p)) (off (Raw p) + hl) (len (Raw p) - hl)
                                (cap (Raw p) - hl))) by (apply reslice_ok; lia).
    unfold ParseHeaders. rewrite Hip. simpl. unfold parse_next. simpl.
    unfold from. rewrite Htl. simpl.
    unfold NewTCPHeader, TCPHeader.hdrLen_of.
    rewrite (index_reslice m (Raw p) hl (len (Raw p)) _ 12 Htl) by lia.
    rewrite Hb12. simpl. unfold from. rewrite reslice_ok by (simpl; lia).
    simpl. by eexists.
Qed.

End PacketFacts.

(** ** The pool, Recv, Send and the receive loop *)

Section SessionFacts.
Import Mem header godivert.
Context {E : Externals}.

Lemma zero_loop_frame n : forall m s i m' t j,
  zero_loop m s i n = Some m' -> 0 <= off s + i -> 0 <= off t + j ->
  (ptr t <> ptr s \/ off t + j < off s + i \/ off s + i + Z.of_nat n <= off t + j) ->
  index m' t j = index m t j.
Proof.
  induction n as [|n IH]; simpl; intros m s i m' t j H Hi Hj Hout.
  - by injection H as <-.
  - destruct (store m s i 0) as [m1|] eqn:Hs; simpl in H; [|discriminate].
    rewrite (IH m1 s (i + 1) m' t j H) by lia.
    apply (index_store_frame m s i 0 m1 t j Hs); lia.
Qed.

(** X13: [ReturnBuffer] returns unless the buffer has the pool's size and
    [length] is more than that size, the case in which its loop leaves the
    buffer and panics; a length of zero or less is accepted. *)
Theorem ReturnBuffer_returns_iff w b k :
  is_Some (ReturnBuffer w b k) <-> len b <> PacketBufferSize \/ k <= PacketBufferSize.
Proof. apply ReturnBuffer_is_Some. Qed.

(** X14: [ReturnBuffer] writes nothing but the first [length] bytes of
    the buffer it is given: every other byte of the store, the bytes of
    the buffer from [length] on among them, is as before, and nothing is
    printed. *)
Theorem ReturnBuffer_writes_only_released_bytes w b k w' :
  ReturnBuffer w b k = Some w' -> 0 <= off b ->
  stdout w' = stdout w /\ untouched_outside (mem w) (mem w') b 0 k.
Proof.
  unfold ReturnBuffer. intros H Ho. destruct (len b =? PacketBufferSize).
  - destruct (zero_loop (mem w) b 0 (Z.to_nat k)) as [m'|] eqn:Hz; simpl in H;
      [|discriminate].
    injection H as <-. simpl. split; [done|]. intros t j Hj Hout.
    apply (zero_loop_frame _ _ _ _ _ t j Hz); lia.
  - injection H as <-. split; [done|]. by intros t j _ _.
Qed.

(** X15: on an open handle and a packet length below 2^63, [Send] returns
    exactly when the packet has a first byte and is not longer than a
    pool-sized buffer; an empty packet and a packet that outgrew its
    buffer make it panic. *)
Theorem Send_returns_iff rs w wd p :
  open wd = true -> 0 <= PacketLen p < 2 ^ 63 ->
  (is_Some (WinDivertHandle_Send rs w wd p) <->
   is_Some (index (mem w) (Raw p) 0) /\
   (len (getBuffer p) <> PacketBufferSize \/ PacketLen p <= PacketBufferSize)).
Proof.
  intros Ho Hp. unfold WinDivertHandle_Send. rewrite Ho. simpl.
  rewrite int_of_uint_small by done.
  pose proof (ReturnBuffer_is_Some w (getBuffer p) (PacketLen p)) as HR.
  destruct (index (mem w) (Raw p) 0) as [b0|]; simpl.
  - destruct (ReturnBuffer w (getBuffer p) (PacketLen p)) as [w1|]; simpl.
    + split; [intros _; split; [by eexists | apply HR; by eexists]|].
      intros _. destruct (r1 (send_ret rs) =? 0); by eexists.
    + split; [by intros [? [=]]|]. intros [_ H]. by apply HR in H.
  - split; [by intros [? [=]] | by intros [[? [=]] _]].
Qed.

Lemma pool_ok_GetBuffer sel w : pool_ok w -> pool_ok (GetBuffer sel w).2.
Proof.
  intros Hp. unfold GetBuffer, bufferPool_Get.
  assert (HN : pool_ok (bufferPool_New w).2).
  { unfold bufferPool_New, make. cbn [snd].
    apply (pool_ok_grows w); [apply grows_snoc | done]. }
  destruct sel as [i|]; [|done].
  destruct (bufferPool w !! i) as [b|]; [|done].
  cbn [snd]. unfold pool_ok in *. cbn [mem bufferPool]. by apply Forall_delete.
Qed.

Lemma GetBuffer_pool sel w :
  bufferPool (GetBuffer sel w).2
  = match sel with Some i => delete i (bufferPool w) | None => bufferPool w end.
Proof.
  unfold GetBuffer, bufferPool_Get, bufferPool_New, make.
  destruct sel as [i|]; [|done].
  destruct (bufferPool w !! i) as [b|] eqn:Hb; [done|].
  cbn [snd bufferPool]. apply lookup_ge_None in Hb.
  rewrite delete_take_drop, take_ge, drop_ge by lia. by rewrite app_nil_r.
Qed.

(** [Recv] on an open handle whose pool is in order. *)
Lemma Recv_open sel r w wd :
  pool_ok w -> open wd = true ->
  (r1 (recv_ret r) <> 0 -> 0 <= recv_packetLen r <= PacketBufferSize) ->
  exists b m',
    b = (GetBuffer sel w).1 /\
    len b = PacketBufferSize /\ valid m' b /\
    pool_ok (mkWorld m' (bufferPool (GetBuffer sel w).2) (stdout w)) /\
    WinDivertHandle_Recv sel r w wd
    = Some (mkWorld m' (bufferPool (GetBuffer sel w).2) (stdout w),
            if r1 (recv_ret r) =? 0
            then (None, Some (Errno (lastErr (recv_ret r))))
            else (Some (mkPacket (Slice (ptr b) (off b + 0) (recv_packetLen r - 0)
                                        (cap b - 0))
                                 (Some (recv_addr r)) (recv_packetLen r) None None
                                 0 0 0 false b), None)).
Proof.
  intros Hp Ho Hb.
  destruct (GetBuffer_ok sel w Hp) as (Hl & Hv & G).
  pose proof (pool_ok_GetBuffer sel w Hp) as Hp1.
  assert (Hout : stdout (GetBuffer sel w).2 = stdout w).
  { unfold GetBuffer, bufferPool_Get, bufferPool_New, make.
    destruct sel as [i|]; [|done]. by destruct (bufferPool w !! i). }
  unfold WinDivertHandle_Recv. rewrite Ho. cbn [negb].
  destruct (GetBuffer sel w) as [b w1]. cbn [fst snd] in *.
  assert (H0 : 0 < PacketBufferSize) by done.
  pose proof Hv as (Hvo & Hvl & Hva).
  assert (Hi : is_Some (index (mem w1) b 0)).
  { rewrite index_in_range by lia. apply lookup_lt_is_Some_2.
    apply valid_lookup; [done | lia]. }
  destruct Hi as [b0 Hi]. rewrite Hi. cbn [mbind option_bind].
  set (m' := write (mem w1) b _).
  exists b, m'. split; [done|]. split; [done|].
  split; [by apply grows_valid_write|].
  split; [apply (pool_ok_grows w1 m'); [apply grows_write | done]|].
  rewrite Hout.
  destruct (r1 (recv_ret r) =? 0) eqn:Hr; [done|].
  apply Z.eqb_neq in Hr. specialize (Hb Hr).
  unfold upto. by rewrite reslice_ok by lia.
Qed.

(** X16: when the driver call fails, [Recv] returns no packet and the
    driver's error, and the buffer it took is not put back: the pool is
    the one [GetBuffer] left. *)
Theorem Recv_failure_keeps_buffer sel r w wd :
  pool_ok w -> open wd = true -> r1 (recv_ret r) = 0 ->
  exists w',
    WinDivertHandle_Recv sel r w wd
    = Some (w', (None, Some (Errno (lastErr (recv_ret r))))) /\
    bufferPool w'
    = match sel with Some i => delete i (bufferPool w) | None => bufferPool w end.
Proof.
  intros Hp Ho Hr.
  destruct (Recv_open sel r w wd Hp Ho) as (b & m' & _ & _ & _ & _ & HR); [by rewrite Hr|].
  rewrite HR, Hr. simpl. eexists. split; [reflexivity|]. simpl. apply GetBuffer_pool.
Qed.

Lemma Send_open_zeroes rs w wd p :
  open wd = true -> is_Some (index (mem w) (Raw p) 0) ->
  0 <= PacketLen p <= PacketBufferSize ->
  len (Buffer p) = PacketBufferSize -> valid (mem w) (Buffer p) ->
  exists m',
    WinDivertHandle_Send rs w wd p
    = Some (mkWorld m' (Buffer p :: bufferPool w) (stdout w),
            if r1 (send_ret rs) =? 0
            then (0, Some (Errno (lastErr (send_ret rs))))
            else (send_sendLen rs, None)) /\
    grows (mem w) m' /\
    (forall j, 0 <= j < PacketLen p -> index m' (Buffer p) j = Some 0) /\
    (pool_ok w -> pool_ok (mkWorld m' (Buffer p :: bufferPool w) (stdout w))).
Proof.
  intros Ho [b0 Hi] Hp Hl Hv. unfold WinDivertHandle_Send, getBuffer.
  rewrite Ho, Hi. simpl.
  assert (H0 : PacketBufferSize < 2 ^ 63) by done.
  rewrite int_of_uint_small by lia.
  destruct (ReturnBuffer_pooled w (Buffer p) (PacketLen p) Hl Hv Hp) as (m' & HR & G & Hz).
  rewrite HR. simpl. exists m'. split; [by destruct (r1 (send_ret rs) =? 0)|].
  split; [done|]. split; [done|]. intros Hok.
  by apply (pool_ok_ReturnBuffer w (Buffer p) (PacketLen p)).
Qed.

(** X17: a packet that [Recv] delivers can be sent as it is: [Send] on
    the packet calls no checksum routine, returns the injection's result
    and puts the buffer [Recv] took back into the pool, its first
    [PacketLen] bytes zeroed. *)
Theorem Recv_then_Send_recycles_buffer sel r rc rs w wd :
  pool_ok w -> open wd = true -> r1 (recv_ret r) <> 0 ->
  0 < recv_packetLen r <= PacketBufferSize ->
  exists w1 p m2,
    WinDivertHandle_Recv sel r w wd = Some (w1, (Some p, None)) /\
    Buffer p = (GetBuffer sel w).1 /\
    Packet_Send rc rs w1 wd p
    = Some (mkWorld m2 (Buffer p :: bufferPool w1) (stdout w1), p,
            if r1 (send_ret rs) =? 0
            then (0, Some (Errno (lastErr (send_ret rs))))
            else (send_sendLen rs, None)) /\
    (forall j, 0 <= j < recv_packetLen r -> index m2 (Buffer p) j = Some 0) /\
    pool_ok (mkWorld m2 (Buffer p :: bufferPool w1) (stdout w1)).
Proof.
  intros Hp Ho Hr Hlen.
  destruct (Recv_open sel r w wd Hp Ho) as (b & m' & Hb & Hl & Hv & Hp1 & HR); [lia|].
  apply Z.eqb_neq in Hr. rewrite Hr in HR.
  set (w1 := mkWorld m' _ _) in *. set (p := mkPacket _ _ _ _ _ _ _ _ _ _) in *.
  pose proof Hv as (Hvo & Hvl & Hva).
  assert (Hi : is_Some (index (mem w1) (Raw p) 0)).
  { simpl. rewrite index_in_range by (simpl; lia). apply lookup_lt_is_Some_2.
    simpl. change (array m' (Slice (ptr b) _ _ _)) with (array m' b). lia. }
  destruct (Send_open_zeroes rs w1 wd p Ho Hi) as (m2 & HS & G & Hz & Hok);
    [simpl; lia | done | done |].
  exists w1, p, m2. split; [done|]. split; [done|].
  split; [|split; [done | by apply Hok]].
  unfold Packet_Send, needs_checksum. simpl. by rewrite HS.
Qed.

(** X18: two [Send] calls on one packet put its buffer into the pool
    twice, and the next two [GetBuffer] calls can hand out the same
    buffer. *)
Theorem Send_twice_pools_buffer_twice rs1 rs2 w wd p :
  open wd = true -> is_Some (index (mem w) (Raw p) 0) ->
  0 <= PacketLen p <= PacketBufferSize ->
  len (Buffer p) = PacketBufferSize -> valid (mem w) (Buffer p) ->
  exists w1 r1 w2 r2,
    WinDivertHandle_Send rs1 w wd p = Some (w1, r1) /\
    WinDivertHandle_Send rs2 w1 wd p = Some (w2, r2) /\
    bufferPool w2 = Buffer p :: Buffer p :: bufferPool w /\
    (GetBuffer (Some 0%nat) w2).1 = Buffer p /\
    (GetBuffer (Some 0%nat) (GetBuffer (Some 0%nat) w2).2).1 = Buffer p.
Proof.
  intros Ho Hi Hp Hl Hv.
  destruct (Send_open_zeroes rs1 w wd p Ho Hi Hp Hl Hv) as (m1 & HS1 & G1 & _ & _).
  set (w1 := mkWorld m1 (Buffer p :: bufferPool w) (stdout w)) in *.
  destruct (Send_open_zeroes rs2 w1 wd p Ho) as (m2 & HS2 & _ & _ & _);
    [by eapply index_grows | done | done | by eapply valid_grows |].
  eexists _, _, _, _. split; [exact HS1|]. split; [exact HS2|]. done.
Qed.

(** X19: [recvLoop] sends one packet for each turn up to the first one
    that does not deliver, in the order of the turns and never a nil one;
    each has the length and the address the driver reported, is not yet
    parsed and holds a pool-sized buffer; the loop ends at the first turn
    that finds the handle closed or whose driver call fails, and sends
    nothing from then on. *)
Theorem recvLoop_publishes_until_first_failure turns : forall w wd ch,
  pool_ok w ->
  Forall (fun t => 0 <= recv_packetLen (turn_recv t) <= PacketBufferSize) turns ->
  exists w' new fin good rest,
    recvLoop turns w wd ch = Some (w', ch ++ new, fin) /\
    turns = good ++ rest /\
    Forall (fun t => turn_delivers t = true) good /\
    Forall2 published good new /\
    match rest with
    | [] => fin = false
    | t :: _ => fin = true /\ turn_delivers t = false
    end /\
    pool_ok w'.
Proof.
  induction turns as [|t turns IH]; intros w wd ch Hp Hb.
  { exists w, [], false, [], []. simpl. rewrite app_nil_r.
    repeat split; (done || constructor). }
  apply Forall_cons in Hb as [Hbt Hb]. simpl.
  destruct (open_at_test t) eqn:Ht.
  - destruct (open_at_Recv t) eqn:Hr.
    + destruct (Recv_open (turn_sel t) (turn_recv t) w (mkHandle (handle wd) true) Hp eq_refl)
        as (b & m' & Hbuf & Hl & Hv & Hp1 & HR); [done|].
      rewrite HR. simpl. destruct (r1 (recv_ret (turn_recv t)) =? 0) eqn:H0; simpl.
      * eexists _, [], true, [], (t :: turns). rewrite app_nil_r.
        split; [reflexivity|]. split; [done|]. split; [constructor|].
        split; [constructor|]. split; [|exact Hp1].
        split; [done|]. unfold turn_delivers. by rewrite Ht, Hr, H0.
      * set (w1 := mkWorld m' _ _) in *. set (p := mkPacket _ _ _ _ _ _ _ _ _ _).
        destruct (IH w1 wd (ch ++ [Some p]) Hp1 Hb)
          as (w2 & new & fin & good & rest & HL & -> & Hg & Hpub & Hrest & Hp2).
        exists w2, (Some p :: new), fin, (t :: good), rest.
        rewrite HL. rewrite <- app_assoc. split; [done|]. split; [done|].
        split; [constructor; [|done]; unfold turn_delivers; by rewrite Ht, Hr, H0|].
        split; [|done]. constructor; [|done].
        exists p. simpl. repeat split; (done || lia).
    + unfold WinDivertHandle_Recv. simpl.
      eexists _, [], true, [], (t :: turns). rewrite app_nil_r.
      split; [reflexivity|]. split; [done|]. split; [constructor|].
      split; [constructor|]. split; [|exact Hp].
      split; [done|]. unfold turn_delivers. by rewrite Ht, Hr.
  - exists w, [], true, [], (t :: turns). rewrite app_nil_r.
    split; [done|]. split; [done|]. split; [constructor|].
    split; [constructor|]. split; [|done].
    split; [done|]. unfold turn_delivers. by rewrite Ht.
Qed.

End SessionFacts.

(** ** The further properties on the samples *)

Section FurtherSamples.
Import Mem header godivert Examples.

Lemma valid_five sample : valid (store_of sample) five.
Proof. unfold valid, array, store_of, five. simpl. lia. Qed.

Lemma valid_tcp_view : valid (store_of ip4tcp) (TCPHeader.Raw tcp_view).
Proof. apply valid_sample; simpl; lia. Qed.


Lemma valid_buffer_world1 : valid (mem world1) buffer.
Proof.
  unfold valid, array, world1, buffer. cbn [mem ptr off len cap].
  cbn [lookup list_lookup default from_option id].
  rewrite length_app, length_replicate. change (length ip4tcp) with 40%nat.
  unfold PacketBufferSize. lia.
Qed.

Lemma valid_buffer_world2 : valid (mem world2) buffer.
Proof.
  unfold valid, array, world2, buffer. cbn [mem ptr off len cap].
  cbn [lookup list_lookup default from_option id].
  rewrite length_app, length_replicate. change (length ip4tcp_4321) with 40%nat.
  unfold PacketBufferSize. lia.
Qed.

Lemma pool_ok_world0 : pool_ok world0.
Proof. constructor. Qed.

Lemma TCP_ports_round_trip_witness :
  exists m' h',
    TCPHeader.SetSrcPort (store_of ip4tcp) tcp_view 4321 = Some (m', h', None) /\
    TCPHeader.SrcPort m' h' = Some (4321, None) /\
    TCPHeader.DstPort m' h' = Some (80, None).
Proof.
  destruct (TCP_ports_round_trip (store_of ip4tcp) tcp_view 4321)
    as [(m' & h' & H1 & H2 & H3) _].
  - exact valid_tcp_view.
  - simpl. lia.
  - lia.
  - exists m', h'. split; [exact H1|]. split; [exact H2|]. rewrite H3. reflexivity.
Defined.

Lemma TCP_seq_ack_round_trip_witness :
  exists m' h',
    TCPHeader.SetSeqNum (store_of ip4tcp) tcp_view 7 = Some (m', h', None) /\
    TCPHeader.SeqNum m' h' = Some 7 /\
    TCPHeader.AckNum m' h' = Some 0.
Proof.
  destruct (TCP_seq_ack_round_trip (store_of ip4tcp) tcp_view 7)
    as [(m' & h' & H1 & H2 & H3) _].
  - exact valid_tcp_view.
  - simpl. lia.
  - lia.
  - exists m', h'. split; [exact H1|]. split; [exact H2|]. rewrite H3. reflexivity.
Defined.

Lemma TCP_setter_writes_only_its_field_witness :
  untouched_outside (store_of ip4tcp) (store_of ip4tcp_4321) tcp_slice 0 2 /\
  TCPHeader.Window (store_of ip4tcp_4321) (TCPHeader.mk tcp_slice true (Slice 1 40 0 24))
  = TCPHeader.Window (store_of ip4tcp) tcp_view.
Proof.
  destruct (TCP_setter_writes_only_its_field (growcap (Externals := externals))
              (TCPHeader.SetSrcPort_ 4321) (store_of ip4tcp) tcp_view
              (store_of ip4tcp_4321) (TCPHeader.mk tcp_slice true (Slice 1 40 0 24)) 0 2)
    as (_ & _ & H3 & _ & _ & _ & H7 & _).
  - reflexivity.
  - simpl. lia.
  - reflexivity.
  - split; [exact H3 | exact H7].
Defined.

Lemma TCP_bytes_12_13_decoded_witness :
  exists d r ns,
    TCPHeader.DataOffset (store_of ip4tcp) tcp_view = Some d /\
    TCPHeader.Reserved (store_of ip4tcp) tcp_view = Some r /\
    TCPHeader.NS (store_of ip4tcp) tcp_view = Some ns /\
    TCPHeader.HeaderLen (store_of ip4tcp) tcp_view = Some (4 * d) /\
    80 = 16 * d + 2 * r + Z.b2z ns.
Proof.
  destruct (TCP_bytes_12_13_decoded (store_of ip4tcp) tcp_view 80 2)
    as (d & r & ns & cwr & ece & urg & ack & psh & rst & syn & fin &
        H1 & H2 & H3 & _ & _ & _ & _ & _ & _ & _ & _ & H12 & _ & _ & H15 & _).
  - reflexivity.
  - lia.
  - reflexivity.
  - lia.
  - exists d, r, ns. split; [exact H1|]. split; [exact H2|]. split; [exact H3|].
    split; [exact H12 | exact H15].
Defined.

Lemma TCP_header_options_payload_witness :
  exists hl o,
    TCPHeader.HeaderLen (store_of ip4tcp) tcp_view = Some hl /\
    hl = 4 * Z.shiftr 80 4 /\
    TCPHeader.Options (store_of ip4tcp) tcp_view = Some o /\
    (hl <= 20 -> o = Mem.nil).
Proof.
  destruct (TCP_header_options_payload (store_of ip4tcp) tcp_slice tcp_view 80)
    as (hl & o & H1 & H2 & _ & H4 & _ & _ & H7 & _).
  - exact valid_tcp_view.
  - reflexivity.
  - reflexivity.
  - lia.
  - exists hl, o. split; [exact H1|]. split; [exact H2|]. split; [exact H4 | exact H7].
Defined.

Lemma SetPayload_contents_witness :
  exists m' h',
    TCPHeader.SetPayload (growcap (Externals := externals)) (store_of ip4tcp) tcp_view five
    = Some (m', h') /\
    TCPHeader.GetPayload h' = five /\
    len (TCPHeader.Raw h') = 25 /\
    bytes m' (TCPHeader.Raw h') = drop 20 ip4tcp ++ [1; 2; 3; 4; 5].
Proof.
  destruct (SetPayload_contents (growcap (Externals := externals))
              (store_of ip4tcp) tcp_view five 20)
    as (m' & h' & H1 & H2 & _ & H4 & H5).
  - exact valid_tcp_view.
  - apply valid_five.
  - reflexivity.
  - simpl. lia.
  - reflexivity.
  - exists m', h'. split; [exact H1|]. split; [exact H2|].
    split; [exact H4 | exact H5].
Defined.



Lemma valid_tight_Raw : valid tight_store (Raw tight_parsed).
Proof. unfold valid, array. simpl. lia. Qed.

Lemma valid_tight_view : valid tight_store (TCPHeader.Raw tight_view).
Proof. unfold valid, array. simpl. lia. Qed.

Lemma view_over_Raw_tight : view_over_Raw tight_parsed.
Proof. intros v [= <-]. reflexivity. Qed.

Lemma UpdateTCPHeader_moved_Raw_keeps_old_length_witness :
  exists m' p',
    UpdateTCPHeader (E := externals) tight_store tight_parsed = Some (m', p') /\
    ptr (Raw p') <> 1%nat /\
    len (Raw p') = 45 /\
    ipv4_TotalLen m' p' = Some 45 /\
    index m' (Raw p') 2 = Some 0 /\
    index m' (Raw p') 3 = Some 40.
Proof.
  destruct (UpdateTCPHeader_moved_Raw_keeps_old_length (E := externals)
              tight_store tight_parsed tight_view (View.mk (Slice 1 0 20 40) false))
    as (m' & p' & H1 & H2 & H3 & H4 & H5).
  - exact valid_tight_Raw.
  - exact valid_tight_view.
  - reflexivity.
  - reflexivity.
  - exact view_over_Raw_tight.
  - simpl. lia.
  - simpl. lia.
  - exists m', p'. split; [exact H1|]. split; [exact H2|].
    assert (Hl : len (Raw p') = 45).
    { pose proof H1 as H1'. vm_compute in H1'. by injection H1' as <- <-. }
    rewrite Hl in H3. split; [exact Hl|]. split; [exact H3|].
    split; [exact H4 | exact H5].
Defined.

Lemma replace_payload_contents_witness :
  exists thl m' p',
    TCPHeader.hdrLen_of (store_of ip4tcp) (TCPHeader.Raw tcp_view) = Some thl /\
    replace_payload (E := externals) five (store_of ip4tcp) parsed_ip4tcp = Some (m', p') /\
    len (Raw p') = 20 + thl + 5 /\
    drop 20 (bytes m' (Raw p'))
    = take (Z.to_nat thl) (drop 20 ip4tcp) ++ [1; 2; 3; 4; 5].
Proof.
  destruct (replace_payload_contents (E := externals)
              (store_of ip4tcp) (unparsed 40) parsed_ip4tcp tcp_view five)
    as (thl & m' & p' & H1 & H2 & H3 & H4 & _).
  - apply valid_sample; simpl; lia.
  - apply valid_five.
  - reflexivity.
  - reflexivity.
  - simpl. lia.
  - exists thl, m', p'. split; [exact H1|]. split; [exact H2|].
    split; [exact H3 | exact H4].
Defined.

Lemma UpdateTCPHeader_without_TCP_view_witness :
  UpdateTCPHeader (E := externals) (store_of ip4_proto200) parsed_proto200 = None.
Proof.
  destruct (UpdateTCPHeader_without_TCP_view (E := externals)
              (store_of ip4_proto200) (unparsed 20) parsed_proto200) as [_ H].
  - reflexivity.
  - discriminate.
  - apply H. unfold recognized. simpl. intros [H1 | [H1 | [H1 | H1]]]; discriminate.
Defined.

Lemma SetSrcPort_writes_through_to_Raw_witness :
  exists m' p' b,
    SetSrcPort (E := externals) (store_of ip4tcp) (unparsed 40) 4321 = Some (m', p', None) /\
    SrcPort m' p' = Some (p', (4321, None)) /\
    reslice (Raw p') 20 22 = Some b /\
    Uint16 m' b = Some 4321 /\
    needs_checksum p' = Some true.
Proof.
  destruct (SetSrcPort_writes_through_to_Raw (E := externals)
              (store_of ip4tcp) (unparsed 40) parsed_ip4tcp 4321)
    as (m' & p' & b & H1 & H2 & _ & H4 & H5 & _ & H7).
  - apply valid_sample; simpl; lia.
  - reflexivity.
  - reflexivity.
  - reflexivity.
  - lia.
  - exists m', p', b. split; [exact H1|]. split; [exact H2|].
    assert (Hh : hdrLen p' = 20).
    { pose proof H1 as H1'. vm_compute in H1'. by injection H1' as <- <-. }
    rewrite Hh in H4. split; [exact H4|]. split; [exact H5 | exact H7].
Defined.

Lemma ParseHeaders_TCP_returns_iff_witness :
  is_Some (ParseHeaders (E := externals) (store_of ip4tcp) (unparsed 40)).
Proof.
  apply (ParseHeaders_TCP_returns_iff (E := externals)
           (store_of ip4tcp) (unparsed 40) 4 20 (IPv4Header_ ip4_view)).
  - apply valid_sample; simpl; lia.
  - reflexivity.
  - lia.
  - exists 80. split; [reflexivity|]. vm_compute. discriminate.
Defined.

Lemma ReturnBuffer_writes_only_released_bytes_witness :
  exists w',
    ReturnBuffer world1 buffer 40 = Some w' /\
    stdout w' = stdout world1 /\
    untouched_outside (mem world1) (mem w') buffer 0 40.
Proof.
  destruct (ReturnBuffer_pooled world1 buffer 40) as (m' & HR & _).
  - reflexivity.
  - exact valid_buffer_world1.
  - unfold PacketBufferSize. lia.
  - eexists. split; [exact HR|].
    apply (ReturnBuffer_writes_only_released_bytes world1 buffer 40 _ HR).
    simpl. lia.
Defined.

Lemma Send_returns_iff_witness :
  is_Some (WinDivertHandle_Send (E := externals) send_succeeds world2 opened sent).
Proof.
  apply (Send_returns_iff (E := externals) send_succeeds world2 opened sent).
  - reflexivity.
  - simpl. lia.
  - split; [exact sent_has_a_byte|]. right. exact (proj2 sent_fits).
Defined.

Lemma Recv_failure_keeps_buffer_witness :
  exists w',
    WinDivertHandle_Recv (E := externals) None recv_fails world0 opened
    = Some (w', (None, Some (Errno 995))) /\
    bufferPool w' = [].
Proof.
  apply (Recv_failure_keeps_buffer (E := externals) None recv_fails world0 opened).
  - exact pool_ok_world0.
  - reflexivity.
  - reflexivity.
Defined.

Lemma Recv_then_Send_recycles_buffer_witness :
  exists w1 p m2,
    WinDivertHandle_Recv (E := externals) None delivers world0 opened
    = Some (w1, (Some p, None)) /\
    Packet_Send calc_fails send_succeeds w1 opened p
    = Some (mkWorld m2 (Buffer p :: bufferPool w1) (stdout w1), p, (40, None)).
Proof.
  destruct (Recv_then_Send_recycles_buffer (E := externals)
              None delivers calc_fails send_succeeds world0 opened)
    as (w1 & p & m2 & H1 & _ & H3 & _).
  - exact pool_ok_world0.
  - reflexivity.
  - discriminate.
  - unfold PacketBufferSize. simpl. lia.
  - exists w1, p, m2. split; [exact H1 | exact H3].
Defined.

Lemma Send_twice_pools_buffer_twice_witness :
  exists w1 r1 w2 r2,
    WinDivertHandle_Send (E := externals) send_fails world2 opened sent = Some (w1, r1) /\
    WinDivertHandle_Send (E := externals) send_succeeds w1 opened sent = Some (w2, r2) /\
    bufferPool w2 = [buffer; buffer].
Proof.
  destruct (Send_twice_pools_buffer_twice (E := externals)
              send_fails send_succeeds world2 opened sent)
    as (w1 & r1 & w2 & r2 & H1 & H2 & H3 & _).
  - reflexivity.
  - exact sent_has_a_byte.
  - exact sent_fits.
  - reflexivity.
  - exact valid_buffer_world2.
  - exists w1, r1, w2, r2. split; [exact H1|]. split; [exact H2 | exact H3].
Defined.

Lemma recvLoop_publishes_until_first_failure_witness :
  exists w' new fin good rest,
    recvLoop (E := externals) two_turns world0 opened [] = Some (w', new, fin) /\
    two_turns = good ++ rest /\
    Forall2 published good new /\
    match rest with
    | [] => fin = false
    | t :: _ => fin = true /\ turn_delivers t = false
    end.
Proof.
  destruct (recvLoop_publishes_until_first_failure (E := externals)
              two_turns world0 opened [])
    as (w' & new & fin & good & rest & H1 & H2 & _ & H4 & H5 & _).
  - exact pool_ok_world0.
  - repeat constructor; unfold PacketBufferSize; simpl; lia.
  - exists w', new, fin, good, rest. split; [exact H1|]. split; [exact H2|].
    split; [exact H4 | exact H5].
Defined.

End FurtherSamples.
